(** * Active-learning likelihood-ratio estimation: a shallow embedding

    The development follows the Python package
    [active_learning_ratio_estimation]:

    - [dataset.py]: [ParamIterator], [ParamGrid], [RatioDataset],
      [UnparameterizedRatioDataset], [SinglyParameterizedRatioDataset] and
      their [build_input];
    - [model/ratio_model.py]: [SinglyParameterizedRatioModel.predict],
      [param_scan], [exact_param_scan], [_to_meshgrid_shape];
    - [active_learning/active_learner.py]: the trialed mask,
      [trialed_thetas], [remaining_thetas], [_gp],
      [choose_next_theta_index], [_record_acq_history], [step] and [fit].

    Conventions.  A NumPy array is a [list] (axis 0); a two-dimensional array
    is a list of rows.  Finite floating-point numbers are exact rationals in
    canonical form ([Qc], so that Leibniz equality is numeric equality): the
    rounding of [float32]/[float64] arithmetic is not modelled and the
    [astype(np.float32)] casts are identities.  The arrays of the selection
    policy have their own element type [fval], which adds the IEEE special
    values, and an arithmetic that is left abstract.  A Python exception is
    a [Raise].  Random draws (simulator samples, permutations, the uniform
    sample behind [np.random.choice]) and the calls of the collaborators
    that are not part of the package (the classifier, the ratio model, the
    acquisition function, the Gaussian process) are explicit arguments: a
    call returns a value or raises. *)

From Stdlib Require Import QArith Qcanon.
From stdpp Require Import base decidable option list numbers gmap.

Local Open Scope Qc_scope.

(** ** Exceptions *)

Inductive exn : Set :=
  | ValueError
  | IndexError
  | TypeError
  | AssertionError
  | AxisError.

Global Instance exn_eq_dec : EqDecision exn.
Proof. solve_decision. Defined.

Inductive result (A : Type) : Type :=
  | Ok (a : A)
  | Raise (e : exn).
Global Arguments Ok {A} a.
Global Arguments Raise {A} e.

(** Sequencing: an exception aborts what follows. *)
Definition rbind {A B} (m : result A) (k : A → result B) : result B :=
  match m with Ok a => k a | Raise e => Raise e end.

Notation "'let!' x ':=' m 'in' k" := (rbind m (λ x, k))
  (at level 10, x binder, m at level 100, k at level 200,
   format "'[v' 'let!'  x  ':='  m  'in' '/' k ']'").

Fixpoint mapR {A B} (f : A → result B) (l : list A) : result (list B) :=
  match l with
  | [] => Ok []
  | a :: l' => let! b := f a in let! k := mapR f l' in Ok (b :: k)
  end.

(** [or_raise e o]: the value of a partial operation, raising [e] where
    Python raises. *)
Definition or_raise {A} (e : exn) (o : option A) : result A :=
  match o with Some a => Ok a | None => Raise e end.

(** ** The NumPy and itertools primitives the package calls *)

Module Np.

Definition Qc_of_nat (n : nat) : Qc := Qc_of_Z (Z.of_nat n).

(** [np.linspace(start, stop, num)] with [endpoint=True], following
    NumPy's [function_base.linspace]: [arange(num) * step + start] with
    [step = (stop - start) / (num - 1)], and the last sample overwritten by
    [stop]. *)
Definition linspace (start stop : Qc) (num : Z) : result (list Qc) :=
  if decide (num < 0)%Z then Raise ValueError else
  let n := Z.to_nat num in
  let div := pred n in
  let delta := stop - start in
  let y := Qc_of_nat <$> seq 0 n in
  let y :=
    if decide (0 < div)%nat then
      let step := delta / Qc_of_nat div in
      if decide (step = 0)
      then (λ v, v / Qc_of_nat div * delta) <$> y
      else (λ v, v * step) <$> y
    else (λ v, v * delta) <$> y in
  let y := (λ v, v + start) <$> y in
  Ok (if decide (1 < n)%nat then <[pred n := stop]> y else y).

(** [itertools.product] of the lists [ls]: nested loops, the rightmost
    list advancing on every iteration. *)
Fixpoint product {A} (ls : list (list A)) : list (list A) :=
  match ls with
  | [] => [[]]
  | l :: ls' => x ← l; (x ::.) <$> product ls'
  end.

(** Number of elements of an array of the given shape. *)
Definition size (shape : list nat) : nat := foldr Nat.mul 1%nat shape.

(** [np.ravel_multi_index(idx, shape)] in C (row-major) order. *)
Fixpoint ravel_multi_index (idx shape : list nat) : nat :=
  match idx, shape with
  | i :: idx', _ :: shape' => i * size shape' + ravel_multi_index idx' shape'
  | _, _ => 0
  end.

(** [a[p]] for an integer index array [p] (fancy indexing along axis 0). *)
Definition take {A} (a : list A) (p : list nat) : result (list A) :=
  mapR (λ i, or_raise IndexError (a !! i)) p.

End Np.

(** ** dataset.py: parameter iterators *)

(** A parameter vector: a one-dimensional array. *)
Abbreviation Theta := (list Qc).

(** [ParamIterator]: [values] is the list of parameter vectors. *)
Record ParamIterator := { values : list Theta }.

(** [ParamIterator.__len__] and [__getitem__]. *)
Definition ParamIterator_len (it : ParamIterator) : nat := length (values it).
Definition ParamIterator_getitem (it : ParamIterator) (i : nat) : result Theta :=
  or_raise IndexError (values it !! i).

(** [SingleParamIterator(theta, n_samples)] for an array [theta]. *)
Definition SingleParamIterator (theta : Theta) (n_samples : nat) : ParamIterator :=
  {| values := replicate n_samples theta |}.

(** [ParamGrid]: a [ParamIterator] that also keeps the per-dimension
    linear spaces. *)
Record ParamGrid := {
  iterator :> ParamIterator;
  linspaces : list (list Qc);
}.

(** [ParamGrid.__init__(bounds, num)]; [num] is one shared count ([inl]) or
    a sequence of per-dimension counts ([inr]). *)
Definition ParamGrid_init (bounds : list (Qc * Qc)) (num : Z + list Z)
    : result ParamGrid :=
  let num := match num with
             | inl n => replicate (length bounds) n
             | inr ns => ns
             end in
  let! ls := mapR (λ ib : nat * (Qc * Qc),
               let! n := or_raise IndexError (num !! ib.1) in
               Np.linspace ib.2.1 ib.2.2 n)
            (imap pair bounds) in
  Ok {| iterator := {| values := Np.product ls |}; linspaces := ls |}.

(** Modelled from the spec: the [array] property of [ParamIterator] is
    missing from [dataset.py], whose classes define [values], [linspaces]
    and [meshgrid] only, while the learner and [param_scan] read
    [param_grid.array].  A parameter iterator is an ordered sequence of
    fixed-width parameter vectors (§3), which the learner indexes by grid
    position and by the trialed mask and hands to the surrogate as the set
    of all grid points (§4.4): the array has one row per grid point, in
    grid order, and one column per dimension of the grid. *)
Definition ParamGrid_array (g : ParamGrid) : list Theta := values g.

(** The number of columns of that array: the number of dimensions. *)
Definition ParamGrid_ndim (g : ParamGrid) : nat := length (linspaces g).

(** An N-dimensional array: its shape and its entries in C order. *)
Record ndarray := { shape : list nat; flat : list Qc }.

(** The coordinates that the arrays of [np.meshgrid] on the linear spaces hold at
    each index of their common shape, listed in C order of that shape.  With
    the Cartesian indexing the index [(i2, i1, i3, ...)] holds the [i1]-th
    point of the first linear space, the [i2]-th of the second, the [i3]-th
    of the third and so on. *)
Definition meshgrid_points {A} (ls : list (list A)) : list (list A) :=
  match ls with
  | l1 :: l2 :: ls' =>
      c2 ← l2; c1 ← l1; (λ rest, c1 :: c2 :: rest) <$> Np.product ls'
  | _ => Np.product ls
  end.

(** [ParamGrid.meshgrid()] without keyword arguments: one coordinate array
    per dimension. *)
Definition ParamGrid_meshgrid (g : ParamGrid) : list ndarray :=
  (λ k : nat,
     {| shape := match length <$> linspaces g with
                 | n1 :: n2 :: ns => n2 :: n1 :: ns
                 | sh => sh
                 end;
        flat := (λ point : Theta, default 0 (point !! k))
                  <$> meshgrid_points (linspaces g) |})
  <$> seq 0 (length (linspaces g)).

(** [ParamGrid.meshgrid()[0].shape]: the shape of the first of these
    arrays.  By NumPy's default Cartesian ([indexing='xy']) convention the
    first two axes are swapped.  Without any dimension [meshgrid()] is the
    empty list and [[0]] fails. *)
Definition ParamGrid_meshgrid0_shape (g : ParamGrid) : result (list nat) :=
  let! m := or_raise IndexError (ParamGrid_meshgrid g !! 0%nat) in
  Ok (shape m).

(** ** util.py: array helpers

    [util.py] is not among the sources; the helpers are reconstructed from
    their call sites and from the specification. *)

Module Util.

(** Modelled from the spec: [util.ensure_2d] is missing.  Features are
    two-dimensional (examples × feature-dim, §3), and on a two-dimensional
    array the helper is the identity. *)
Definition ensure_2d {A} (x : list (list A)) : list (list A) := x.

(** Modelled from the spec: [util.stack_repeat] is missing.  The
    parameter is broadcast per example (§3): [reps] copies of the vector
    stacked along axis 0. *)
Definition stack_repeat {A} (theta : list A) (reps : nat) : list (list A) :=
  replicate reps theta.

(** Modelled from the spec: [util.tile_reshape] is missing.  In
    [param_scan] it pairs one grid parameter with every observed example
    (§4.5): [reps] rows, each the vector [theta]. *)
Definition tile_reshape {A} (theta : list A) (reps : nat) : list (list A) :=
  replicate reps theta.

(** Modelled from the spec: [util.concat_repeat] is missing.  It is the
    concatenation along axis 0 of [reps] copies of the array: in
    [param_scan] the observed examples are repeated once per grid parameter
    so that every parameter is summed over all observed examples (§4.5). *)
Definition concat_repeat {A} (a : list A) (reps : nat) : list A :=
  mjoin (replicate reps a).

End Util.

(** ** Array slices *)

(** [a[start:stop]] along axis 0; the bounds are clipped to the array. *)
Definition slice {A} (start stop : nat) (a : list A) : list A :=
  take (stop - start) (drop start a).

(** The value [v] broadcast to [m] entries along axis 0: it has [m]
    entries, or one entry that is repeated. *)
Definition broadcast_to {A} (m : nat) (v : list A) : result (list A) :=
  if decide (length v = m) then Ok v else
  match v with
  | [r] => Ok (replicate m r)
  | _ => Raise ValueError
  end.

(** [a[start:stop] = v]. *)
Definition assign_slice {A} (start stop : nat) (v : list A) (a : list A)
    : result (list A) :=
  let! v' := broadcast_to (length (slice start stop a)) v in
  Ok (list_inserts start v' a).

(** [a[start:stop, :] = v] for two-dimensional [a] and [v].  The value is
    broadcast to the shape of the slice: along axis 1 every row of [v] has
    the width of [a], or one entry that is repeated; along axis 0 as in
    [assign_slice].  The width of [a] is read off its first row (the rows
    of an array have one width); an array without rows records no width, and
    nothing is compared then. *)
Definition assign_rows {A} (start stop : nat) (v : list (list A))
    (a : list (list A)) : result (list (list A)) :=
  let! v := match head a with
            | Some r => mapR (broadcast_to (length r)) v
            | None => Ok v
            end in
  assign_slice start stop v a.

(** ** dataset.py: [RatioDataset] *)

(** A row of features. *)
Abbreviation Row := (list Qc).

Record RatioDataset := {
  x : list Row;
  theta_0s : list Theta;
  theta_1s : list Theta;
  y : option (list Qc);
  nllr : option (list Qc);
}.

(** [RatioDataset.shuffle()]; [p] is the value of
    [np.random.permutation(len(self.x))].  The [TypeError] of indexing an
    absent ([None]) array is caught: the array stays absent. *)
Definition RatioDataset_shuffle (p : list nat) (ds : RatioDataset)
    : result RatioDataset :=
  let! x' := Np.take (x ds) p in
  let! theta_0s' := Np.take (theta_0s ds) p in
  let! theta_1s' := Np.take (theta_1s ds) p in
  let! y' := match y ds with
       | Some arr => let! arr' := Np.take arr p in Ok (Some arr')
       | None => Ok None
       end in
  let! nllr' := match nllr ds with
          | Some arr => let! arr' := Np.take arr p in Ok (Some arr')
          | None => Ok None
          end in
  Ok {| x := x'; theta_0s := theta_0s'; theta_1s := theta_1s';
        y := y'; nllr := nllr' |}.

(** The lengths [map(len, arrs)] that [RatioDataset.__init__] compares. *)
Definition RatioDataset_lens (x : list Row) (theta_0s theta_1s : list Theta)
    (y nllr : option (list Qc)) : list nat :=
  [length x; length theta_0s; length theta_1s]
    ++ from_option (λ arr, [length arr]) [] y
    ++ from_option (λ arr, [length arr]) [] nllr.

(** [RatioDataset.__init__(x, theta_0s, theta_1s, y, nllr, shuffle)]; [p] is
    the permutation drawn when [shuffle] is set. *)
Definition RatioDataset_init (x : list Row) (theta_0s theta_1s : list Theta)
    (y nllr : option (list Qc)) (shuffle : bool) (p : list nat)
    : result RatioDataset :=
  let x := Util.ensure_2d x in
  let lens : gset nat := list_to_set (RatioDataset_lens x theta_0s theta_1s y nllr) in
  if decide (size lens ≠ 1%nat) then Raise ValueError else
  let self := {| x := x; theta_0s := theta_0s; theta_1s := theta_1s;
                 y := y; nllr := nllr |} in
  if shuffle then RatioDataset_shuffle p self else Ok self.

(** [RatioDataset.__len__]. *)
Definition RatioDataset_len (ds : RatioDataset) : nat := length (x ds).

(** Modelled from the spec: the growth operator behind [dataset += new_ds]
    is not among the sources.  Concatenating two datasets yields a dataset
    whose arrays are the elementwise concatenation of the operands' arrays
    (§4.2); an optional array is kept when both operands carry it. *)
Definition RatioDataset_concat (a b : RatioDataset) : RatioDataset :=
  {| x := x a ++ x b;
     theta_0s := theta_0s a ++ theta_0s b;
     theta_1s := theta_1s a ++ theta_1s b;
     y := ya ← y a; yb ← y b; Some (ya ++ yb);
     nllr := na ← nllr a; nb ← nllr b; Some (na ++ nb) |}.

(** The length invariant of a dataset. *)
Definition RatioDataset_wf (ds : RatioDataset) : Prop :=
  length (theta_0s ds) = length (x ds)
  ∧ length (theta_1s ds) = length (x ds)
  ∧ (∀ arr, y ds = Some arr → length arr = length (x ds))
  ∧ (∀ arr, nllr ds = Some arr → length arr = length (x ds)).

(** [a'] is [a[p]]: entry [j] of [a'] is entry [p[j]] of [a]. *)
Definition permuted_by {A} (p : list nat) (a a' : list A) : Prop :=
  Forall2 (λ i v, a !! i = Some v) p a'.

(** The examples of a dataset, one tuple per index: features, reference and
    alternate parameter, label and nllr where present. *)
Definition expand {A} (n : nat) (o : option (list A)) : list (option A) :=
  match o with
  | Some arr => Some <$> arr
  | None => replicate n None
  end.

Definition RatioDataset_examples (ds : RatioDataset)
    : list (Row * (Theta * (Theta * (option Qc * option Qc)))) :=
  let n := length (x ds) in
  zip (x ds) (zip (theta_0s ds) (zip (theta_1s ds)
    (zip (expand n (y ds)) (expand n (nllr ds))))).

(** The triples [(x_i, y_i, theta_1_i)]. *)
Definition RatioDataset_triples (ds : RatioDataset)
    : list (Row * option Qc * Theta) :=
  (λ e, (e.1, e.2.2.2.1, e.2.2.1)) <$> RatioDataset_examples ds.

(** ** dataset.py: [SinglyParameterizedRatioDataset] *)

(** The random draws one construction consumes. *)
Record Draws := {
  draw_x0 : list Row;         (* sim0.sample(n_samples_per_theta * len(iterator)) *)
  draw_x1 : nat → list Row;   (* sim1.sample(n_samples_per_theta) of iteration i *)
  draw_perm : list nat;       (* np.random.permutation in shuffle *)
}.

(** The arrays the construction loop fills. *)
Record Blocks := {
  b_x1 : list Row;
  b_theta_1s : list Theta;
  ll0_x0 : list Qc;
  ll0_x1 : list Qc;
  ll1_x0 : list Qc;
  ll1_x1 : list Qc;
}.

Section Simulator.

(** [build_simulator(simulator_func, theta).log_prob]: the log-density
    of one example under the simulator at [theta]. *)
Variable log_prob : Theta → Row → Qc.

(** One iteration of the loop over [enumerate(theta_1_iterator)]; [x_i]
    is the fresh sample [sim1.sample(n_samples_per_theta)].  The listing
    assigns [ll0_x0] twice and [ll1_x1] twice; [ll0_x1] and [ll1_x0] are
    never assigned. *)
Definition init_body (theta_0 : Theta) (x0 : list Row) (n : nat)
    (include_nllr : bool) (i : nat) (theta_1 : Theta) (x_i : list Row)
    (st : Blocks) : result Blocks :=
  let start := (i * n)%nat in
  let stop := ((i + 1) * n)%nat in
  let! x1 := assign_rows start stop (Util.ensure_2d x_i) (b_x1 st) in
  let! row := broadcast_to (length theta_0) theta_1 in
  let! th := assign_slice start stop [row] (b_theta_1s st) in
  if include_nllr then
    let! a := assign_slice start stop (log_prob theta_0 <$> slice start stop x0) (ll0_x0 st) in
    let! a := assign_slice start stop (log_prob theta_0 <$> slice start stop x0) a in
    let! d := assign_slice start stop (log_prob theta_1 <$> slice start stop x1) (ll1_x1 st) in
    let! d := assign_slice start stop (log_prob theta_1 <$> slice start stop x1) d in
    Ok {| b_x1 := x1; b_theta_1s := th; ll0_x0 := a; ll0_x1 := ll0_x1 st;
          ll1_x0 := ll1_x0 st; ll1_x1 := d |}
  else
    Ok {| b_x1 := x1; b_theta_1s := th; ll0_x0 := ll0_x0 st;
          ll0_x1 := ll0_x1 st; ll1_x0 := ll1_x0 st; ll1_x1 := ll1_x1 st |}.

(** The loop, from iteration [i] on. *)
Fixpoint init_loop (theta_0 : Theta) (x0 : list Row) (n : nat)
    (include_nllr : bool) (samples : nat → list Row) (i : nat)
    (thetas : list Theta) (st : Blocks) : result Blocks :=
  match thetas with
  | [] => Ok st
  | theta_1 :: thetas' =>
      let! st' := init_body theta_0 x0 n include_nllr i theta_1 (samples i) st in
      init_loop theta_0 x0 n include_nllr samples (S i) thetas' st'
  end.

(** [SinglyParameterizedRatioDataset.__init__]. *)
Definition SinglyParameterizedRatioDataset_init (theta_0 : Theta)
    (theta_1_iterator : ParamIterator) (n_samples_per_theta : nat)
    (shuffle include_nllr : bool) (d : Draws) : result RatioDataset :=
  let x0 := Util.ensure_2d (draw_x0 d) in
  let y0 := replicate (length x0) (0 : Qc) in
  let x1 := (λ r : Row, replicate (length r) (0 : Qc)) <$> x0 in
  let theta_1s := replicate (length x1) (replicate (length theta_0) (0 : Qc)) in
  let! st := init_loop theta_0 x0 n_samples_per_theta include_nllr (draw_x1 d) 0
         (values theta_1_iterator)
         {| b_x1 := x1; b_theta_1s := theta_1s;
            ll0_x0 := y0; ll0_x1 := y0; ll1_x0 := y0; ll1_x1 := y0 |} in
  let y1 := replicate (length y0) (1 : Qc) in
  let x := x0 ++ b_x1 st in
  let y := y0 ++ y1 in
  let theta_0s := Util.stack_repeat theta_0 (length x) in
  let theta_1s := Util.concat_repeat (b_theta_1s st) 2 in
  let nllr :=
    if include_nllr then
      let ll0 := ll0_x0 st ++ ll0_x1 st in
      let ll1 := ll1_x0 st ++ ll1_x1 st in
      Some (zip_with (λ l1 l0, - (l1 - l0)) ll1 ll0)
    else None in
  RatioDataset_init x theta_0s theta_1s (Some y) nllr shuffle (draw_perm d).

(** What the specification asks of the nllr of an example [e] with
    alternate parameter [theta_1]: [-(log p1(e) - log p0(e))]. *)
Definition nllr_spec (theta_0 theta_1 : Theta) (e : Row) : Qc :=
  - (log_prob theta_1 e - log_prob theta_0 e).

End Simulator.

(** ** model/ratio_model.py *)

(** [build_singly_parameterized_input(x, theta_1s)]: the two arrays
    concatenated along the feature axis. *)
Definition build_singly_parameterized_input (x : list Row) (theta_1s : list Theta)
    : result (list Row) :=
  if decide (length (Util.ensure_2d x) = length (Util.ensure_2d theta_1s))
  then Ok (zip_with app (Util.ensure_2d x) (Util.ensure_2d theta_1s))
  else Raise ValueError.

(** [a.reshape(shape)]. *)
Definition reshape (a : list Qc) (shape : list nat) : result ndarray :=
  if decide (Np.size shape = length a)
  then Ok {| shape := shape; flat := a |}
  else Raise ValueError.

(** [np.argmin]: the first index of the minimum. *)
Fixpoint argmin_from (mp : Qc) (idx i : nat) (a : list Qc) : nat :=
  match a with
  | [] => idx
  | v :: a' =>
      if decide (v < mp) then argmin_from v i (S i) a'
      else argmin_from mp idx (S i) a'
  end.

Definition argmin (a : list Qc) : result nat :=
  match a with
  | [] => Raise ValueError
  | v :: a' => Ok (argmin_from v 0 1 a')
  end.

(** [np.array_split(a, k)]: [k] groups, the first [len(a) mod k] of them
    one longer. *)
Fixpoint split_sizes {A} (sizes : list nat) (a : list A) : list (list A) :=
  match sizes with
  | [] => []
  | s :: sizes' => take s a :: split_sizes sizes' (drop s a)
  end.

Definition array_split {A} (a : list A) (k : Z) : result (list (list A)) :=
  if decide (k ≤ 0)%Z then Raise ValueError else
  let k := Z.to_nat k in
  let each := (length a / k)%nat in
  let extras := (length a `mod` k)%nat in
  Ok (split_sizes (replicate extras (S each) ++ replicate (k - extras) each) a).

(** [np.split(a, k)]: [k] groups of equal length. *)
Definition split {A} (a : list A) (k : nat) : result (list (list A)) :=
  if decide (k = 0%nat) then Raise ValueError else
  if decide (length a `mod` k ≠ 0)%nat then Raise ValueError else
  Ok (split_sizes (replicate k (length a / k)%nat) a).

(** [np.concatenate] of a list of arrays along axis 0. *)
Definition concatenate {A} (arrs : list (list A)) : result (list A) :=
  match arrs with
  | [] => Raise ValueError
  | _ => Ok (mjoin arrs)
  end.

(** [a.sum()] of a one-dimensional array. *)
Definition sum (a : list Qc) : Qc := foldr Qcplus 0 a.

(** [a.reshape(n1, n2, ...).swapaxes(0, 1)] in C order, for an array [a] of
    [n1 * n2 * r] entries, [r] of them per pair of leading indices: the
    entries at [(i2, i1)] of the result are those at [(i1, i2)] of [a]. *)
Definition swapaxes01 {A} (n1 n2 r : nat) (a : list A) : list A :=
  i2 ← seq 0 n2; i1 ← seq 0 n1;
  slice ((i1 * n2 + i2) * r) ((i1 * n2 + i2) * r + r) a.

Section RatioModel.

(** The fitted classifier: [clf.predict_proba(X)[:, 1]], which receives the
    whole array [X] of joint inputs and answers with an array of
    probabilities, or fails.  The classifier is not part of the package. *)
Variable predict_proba : list Row → result (list Qc).

(** [util.estimated_likelihood_ratio] and
    [util.estimated_log_likelihood_ratio], which receive the whole array of
    probabilities.  The helpers are not among the sources and the logarithm
    is not rational, so both are parameters. *)
Variable estimated_likelihood_ratio : list Qc → list Qc.
Variable estimated_log_likelihood_ratio : list Qc → list Qc.

(** [BaseRatioModel._predict]. *)
Definition _predict (X : list Row) (log : bool) : result (list Qc) :=
  let! y_prob := predict_proba X in
  if log then Ok (estimated_log_likelihood_ratio y_prob)
  else Ok (estimated_likelihood_ratio y_prob).

(** [SinglyParameterizedRatioModel.predict]. *)
Definition predict (X : list Row) (theta_1s : list Theta) (log : bool)
    : result (list Qc) :=
  let! model_input := build_singly_parameterized_input X theta_1s in
  _predict model_input log.

(** The body of the loop of [param_scan] over the groups of parameters. *)
Definition param_scan_group (X_true : list Row) (theta_group : list Theta)
    : result (list Qc) :=
  let! theta_1s := concatenate
    ((λ theta, Util.tile_reshape theta (length X_true)) <$> theta_group) in
  let _X := Util.concat_repeat X_true (length theta_group) in
  let! logr := predict _X theta_1s true in
  let! groups := split (Qcopp <$> logr) (length theta_group) in
  Ok (sum <$> groups).

Fixpoint param_scan_loop (X_true : list Row) (theta_groups : list (list Theta))
    (nllr : list Qc) : result (list Qc) :=
  match theta_groups with
  | [] => Ok nllr
  | theta_group :: rest =>
      let! nllr_pred := param_scan_group X_true theta_group in
      param_scan_loop X_true rest (nllr ++ nllr_pred)
  end.

(** Modelled from the spec: [util.outer_prod_shape_to_meshgrid_shape] is
    missing.  The flat per-grid-point profile, in grid order (the outer
    product of the linear spaces, last dimension fastest-varying, §3), is
    reshaped to exactly the shape of the grid's mesh-grid representation,
    preserving the axis ordering used to build the grid (§4.5), so that it
    can be read against the coordinate grids of [meshgrid()] (§4.1): the
    entry of a grid point sits where those grids hold its coordinates.  The
    mesh grid of a grid with [n1, n2, ...] points per dimension has the
    shape [(n2, n1, ...)] and holds at [(i2, i1, ...)] the coordinates of
    the grid point [(i1, i2, ...)]: the profile is laid out in the
    outer-product shape [(n1, n2, ...)] and its first two axes are
    swapped.  With one dimension the two shapes are the same.  A profile of
    another size fits neither shape.  The second argument stands for
    [meshgrid[0]], of which only the shape is read. *)
Definition outer_prod_shape_to_meshgrid_shape (arr : list Qc)
    (meshgrid0_shape : list nat) : result ndarray :=
  match meshgrid0_shape with
  | n2 :: n1 :: ns =>
      let! a := reshape arr (n1 :: n2 :: ns) in
      Ok {| shape := n2 :: n1 :: ns;
            flat := swapaxes01 n1 n2 (Np.size ns) (flat a) |}
  | _ => reshape arr meshgrid0_shape
  end.

(** [_to_meshgrid_shape]. *)
Definition _to_meshgrid_shape (arr : list Qc) (param_grid : ParamGrid)
    : result ndarray :=
  let! sh := ParamGrid_meshgrid0_shape param_grid in
  outer_prod_shape_to_meshgrid_shape arr sh.

(** [param_scan(model, X_true, param_grid, theta_batch_size)]. *)
Definition param_scan (X_true : list Row) (param_grid : ParamGrid)
    (theta_batch_size : Z) : result (ndarray * Theta) :=
  let! theta_groups := array_split (ParamGrid_array param_grid) theta_batch_size in
  let! nllr := param_scan_loop X_true theta_groups [] in
  let! i := argmin nllr in
  let! mle := ParamIterator_getitem param_grid i in
  let! profile := _to_meshgrid_shape nllr param_grid in
  Ok (profile, mle).

End RatioModel.

(** A classifier that works row by row: the probability it gives a row is
    [proba] of that row, whatever the other rows of the array. *)
Definition row_wise (predict_proba : list Row → result (list Qc))
    (proba : Row → Qc) : Prop :=
  ∀ X : list Row, predict_proba X = Ok (proba <$> X).

(** A helper that works entry by entry (§4.3: the ratio of a probability
    [p] is [p / (1 - p)], or its logarithm). *)
Definition element_wise (helper : list Qc → list Qc) (f : Qc → Qc) : Prop :=
  ∀ a : list Qc, helper a = f <$> a.

(** The profile of the specification: for one grid parameter, the sum over
    all observed examples of the negative log predicted likelihood ratio,
    for a classifier that gives the row [r] the probability [proba r] and
    the log ratio [log_ratio p] of a probability [p]. *)
Definition nllr_of (proba : Row → Qc) (log_ratio : Qc → Qc) (X_true : list Row)
    (theta : Theta) : Qc :=
  sum ((λ e, - log_ratio (proba (e ++ theta))) <$> X_true).

(** ** active_learning/active_learner.py *)

(** *** Floating-point values with the IEEE specials

    The upper-confidence-bound array holds finite values and the
    [-np.inf] written over the trialed entries. *)
Inductive fval : Type :=
  | NaN
  | NegInf
  | Fin (q : Qc)
  | PosInf.

(** [a <= b]; a comparison with NaN is false. *)
Definition fle (a b : fval) : bool :=
  match a, b with
  | NaN, _ | _, NaN => false
  | NegInf, _ => true
  | _, PosInf => true
  | Fin p, Fin q => bool_decide (p ≤ q)
  | Fin _, NegInf | PosInf, NegInf | PosInf, Fin _ => false
  end.

Definition is_nan (a : fval) : bool :=
  match a with NaN => true | _ => false end.

(** [np.argmax], following NumPy's [argmax] loop: the running maximum is
    replaced when [not (v <= mp)]; a NaN is maximal and ends the scan. *)
Fixpoint argmax_from (mp : fval) (idx i : nat) (a : list fval) : nat :=
  match a with
  | [] => idx
  | v :: a' =>
      if fle v mp then argmax_from mp idx (S i) a'
      else if is_nan v then i
      else argmax_from v i (S i) a'
  end.

Definition argmax (a : list fval) : result nat :=
  match a with
  | [] => Raise ValueError
  | v :: a' => Ok (if is_nan v then 0%nat else argmax_from v 0 1 a')
  end.

(** [a[mask]] for a boolean mask. *)
Definition bool_index {A} (a : list A) (mask : list bool) : result (list A) :=
  if decide (length mask = length a)
  then Ok (zip a mask ≫= λ am : A * bool, if am.2 then [am.1] else [])
  else Raise IndexError.

(** [a[mask] = v] for a boolean mask and a scalar [v]. *)
Definition bool_assign {A} (mask : list bool) (v : A) (a : list A)
    : result (list A) :=
  if decide (length mask = length a)
  then Ok (zip_with (λ (b : bool) e, if b then v else e) mask a)
  else Raise IndexError.

(** *** The trialed mask (lines 53-54 of [ActiveLearner.__init__]) *)

(** [row == theta] on one grid row, with NumPy's broadcasting of a
    one-element operand; other width mismatches are rejected. *)
Definition eq_broadcast (row theta : Theta) : result (list bool) :=
  if decide (length row = length theta)
  then Ok (zip_with (λ a b, bool_decide (a = b)) row theta)
  else match theta, row with
       | [t], _ => Ok ((λ a, bool_decide (a = t)) <$> row)
       | _, [a] => Ok ((λ t, bool_decide (a = t)) <$> theta)
       | _, _ => Raise ValueError
       end.

(** [np.array(total_param_grid.values) == theta]. *)
Definition grid_eq (grid_values : list Theta) (theta : Theta)
    : result (list (list bool)) :=
  mapR (λ row, eq_broadcast row theta) grid_values.

(** The stacked comparisons [np.array([...])] must form a three-dimensional
    array for [.all(axis=2)]: without a sampled vector or without a grid
    point there is no axis 2, and rows of different widths do not stack. *)
Definition check_3d (cmp : list (list (list bool))) : result unit :=
  match cmp with
  | [] | [] :: _ => Raise AxisError
  | (r :: _) :: _ =>
      if decide (Forall (Forall (λ r' : list bool, length r' = length r)) cmp)
      then Ok tt else Raise ValueError
  end.

(** [.all(axis=2)], [.sum(axis=0)] and [.astype(bool)]. *)
Definition all_axis2 (cmp : list (list (list bool))) : list (list bool) :=
  fmap (M := list) (forallb id) <$> cmp.

Definition sum_axis0 (n : nat) (a : list (list bool)) : list nat :=
  foldr (zip_with Nat.add) (replicate n 0%nat) (fmap (M := list) Nat.b2n <$> a).

Definition astype_bool (a : list nat) : list bool :=
  (λ c, negb (c =? 0)%nat) <$> a.

(** [np.array([np.array(total_param_grid.values) == theta
               for theta in theta_1_iterator])
       .all(axis=2).sum(axis=0).astype(bool)]. *)
Definition trialed_mask_of (total_param_grid : ParamGrid)
    (theta_1_iterator : ParamIterator) : result (list bool) :=
  let grid_values := values total_param_grid in
  let! cmp := mapR (grid_eq grid_values) (values theta_1_iterator) in
  let! _ := check_3d cmp in
  Ok (astype_bool (sum_axis0 (length grid_values) (all_axis2 cmp))).

(** *** Floating-point arithmetic

    The sum and the product of two floating-point values, as the machine
    rounds them.  Nothing is assumed of the two operations: what is proved
    of the learner holds for the double-precision arithmetic of NumPy as
    for any other. *)
Class FloatArith := {
  fadd : fval → fval → fval;
  fmul : fval → fval → fval;
}.

(** [a + b] and the like on two one-dimensional arrays, with NumPy's
    broadcasting of a one-element operand. *)
Definition broadcast2 {A B C} (f : A → B → C) (a : list A) (b : list B)
    : result (list C) :=
  if decide (length a = length b) then Ok (zip_with f a b)
  else match a, b with
       | [u], _ => Ok (f u <$> b)
       | _, [v] => Ok ((λ u, f u v) <$> a)
       | _, _ => Raise ValueError
       end.

(** *** pandas

    A [pd.Series] of floating-point data over an index of parameters: the
    index entries with their data, in order. *)
Abbreviation Series := (list (Qc * fval)).

(** [pd.Index(a.squeeze(), name='theta')] for a two-dimensional array [a]
    of [ndim] columns.  [squeeze] drops the axes of length one.  With one
    row and one column nothing is left of the shape, and [pd.Index] refuses
    what is not a collection ([TypeError]).  With one row or one column
    (and not both) the result is one-dimensional and holds the entries of
    [a] in order.  Otherwise the result keeps two dimensions, which
    [pd.Index] refuses ([ValueError]). *)
Definition squeeze_index (a : list Theta) (ndim : nat) : result (list Qc) :=
  match decide (length a = 1%nat), decide (ndim = 1%nat) with
  | left _, left _ => Raise TypeError
  | right _, right _ => Raise ValueError
  | _, _ => Ok (mjoin a)
  end.

(** [pd.Series(index=index, data=data)] for a one-dimensional array
    [data]: the lengths must agree. *)
Definition pd_Series (index : list Qc) (data : list fval) : result Series :=
  if decide (length data = length index) then Ok (zip index data)
  else Raise ValueError.

(** *** The learner *)

(** [acquisition_function]: the string ['random'] or a scoring function. *)
Inductive acquisition : Set := Random | Scoring.

(** The diagnostics of the best training epoch. *)
Abbreviation TrainInfo := (list Qc).

(** An item of [acquisition_history]: a dictionary with the keys
    ['Training'] and ['Prediction'], and ['Validation'] in validation
    mode. *)
Record AcquisitionItem := {
  Training : Series;
  Prediction : Series;
  Validation : option Series;
}.

(** The state of the learner that the properties below are about.  The
    collaborators it holds ([simulator_func], [ratio_model], and the
    surrogate [gp], which every acquisition-guided selection builds anew)
    are reached through the oracle of a step and are not part of this
    record. *)
Record ActiveLearner := {
  theta_0 : Theta;
  n_samples_per_theta : nat;
  dataset : RatioDataset;
  param_grid : ParamGrid;
  _trialed_mask : list bool;
  test_dataset : bool;          (* whether a test dataset was supplied *)
  _train_history : list TrainInfo;
  _test_history : list Qc;
  acquisition_function : acquisition;
  ucb_kappa : fval;
  validation_mode : bool;
  gp_kwargs : bool;             (* whether gp_kwargs was supplied *)
  acquisition_history : list AcquisitionItem;
}.

(** What one call of [step] draws from its collaborators: the random
    number generator, the simulator, and the ratio model, the surrogate and
    the acquisition function, none of which is part of the package.  A
    call of a collaborator returns a value or raises. *)
Record Oracle := {
  (* the uniform sample of np.random.choice *)
  uniform : Qc;
  (* the construction of the GaussianProcessRegressor *)
  gp_new : result unit;
  (* self.calculate_marginalised_acquisition(self.dataset), lines 165-183:
     one utility per distinct theta_1 of the dataset, or the failure of the
     ratio model, of the acquisition function or of the assertion of
     line 181 *)
  marginalised_acquisition : result (list fval);
  (* self.gp.fit(self.trialed_thetas, U_theta_train) *)
  gp_fit : result unit;
  (* self.gp.predict(self.all_thetas, return_std=True) *)
  gp_predict : result (list fval * list fval);
  (* self.calculate_marginalised_acquisition(self.full_dataset) *)
  validation_acquisition : result (list fval);
  (* the simulator draws of the new fragment *)
  new_draws : Draws;
  (* np.random.permutation of dataset.shuffle() *)
  reshuffle : list nat;
  (* self.model_fit(): self.ratio_model.fit(self.dataset) *)
  model_fit : result unit;
  (* _get_best_epoch_information(self.ratio_model.keras_model_) *)
  training_info : result TrainInfo;
  (* the formatting of the diagnostics for the log, line 153 *)
  training_info_log : result unit;
  (* self.model_eval(), and the formatting of the error for the log *)
  mse : result Qc;
}.

(** Methods run on the learner object: they read and update its state and
    may raise; an update made before an exception stays. *)
Definition M (A : Type) : Type := ActiveLearner → ActiveLearner * result A.

Definition ret {A} (a : A) : M A := λ self, (self, Ok a).
Definition bind {A B} (m : M A) (k : A → M B) : M B := λ self,
  match m self with
  | (self', Ok a) => k a self'
  | (self', Raise e) => (self', Raise e)
  end.
Definition lift {A} (r : result A) : M A := λ self, (self, r).
Definition get : M ActiveLearner := λ self, (self, Ok self).
Definition put (self' : ActiveLearner) : M unit := λ _, (self', Ok tt).

Notation "'do!' x ':=' m 'in' k" := (bind m (λ x, k))
  (at level 10, x binder, m at level 100, k at level 200,
   format "'[v' 'do!'  x  ':='  m  'in' '/' k ']'").

Definition set_dataset (ds : RatioDataset) (self : ActiveLearner) :=
  {| theta_0 := theta_0 self; n_samples_per_theta := n_samples_per_theta self;
     dataset := ds; param_grid := param_grid self;
     _trialed_mask := _trialed_mask self; test_dataset := test_dataset self;
     _train_history := _train_history self; _test_history := _test_history self;
     acquisition_function := acquisition_function self;
     ucb_kappa := ucb_kappa self; validation_mode := validation_mode self;
     gp_kwargs := gp_kwargs self;
     acquisition_history := acquisition_history self |}.

Definition set_trialed_mask (mask : list bool) (self : ActiveLearner) :=
  {| theta_0 := theta_0 self; n_samples_per_theta := n_samples_per_theta self;
     dataset := dataset self; param_grid := param_grid self;
     _trialed_mask := mask; test_dataset := test_dataset self;
     _train_history := _train_history self; _test_history := _test_history self;
     acquisition_function := acquisition_function self;
     ucb_kappa := ucb_kappa self; validation_mode := validation_mode self;
     gp_kwargs := gp_kwargs self;
     acquisition_history := acquisition_history self |}.

Definition set_histories (train : list TrainInfo) (test : list Qc)
    (acq : list AcquisitionItem) (self : ActiveLearner) :=
  {| theta_0 := theta_0 self; n_samples_per_theta := n_samples_per_theta self;
     dataset := dataset self; param_grid := param_grid self;
     _trialed_mask := _trialed_mask self; test_dataset := test_dataset self;
     _train_history := train; _test_history := test;
     acquisition_function := acquisition_function self;
     ucb_kappa := ucb_kappa self; validation_mode := validation_mode self;
     gp_kwargs := gp_kwargs self;
     acquisition_history := acq |}.

(** [ActiveLearner.all_thetas], [trialed_thetas] and [remaining_thetas]. *)
Definition all_thetas (self : ActiveLearner) : list Theta :=
  ParamGrid_array (param_grid self).

Definition trialed_thetas (self : ActiveLearner) : result (list Theta) :=
  bool_index (ParamGrid_array (param_grid self)) (_trialed_mask self).

Definition remaining_thetas (self : ActiveLearner) : result (list Theta) :=
  bool_index (ParamGrid_array (param_grid self)) (negb <$> _trialed_mask self).

(** [np.cumsum]. *)
Fixpoint cumsum_from (acc : Qc) (a : list Qc) : list Qc :=
  match a with
  | [] => []
  | v :: a' => (acc + v) :: cumsum_from (acc + v) a'
  end.

(** [np.random.choice(np.arange(n), p=p)], following NumPy: the
    probabilities must match the population and add up to one; the index is
    [cdf.searchsorted(u, side='right')] for the uniform sample [u]. *)
Definition random_choice (n : nat) (p : list Qc) (u : Qc) : result nat :=
  if decide (n = 0%nat) then Raise ValueError else
  if decide (length p ≠ n) then Raise ValueError else
  if decide (Exists (λ v, v < 0) p) then Raise ValueError else
  if decide (sum p ≠ 1) then Raise ValueError else
  let cdf := cumsum_from 0 p in
  let idx := length (filter (λ c, c ≤ u) cdf) in
  if decide (idx < n)%nat then Ok idx else Raise IndexError.

Section Learner.

Context `{FloatArith}.
Variable log_prob : Theta → Row → Qc.

(** Modelled from the spec: the class method
    [SinglyParameterizedRatioDataset.from_simulator] is missing.  It is
    the single-reference-parameter construction of §4.2, which
    [dataset.py] implements in [__init__]; the learner calls it with the
    default arguments (shuffled, with density information). *)
Definition from_simulator (theta_0 : Theta) (theta_1_iterator : ParamIterator)
    (n_samples_per_theta : nat) (d : Draws) : result RatioDataset :=
  SinglyParameterizedRatioDataset_init log_prob theta_0 theta_1_iterator
    n_samples_per_theta true true d.

(** [ActiveLearner._gp]: without [gp_kwargs] the kernel is built from the
    extent [linspace[-1] - linspace[0]] of every linear space of the grid,
    which fails on an empty one; the kernel and the regressor are built by
    the surrogate library. *)
Definition _gp (o : Oracle) (self : ActiveLearner) : result unit :=
  if gp_kwargs self then gp_new o else
  let! length_scale :=
    mapR (λ linspace : list Qc,
            let! hi := or_raise IndexError (last linspace) in
            let! lo := or_raise IndexError (head linspace) in
            Ok (hi, lo))
         (linspaces (param_grid self)) in
  gp_new o.

(** [ActiveLearner._record_acq_history]. *)
Definition _record_acq_history (o : Oracle) (U_theta_pred U_theta_train : list fval)
    : M unit :=
  do! self := get in
  do! trialed := lift (trialed_thetas self) in
  do! index := lift (squeeze_index trialed (ParamGrid_ndim (param_grid self))) in
  do! training_info := lift (pd_Series index U_theta_train) in
  do! index := lift (squeeze_index (all_thetas self)
                       (ParamGrid_ndim (param_grid self))) in
  do! prediction_info := lift (pd_Series index U_theta_pred) in
  do! validation_info :=
    (if validation_mode self then
       do! U_theta_true := lift (validation_acquisition o) in
       do! index := lift (squeeze_index (all_thetas self)
                            (ParamGrid_ndim (param_grid self))) in
       do! validation_info := lift (pd_Series index U_theta_true) in
       ret (Some validation_info)
     else ret None) in
  put (set_histories (_train_history self) (_test_history self)
         (acquisition_history self
            ++ [{| Training := training_info; Prediction := prediction_info;
                   Validation := validation_info |}]) self).

(** [ActiveLearner.choose_next_theta_index]. *)
Definition choose_next_theta_index (o : Oracle) : M nat :=
  do! self := get in
  match acquisition_function self with
  | Random =>
      let choice_weights :=
        (λ b : bool, 1 - (if b then 1 else 0)) <$> _trialed_mask self in
      (* a zero sum makes every probability NaN, which choice rejects *)
      if decide (sum choice_weights = 0) then lift (Raise ValueError) else
      let choice_probs := (λ w, w / sum choice_weights) <$> choice_weights in
      lift (random_choice (length (all_thetas self)) choice_probs (uniform o))
  | Scoring =>
      do! _ := lift (_gp o self) in
      do! U_theta_train := lift (marginalised_acquisition o) in
      do! trialed := lift (trialed_thetas self) in
      do! _ := lift (gp_fit o) in
      do! '(U_theta_pred, std) := lift (gp_predict o) in
      do! ucb := lift (broadcast2 fadd U_theta_pred
                         (fmul (ucb_kappa self) <$> std)) in
      do! ucb := lift (bool_assign (_trialed_mask self) NegInf ucb) in
      do! next_theta_index := lift (argmax ucb) in
      do! _ := _record_acq_history o U_theta_pred U_theta_train in
      ret next_theta_index
  end.

(** [ActiveLearner.step]. *)
Definition step (o : Oracle) : M unit :=
  do! next_theta_index := choose_next_theta_index o in
  do! self := get in
  do! next_theta := lift (or_raise IndexError (all_thetas self !! next_theta_index)) in
  do! new_ds := lift (from_simulator (theta_0 self) (SingleParamIterator next_theta 1)
                        (n_samples_per_theta self) (new_draws o)) in
  (* self.dataset += new_ds; self.dataset.shuffle() *)
  do! _ := put (set_dataset (RatioDataset_concat (dataset self) new_ds) self) in
  do! self := get in
  do! ds := lift (RatioDataset_shuffle (reshuffle o) (dataset self)) in
  do! _ := put (set_dataset ds self) in
  (* self.model_fit() *)
  do! _ := lift (model_fit o) in
  (* training_info = _get_best_epoch_information(...); the append; the log *)
  do! training_info := lift (training_info o) in
  do! self := get in
  do! _ := put (set_histories (_train_history self ++ [training_info])
                  (_test_history self) (acquisition_history self) self) in
  do! _ := lift (training_info_log o) in
  do! self := get in
  do! _ := (if test_dataset self
            then do! mse := lift (mse o) in
                 put (set_histories (_train_history self)
                        (_test_history self ++ [mse])
                        (acquisition_history self) self)
            else ret tt) in
  (* assert self._trialed_mask[next_theta_index] == 0 *)
  do! self := get in
  do! trialed := lift (or_raise IndexError (_trialed_mask self !! next_theta_index)) in
  if trialed : bool then lift (Raise AssertionError) else
  (* self._trialed_mask[next_theta_index] = 1 *)
  put (set_trialed_mask (<[next_theta_index := true]> (_trialed_mask self)) self).

(** [ActiveLearner.fit(n_iter)], one oracle per iteration. *)
Fixpoint fit (os : list Oracle) : M unit :=
  match os with
  | [] => ret tt
  | o :: os' => do! _ := step o in fit os'
  end.

End Learner.

(** *** Notions used to state the properties of the learner *)

(** The number of trialed and of untrialed grid points. *)
Definition trialed_count (mask : list bool) : nat :=
  sum_list (Nat.b2n <$> mask).

Definition untrialed_count (mask : list bool) : nat :=
  sum_list (Nat.b2n ∘ negb <$> mask).

(** The learner after the dataset has grown by the fragment, been
    reshuffled to [ds], and the model has been refitted, with the
    diagnostics [info], and evaluated, with the error [m] if there is a
    test dataset. *)
Definition refitted (info : TrainInfo) (m : Qc) (ds : RatioDataset)
    (self : ActiveLearner) : ActiveLearner :=
  set_histories (_train_history self ++ [info])
    (_test_history self ++ (if test_dataset self then [m] else []))
    (acquisition_history self) (set_dataset ds self).

(** The index that the random policy draws, or its failure. *)
Definition random_index (o : Oracle) (self : ActiveLearner) : result nat :=
  let choice_weights :=
    (λ b : bool, 1 - (if b then 1 else 0)) <$> _trialed_mask self in
  if decide (sum choice_weights = 0) then Raise ValueError else
  random_choice (length (all_thetas self))
    ((λ w, w / sum choice_weights) <$> choice_weights) (uniform o).

(** The upper-confidence-bound array of the posterior means [U_theta_pred]
    and deviations [std], after the trialed entries are set to [-inf]. *)
Definition masked_ucb `{FloatArith} (self : ActiveLearner)
    (U_theta_pred std : list fval) : result (list fval) :=
  let! ucb := broadcast2 fadd U_theta_pred (fmul (ucb_kappa self) <$> std) in
  bool_assign (_trialed_mask self) NegInf ucb.

(** The item that [_record_acq_history] builds, or its failure. *)
Definition acquisition_item (o : Oracle) (self : ActiveLearner)
    (U_theta_pred U_theta_train : list fval) : result AcquisitionItem :=
  let ndim := ParamGrid_ndim (param_grid self) in
  let! trialed := trialed_thetas self in
  let! index := squeeze_index trialed ndim in
  let! training_info := pd_Series index U_theta_train in
  let! index := squeeze_index (all_thetas self) ndim in
  let! prediction_info := pd_Series index U_theta_pred in
  let! validation_info :=
    (if validation_mode self then
       let! U_theta_true := validation_acquisition o in
       let! index := squeeze_index (all_thetas self) ndim in
       let! validation_info := pd_Series index U_theta_true in
       Ok (Some validation_info)
     else Ok None) in
  Ok {| Training := training_info; Prediction := prediction_info;
        Validation := validation_info |}.

(** The learner after [_record_acq_history] has appended [item]. *)
Definition recorded (item : AcquisitionItem) (self : ActiveLearner)
    : ActiveLearner :=
  set_histories (_train_history self) (_test_history self)
    (acquisition_history self ++ [item]) self.

(** The acquisition-guided selection as one computation: the index of the
    arg-max and the item recorded, or the first failure. *)
Definition ucb_choice `{FloatArith} (o : Oracle) (self : ActiveLearner)
    : result (nat * AcquisitionItem) :=
  let! _ := _gp o self in
  let! U_theta_train := marginalised_acquisition o in
  let! _ := trialed_thetas self in
  let! _ := gp_fit o in
  let! U_theta_pred_std := gp_predict o in
  let! ucb := masked_ucb self U_theta_pred_std.1 U_theta_pred_std.2 in
  let! next_theta_index := argmax ucb in
  let! item := acquisition_item o self U_theta_pred_std.1 U_theta_train in
  Ok (next_theta_index, item).

(** The error of the evaluation on the test dataset, if there is one. *)
Definition evaluated (o : Oracle) (self : ActiveLearner) : result Qc :=
  if test_dataset self then mse o else Ok 0.

(** The item that an acquisition-guided step records with the collaborators
    [o]: the utilities of the trialed points in the training series, and the
    posterior means over the whole grid in the prediction series. *)
Definition records (self : ActiveLearner) (o : Oracle) (item : AcquisitionItem)
    : Prop :=
  ∃ U_theta_train U_theta_pred std,
    marginalised_acquisition o = Ok U_theta_train
    ∧ gp_predict o = Ok (U_theta_pred, std)
    ∧ (Training item).*2 = U_theta_train
    ∧ Prediction item = zip (mjoin (all_thetas self)) U_theta_pred
    ∧ (Prediction item).*2 = U_theta_pred.
(** ** Example data

    A one-dimensional simulator with log-density [-(x - theta)^2 / 2] (a
    unit-variance Gaussian up to a constant), the five-point grid on [0, 1],
    and learners on that grid. *)

Definition example_log_prob (theta : Theta) (e : Row) : Qc :=
  match theta, e with
  | [t], [v] => - ((v - t) * (v - t)) / Q2Qc 2
  | _, _ => 0
  end.

Definition example_grid : ParamGrid :=
  {| iterator := {| values := [[0]; [Q2Qc (1 # 4)]; [Q2Qc (1 # 2)];
                               [Q2Qc (3 # 4)]; [1]] |};
     linspaces := [[0; Q2Qc (1 # 4); Q2Qc (1 # 2); Q2Qc (3 # 4); 1]] |}.

Definition example_dataset : RatioDataset :=
  {| x := [[0]; [1]];
     theta_0s := [[0]; [0]];
     theta_1s := [[Q2Qc (1 # 2)]; [Q2Qc (1 # 2)]];
     y := Some [0; 1];
     nllr := Some [0; Q2Qc (-1 # 8)] |}.

(** A learner in the acquisition-guided mode that has trialed 0.5 only. *)
Definition example_learner : ActiveLearner :=
  {| theta_0 := [0];
     n_samples_per_theta := 1;
     dataset := example_dataset;
     param_grid := example_grid;
     _trialed_mask := [false; false; true; false; false];
     test_dataset := true;
     _train_history := [];
     _test_history := [];
     acquisition_function := Scoring;
     ucb_kappa := Fin 1;
     validation_mode := false;
     gp_kwargs := false;
     acquisition_history := [] |}.

(** The same learner in the random mode. *)
Definition example_random_learner : ActiveLearner :=
  {| theta_0 := [0];
     n_samples_per_theta := 1;
     dataset := example_dataset;
     param_grid := example_grid;
     _trialed_mask := [false; false; true; false; false];
     test_dataset := true;
     _train_history := [];
     _test_history := [];
     acquisition_function := Random;
     ucb_kappa := Fin 1;
     validation_mode := false;
     gp_kwargs := false;
     acquisition_history := [] |}.

(** A learner in the acquisition-guided mode that has trialed 0.25 and
    0.5. *)
Definition example_dataset_2 : RatioDataset :=
  {| x := [[0]; [0]; [1]; [1]];
     theta_0s := [[0]; [0]; [0]; [0]];
     theta_1s := [[Q2Qc (1 # 4)]; [Q2Qc (1 # 2)]; [Q2Qc (1 # 4)]; [Q2Qc (1 # 2)]];
     y := Some [0; 0; 1; 1];
     nllr := Some [0; 0; Q2Qc (-9 # 32); Q2Qc (-1 # 8)] |}.

Definition example_learner_2 : ActiveLearner :=
  {| theta_0 := [0];
     n_samples_per_theta := 1;
     dataset := example_dataset_2;
     param_grid := example_grid;
     _trialed_mask := [false; true; true; false; false];
     test_dataset := true;
     _train_history := [];
     _test_history := [];
     acquisition_function := Scoring;
     ucb_kappa := Fin 1;
     validation_mode := false;
     gp_kwargs := false;
     acquisition_history := [] |}.

(** An arithmetic without rounding, to run the examples. *)
Definition example_arith : FloatArith :=
  {| fadd := λ a b,
       match a, b with
       | NaN, _ | _, NaN => NaN
       | PosInf, NegInf | NegInf, PosInf => NaN
       | PosInf, _ | _, PosInf => PosInf
       | NegInf, _ | _, NegInf => NegInf
       | Fin p, Fin q => Fin (p + q)
       end;
     fmul := λ a b,
       let sign (v : fval) : Qc :=
         match v with
         | PosInf => 1 | NegInf => -1 | Fin q => q | NaN => 0
         end in
       match a, b with
       | NaN, _ | _, NaN => NaN
       | Fin p, Fin q => Fin (p * q)
       | _, _ =>
           if decide (sign a * sign b = 0) then NaN
           else if decide (0 < sign a * sign b) then PosInf else NegInf
       end |}.

(** The collaborators of one step: a surrogate with constant mean and
    deviation, one utility for the one trialed parameter, and the draws of
    one new fragment. *)
Definition example_oracle_1 : Oracle :=
  {| uniform := Q2Qc (1 # 2);
     gp_new := Ok tt;
     marginalised_acquisition := Ok [Fin 0];
     gp_fit := Ok tt;
     gp_predict := Ok (replicate 5 (Fin 0), replicate 5 (Fin 1));
     validation_acquisition := Ok [];
     new_draws := {| draw_x0 := [[Q2Qc 5]]; draw_x1 := λ _, [[Q2Qc 7]];
                     draw_perm := [1; 0]%nat |};
     reshuffle := [3; 2; 1; 0]%nat;
     model_fit := Ok tt;
     training_info := Ok [];
     training_info_log := Ok tt;
     mse := Ok 0 |}.

(** A surrogate whose mean grows with the parameter, and one utility for
    each of two trialed parameters. *)
Definition example_oracle_2 : Oracle :=
  {| uniform := Q2Qc (1 # 2);
     gp_new := Ok tt;
     marginalised_acquisition := Ok [Fin 0; Fin 0];
     gp_fit := Ok tt;
     gp_predict := Ok (Fin <$> [0; Q2Qc (1 # 4); Q2Qc (1 # 2); Q2Qc (3 # 4); 1],
                       replicate 5 (Fin 0));
     validation_acquisition := Ok [];
     new_draws := {| draw_x0 := [[Q2Qc 5]]; draw_x1 := λ _, [[Q2Qc 7]];
                     draw_perm := [1; 0]%nat |};
     reshuffle := [5; 4; 3; 2; 1; 0]%nat;
     model_fit := Ok tt;
     training_info := Ok [];
     training_info_log := Ok tt;
     mse := Ok 0 |}.

(** The draws of a construction with the single alternate parameter 1: the
    example 0 from the reference simulator and the example 2 from the
    alternate one. *)
Definition example_draws : Draws :=
  {| draw_x0 := [[0]]; draw_x1 := λ _, [[Q2Qc 2]]; draw_perm := [0; 1]%nat |}.





(** A learner in the acquisition-guided mode on the two-point grid on
    [0, 1], with both points trialed, and the collaborators of one step. *)
Definition example_exhausted_learner : ActiveLearner :=
  {| theta_0 := [0];
     n_samples_per_theta := 1;
     dataset := {| x := [[0]; [0]; [0]; [1]];
                   theta_0s := [[0]; [0]; [0]; [0]];
                   theta_1s := [[0]; [1]; [0]; [1]];
                   y := Some [0; 0; 1; 1];
                   nllr := Some [0; 0; 0; 0] |};
     param_grid := {| iterator := {| values := [[0]; [1]] |};
                      linspaces := [[0; 1]] |};
     _trialed_mask := [true; true];
     test_dataset := false;
     _train_history := [];
     _test_history := [];
     acquisition_function := Scoring;
     ucb_kappa := Fin 1;
     validation_mode := false;
     gp_kwargs := false;
     acquisition_history := [] |}.

Definition example_oracle_3 : Oracle :=
  {| uniform := Q2Qc (1 # 2);
     gp_new := Ok tt;
     marginalised_acquisition := Ok [Fin 0; Fin 0];
     gp_fit := Ok tt;
     gp_predict := Ok ([Fin 0; Fin 1], [Fin 0; Fin 0]);
     validation_acquisition := Ok [];
     new_draws := {| draw_x0 := [[Q2Qc 5]]; draw_x1 := λ _, [[Q2Qc 7]];
                     draw_perm := [1; 0]%nat |};
     reshuffle := [5; 4; 3; 2; 1; 0]%nat;
     model_fit := Ok tt;
     training_info := Ok [];
     training_info_log := Ok tt;
     mse := Ok 0 |}.
(** ** dataset.py: the counts of a grid *)

(** The per-dimension point counts that [ParamGrid.__init__] reads: a single
    integer stands for that count in every dimension. *)
Definition ParamGrid_counts (bounds : list (Qc * Qc)) (num : Z + list Z) : list Z :=
  match num with
  | inl n => replicate (length bounds) n
  | inr ns => ns
  end.

(** ** dataset.py: [UnparameterizedRatioDataset] and the model inputs *)

(** [build_unparameterized_input(x)]. *)
Definition build_unparameterized_input (x : list Row) : list Row :=
  Util.ensure_2d x.

(** [np.concatenate([a, b], axis=0)] of two two-dimensional arrays: the
    rows must have one width.  (The width of an array without rows is not
    represented.) *)
Definition concatenate_rows (a b : list Row) : result (list Row) :=
  match a ++ b with
  | [] => Ok []
  | r :: rs =>
      if decide (Forall (λ r' : Row, length r' = length r) rs)
      then Ok (r :: rs) else Raise ValueError
  end.

(** [UnparameterizedRatioDataset.__init__]; the draws are
    [sim0.sample(n_samples_per_theta)] ([draw_x0]),
    [sim1.sample(n_samples_per_theta)] ([draw_x1 0]) and the permutation of
    [shuffle]. *)
Definition UnparameterizedRatioDataset_init (theta_0 theta_1 : Theta)
    (shuffle : bool) (d : Draws) : result RatioDataset :=
  let x0 := draw_x0 d in
  let x1 := draw_x1 d 0 in
  let y0 := replicate (length x0) (0 : Qc) in
  let y1 := replicate (length y0) (1 : Qc) in
  let! x := concatenate_rows x0 x1 in
  let y := y0 ++ y1 in
  let theta_0s := Util.stack_repeat theta_0 (length x) in
  let theta_1s := Util.stack_repeat theta_1 (length x) in
  RatioDataset_init x theta_0s theta_1s (Some y) None shuffle (draw_perm d).

(** [UnparameterizedRatioDataset.build_input] and
    [SinglyParameterizedRatioDataset.build_input]. *)
Definition UnparameterizedRatioDataset_build_input (ds : RatioDataset)
    : list Row :=
  build_unparameterized_input (x ds).

Definition SinglyParameterizedRatioDataset_build_input (ds : RatioDataset)
    : result (list Row) :=
  build_singly_parameterized_input (x ds) (theta_1s ds).

(** ** active_learning/active_learner.py: views of the learner *)

(** The entries of [a] that a boolean mask selects, in order: the value of
    [bool_index] on arrays of one length. *)
Definition selected {A} (a : list A) (mask : list bool) : list A :=
  zip a mask ≫= λ am : A * bool, if am.2 then [am.1] else [].

(** ** model/ratio_model.py: [exact_param_scan] *)





(** * Properties *)

(** ** The exception monad *)

Lemma rbind_Ok {A B} (m : result A) (k : A → result B) (b : B) :
  rbind m k = Ok b ↔ ∃ a, m = Ok a ∧ k a = Ok b.
Proof.
  destruct m as [a|e]; simpl; split.
  - intros H. by exists a.
  - by intros (a' & [= <-] & H).
  - intros [=].
  - by intros (a' & [=] & _).
Qed.

Lemma mapR_Ok {A B} (f : A → result B) (l : list A) (k : list B) :
  mapR f l = Ok k ↔ Forall2 (λ a b, f a = Ok b) l k.
Proof.
  revert k. induction l as [|a l IH]; intros k; simpl.
  - split; [intros [= <-]; constructor | by intros ->%Forall2_nil_inv_l].
  - rewrite rbind_Ok. split.
    + intros (b & Hb & (k' & Hk' & [= <-])%rbind_Ok).
      constructor; [done | by apply IH].
    + intros (b & k' & Hb & Hk' & ->)%Forall2_cons_inv_l.
      exists b. split; [done|]. apply rbind_Ok. exists k'. by rewrite IH.
Qed.

Lemma mapR_length {A B} (f : A → result B) (l : list A) (k : list B) :
  mapR f l = Ok k → length k = length l.
Proof. rewrite mapR_Ok. intros H. symmetry. by eapply Forall2_length. Qed.

(** Inversion of a successful sequence of binds in a hypothesis. *)
Ltac inv_ok H :=
  repeat match type of H with
  | rbind _ _ = Ok _ =>
      let a := fresh "a" in let Ha := fresh "H" a in
      apply rbind_Ok in H as (a & Ha & H)
  | Ok _ = Ok _ => injection H as H
  | Raise _ = Ok _ => discriminate H
  | (if ?c then _ else _) = Ok _ => destruct c eqn:?
  end.

(** Two numbers in canonical form are equal if they evaluate alike. *)
Ltac qc_eq := repeat f_equal; apply Qc_is_canon; reflexivity.

(** ** C9: the enumeration of a parameter grid *)

(** In a concatenation of blocks of one length [n], entry [i * n + j] is
    entry [j] of block [i]. *)
Lemma lookup_bind_block {A B} (f : B → list A) (bs : list B) n i j b :
  (∀ b', b' ∈ bs → length (f b') = n) →
  bs !! i = Some b → (j < n)%nat →
  (bs ≫= f) !! (i * n + j)%nat = f b !! j.
Proof.
  revert i. induction bs as [|b0 bs IH]; intros i Hlen Hi Hj; [done|].
  rewrite bind_cons. destruct i as [|i]; simpl in *.
  - injection Hi as ->. apply lookup_app_l. rewrite Hlen; [done | left].
  - rewrite lookup_app_r; rewrite (Hlen b0) by left; [|lia].
    replace (n + i * n + j - n)%nat with (i * n + j)%nat by lia.
    apply IH; [|done..]. intros b' Hb'. apply Hlen. by right.
Qed.

Section Product.
Context {A : Type}.
Implicit Types (l : list A) (ls : list (list A)).

Lemma product_length ls : length (Np.product ls) = Np.size (length <$> ls).
Proof.
  induction ls as [|l ls IH]; [done|].
  cbn [Np.product]. rewrite fmap_cons. unfold Np.size in *. cbn [foldr].
  rewrite <- IH. clear IH. induction l as [|a l IHl]; [done|].
  rewrite bind_cons, length_app, length_fmap, IHl. simpl. lia.
Qed.

(** The first list is the outermost loop: the point picked by the indices
    [idx] sits at the row-major position of [idx]. *)
Lemma product_lookup ls idx v :
  Forall3 (λ i l a, l !! i = Some a) idx ls v →
  Np.product ls !! Np.ravel_multi_index idx (length <$> ls) = Some v.
Proof.
  induction 1 as [|i l a idx ls v Hi _ IH]; [done|].
  cbn [Np.product Np.ravel_multi_index]. rewrite fmap_cons.
  erewrite (lookup_bind_block _ l (Np.size (length <$> ls)) i _ a); [| |done|].
  - by rewrite list_lookup_fmap, IH.
  - intros b' _. by rewrite length_fmap, product_length.
  - rewrite <- product_length. by eapply lookup_lt_Some.
Qed.
End Product.

Lemma linspace_length start stop num l :
  Np.linspace start stop num = Ok l → length l = Z.to_nat num.
Proof.
  unfold Np.linspace. intros H.
  repeat case_decide; simplify_eq;
    rewrite ?length_insert, !length_fmap, length_seq; done.
Qed.

Lemma ParamGrid_init_Ok bounds num g :
  ParamGrid_init bounds num = Ok g →
  values g = Np.product (linspaces g) ∧
  Forall2 (λ (ib : nat * (Qc * Qc)) l,
             ∃ n, match num with
                  | inl n' => replicate (length bounds) n'
                  | inr ns => ns
                  end !! ib.1 = Some n
                  ∧ Np.linspace ib.2.1 ib.2.2 n = Ok l)
          (imap pair bounds) (linspaces g).
Proof.
  unfold ParamGrid_init. intros H. inv_ok H. subst g. simpl.
  split; [done|]. apply mapR_Ok in Ha.
  eapply Forall2_impl; [exact Ha|]. simpl. intros ib l Hl. inv_ok Hl.
  exists a0. split; [|done].
  revert Ha0. unfold or_raise. by destruct (_ !! ib.1); intros [= ->].
Qed.

(** C9.  [ParamGrid(bounds=[(0,1)], num=5)] enumerates the five parameter
    values 0, 0.25, 0.5, 0.75, 1 in that order.  In general a grid is built
    from one linear space per dimension ([np.linspace] on that dimension's
    bounds and point count), its values are the Cartesian product of these
    spaces, and the product is enumerated with the first dimension outermost:
    the point with per-dimension indices [idx] is at the row-major position
    of [idx], in which the last index varies fastest. *)
Theorem ParamGrid_enumeration :
  (∃ g, ParamGrid_init [(0, 1)] (inl 5%Z) = Ok g
        ∧ values g = [[0]; [Q2Qc (1 # 4)]; [Q2Qc (1 # 2)]; [Q2Qc (3 # 4)]; [1]])
  ∧ (∀ bounds num g, ParamGrid_init bounds num = Ok g →
       length (linspaces g) = length bounds
       ∧ (∀ i lo hi, bounds !! i = Some (lo, hi) →
            ∃ n l, match num with inl n' => Some n' | inr ns => ns !! i end = Some n
                   ∧ Np.linspace lo hi n = Ok l
                   ∧ linspaces g !! i = Some l)
       ∧ values g = Np.product (linspaces g)
       ∧ length (values g) = Np.size (length <$> linspaces g)
       ∧ (∀ idx v, Forall3 (λ i l a, l !! i = Some a) idx (linspaces g) v →
            values g !! Np.ravel_multi_index idx (length <$> linspaces g) = Some v)).
Proof.
  split.
  - eexists. split; [vm_compute; reflexivity|]. simpl. qc_eq.
  - intros bounds num g [Hv Hl]%ParamGrid_init_Ok.
    assert (length (linspaces g) = length bounds) as Hlen.
    { apply Forall2_length in Hl. by rewrite length_imap in Hl. }
    split_and!; [done| |done| |].
    + intros i lo hi Hi.
      destruct (lookup_lt_is_Some_2 (linspaces g) i) as [l Hgl].
      { rewrite Hlen. by eapply lookup_lt_Some. }
      eapply (Forall2_lookup_lr _ _ _ i (i, (lo, hi)) l) in Hl; [| |done].
      * destruct Hl as (n & Hn & Hlin). exists n, l. split_and!; [|done..].
        destruct num as [n'|ns]; [|done]. simpl in Hn.
        by apply lookup_replicate in Hn as [-> _].
      * by rewrite list_lookup_imap, Hi.
    + by rewrite Hv, product_length.
    + intros idx v H. rewrite Hv. by apply product_lookup.
Qed.

(** The grid of two by three points: the point with indices (1, 1) is at
    position 4. *)
Lemma ParamGrid_enumeration_witness :
  ∃ g, ParamGrid_init [(0, 1); (0, Q2Qc 10)] (inr [2%Z; 3%Z]) = Ok g
       ∧ values g !! 4%nat = Some [1; Q2Qc 5].
Proof.
  destruct (ParamGrid_init [(0, 1); (0, Q2Qc 10)] (inr [2%Z; 3%Z]))
    as [g|e] eqn:Hg; [|by vm_compute in Hg].
  exists g. split; [done|].
  destruct (proj2 ParamGrid_enumeration _ _ _ Hg) as (_ & _ & _ & _ & Hlookup).
  vm_compute in Hg. injection Hg as <-.
  apply (Hlookup [1; 1]%nat [1; Q2Qc 5]).
  repeat constructor; simpl; f_equal; apply Qc_is_canon; reflexivity.
Defined.

(** ** C5, C6: construction and shuffle of a dataset *)


Lemma size_list_to_set_1 (a : nat) (l : list nat) :
  size (list_to_set (a :: l) : gset nat) = 1%nat ↔ Forall (λ n, n = a) l.
Proof.
  split.
  - intros Hsize. apply Forall_forall. intros n Hn.
    apply (size_singleton_inv (list_to_set (a :: l) : gset nat)); [done|..];
      rewrite elem_of_list_to_set; [by right | left].
  - intros Hall.
    assert (list_to_set (a :: l) = ({[a]} : gset nat)) as ->; [|apply size_singleton].
    apply set_eq. intros n. rewrite elem_of_list_to_set, elem_of_singleton, elem_of_cons.
    rewrite Forall_forall in Hall. naive_solver.
Qed.

Lemma RatioDataset_lens_same (x : list Row) (t0 t1 : list Theta) (y nllr : option (list Qc)) :
  Forall (λ n, n = length x) (RatioDataset_lens x t0 t1 y nllr)
  ↔ RatioDataset_wf {| x := x; theta_0s := t0; theta_1s := t1; y := y; nllr := nllr |}.
Proof.
  unfold RatioDataset_wf, RatioDataset_lens. simpl.
  rewrite !Forall_cons, !Forall_app.
  destruct y as [ya|], nllr as [na|]; simpl;
    rewrite ?Forall_cons, ?Forall_nil; naive_solver.
Qed.

(** Fancy indexing reads every entry of the index array. *)
Lemma take_Ok {A} (a a' : list A) (p : list nat) :
  Np.take a p = Ok a' ↔ Forall2 (λ i v, a !! i = Some v) p a'.
Proof.
  unfold Np.take. rewrite mapR_Ok.
  split; intros H; (eapply Forall2_impl; [exact H|]); intros i v;
    unfold or_raise; destruct (a !! i); naive_solver.
Qed.

Lemma take_in_range {A} (a : list A) (p : list nat) :
  Forall (λ i, i < length a)%nat p → ∃ a', Np.take a p = Ok a'.
Proof.
  induction 1 as [|i p Hi _ [a' Ha']].
  - by exists [].
  - apply lookup_lt_is_Some_2 in Hi as [v Hv]. exists (v :: a').
    apply take_Ok. constructor; [done | by apply take_Ok].
Qed.

Lemma Permutation_seq_in_range (p : list nat) n :
  p ≡ₚ seq 0 n → Forall (λ i, i < n)%nat p.
Proof.
  intros Hp. apply Forall_forall. intros i Hi. rewrite Hp in Hi.
  apply elem_of_seq in Hi. lia.
Qed.

Lemma take_all {A} (a a' : list A) :
  Forall2 (λ i v, a !! i = Some v) (seq 0 (length a)) a' → a' = a.
Proof.
  intros H. apply list_eq. intros i.
  destruct (decide (i < length a)%nat) as [Hi|Hi].
  - destruct (Forall2_lookup_l _ _ _ i i H) as (v & -> & Hv); [|done].
    by apply lookup_seq.
  - rewrite (lookup_ge_None_2 a) by lia. apply lookup_ge_None_2.
    apply Forall2_length in H. rewrite length_seq in H. lia.
Qed.

Lemma take_Permutation_gen {A} (a : list A) (p q : list nat) :
  p ≡ₚ q → ∀ a', Forall2 (λ i v, a !! i = Some v) p a' →
  ∃ b', Forall2 (λ i v, a !! i = Some v) q b' ∧ a' ≡ₚ b'.
Proof.
  induction 1 as [|i p q _ IH|i j p|p q r _ IH1 _ IH2]; intros a' Ha'.
  - apply Forall2_nil_inv_l in Ha' as ->. by exists [].
  - apply Forall2_cons_inv_l in Ha' as (v & a'' & Hv & Ha'' & ->).
    destruct (IH _ Ha'') as (b'' & Hb'' & Hperm).
    exists (v :: b''). split; [by constructor | by constructor].
  - apply Forall2_cons_inv_l in Ha' as (v & a'' & Hv & Ha'' & ->).
    apply Forall2_cons_inv_l in Ha'' as (w & a3 & Hw & Ha3 & ->).
    exists (w :: v :: a3). split; [by repeat constructor | by constructor].
  - destruct (IH1 _ Ha') as (b1 & Hb1 & Hp1).
    destruct (IH2 _ Hb1) as (b2 & Hb2 & Hp2).
    exists b2. split; [done | by etrans].
Qed.

(** Indexing an array with a permutation of its range permutes it. *)
Lemma take_Permutation {A} (a a' : list A) (p : list nat) :
  p ≡ₚ seq 0 (length a) → Forall2 (λ i v, a !! i = Some v) p a' → a' ≡ₚ a.
Proof.
  intros Hp Ha'. destruct (take_Permutation_gen a _ _ Hp _ Ha') as (b' & Hb' & Hperm).
  by apply take_all in Hb' as ->.
Qed.

(** Indexing two arrays with one index array indexes their zip. *)
Lemma take_zip {A B} (a a' : list A) (b b' : list B) (p : list nat) :
  Forall2 (λ i v, a !! i = Some v) p a' →
  Forall2 (λ i v, b !! i = Some v) p b' →
  Forall2 (λ i v, zip a b !! i = Some v) p (zip a' b').
Proof.
  intros Ha. revert b'. induction Ha as [|i v p a' Hv _ IH]; intros b' Hb.
  - apply Forall2_nil_inv_l in Hb as ->. constructor.
  - apply Forall2_cons_inv_l in Hb as (w & b'' & Hw & Hb'' & ->).
    change (zip (v :: a') (w :: b'')) with ((v, w) :: zip a' b'').
    constructor; [|by apply IH].
    apply lookup_zip_with_Some. eauto.
Qed.

Lemma take_expand {A} n (o o' : option (list A)) (p : list nat) :
  Forall (λ i, i < n)%nat p →
  match o, o' with
  | Some arr, Some arr' => Forall2 (λ i v, arr !! i = Some v) p arr'
  | None, None => True
  | _, _ => False
  end →
  Forall2 (λ i v, expand n o !! i = Some v) p (expand (length p) o').
Proof.
  intros Hp H. destruct o as [arr|], o' as [arr'|]; try done; simpl.
  - apply Forall2_fmap_r. eapply Forall2_impl; [done|].
    intros i v Hv. simpl. by rewrite list_lookup_fmap, Hv.
  - clear H. induction Hp as [|i p Hi _ IH]; simpl; constructor; [|done].
    by apply lookup_replicate_2.
Qed.

Lemma RatioDataset_shuffle_Ok (p : list nat) (ds ds' : RatioDataset) :
  RatioDataset_shuffle p ds = Ok ds' →
  Forall2 (λ i v, x ds !! i = Some v) p (x ds')
  ∧ Forall2 (λ i v, theta_0s ds !! i = Some v) p (theta_0s ds')
  ∧ Forall2 (λ i v, theta_1s ds !! i = Some v) p (theta_1s ds')
  ∧ match y ds, y ds' with
    | Some arr, Some arr' => Forall2 (λ i v, arr !! i = Some v) p arr'
    | None, None => True
    | _, _ => False
    end
  ∧ match nllr ds, nllr ds' with
    | Some arr, Some arr' => Forall2 (λ i v, arr !! i = Some v) p arr'
    | None, None => True
    | _, _ => False
    end.
Proof.
  unfold RatioDataset_shuffle. intros H. inv_ok H. subst ds'. simpl.
  rewrite <- !take_Ok. split_and!; [done..| |].
  - destruct (y ds); inv_ok Ha2; subst; [|done]. by apply take_Ok.
  - destruct (nllr ds); inv_ok Ha3; subst; [|done]. by apply take_Ok.
Qed.

Lemma RatioDataset_shuffle_wf (p : list nat) (ds ds' : RatioDataset) :
  RatioDataset_shuffle p ds = Ok ds' →
  RatioDataset_wf ds' ∧ RatioDataset_len ds' = length p.
Proof.
  intros (Hx & H0 & H1 & Hy & Hn)%RatioDataset_shuffle_Ok.
  apply Forall2_length in Hx, H0, H1. unfold RatioDataset_wf, RatioDataset_len.
  split_and!; [congruence..| | |done].
  - intros arr E. rewrite E in Hy. destruct (y ds); [|done].
    apply Forall2_length in Hy. congruence.
  - intros arr E. rewrite E in Hn. destruct (nllr ds); [|done].
    apply Forall2_length in Hn. congruence.
Qed.

Lemma RatioDataset_shuffle_in_range (p : list nat) (ds : RatioDataset) :
  RatioDataset_wf ds → Forall (λ i, i < length (x ds))%nat p →
  ∃ ds', RatioDataset_shuffle p ds = Ok ds'.
Proof.
  intros (H0 & H1 & Hy & Hn) Hp. unfold RatioDataset_shuffle.
  destruct (take_in_range (x ds) p Hp) as [x' ->].
  destruct (take_in_range (theta_0s ds) p) as [t0' ->]; [by rewrite H0|].
  destruct (take_in_range (theta_1s ds) p) as [t1' ->]; [by rewrite H1|].
  simpl. destruct (y ds) as [ya|].
  - destruct (take_in_range ya p) as [y' ->]; [by rewrite (Hy ya)|]. simpl.
    destruct (nllr ds) as [na|]; [|by eexists].
    destruct (take_in_range na p) as [n' ->]; [by rewrite (Hn na)|]. by eexists.
  - simpl. destruct (nllr ds) as [na|]; [|by eexists].
    destruct (take_in_range na p) as [n' ->]; [by rewrite (Hn na)|]. by eexists.
Qed.

Lemma RatioDataset_examples_length (ds : RatioDataset) :
  RatioDataset_wf ds → length (RatioDataset_examples ds) = length (x ds).
Proof.
  intros (H0 & H1 & Hy & Hn). unfold RatioDataset_examples. cbv zeta.
  rewrite !length_zip_with.
  assert (∀ o : option (list Qc), (∀ arr, o = Some arr → length arr = length (x ds)) →
            length (expand (length (x ds)) o) = length (x ds)) as Hexp.
  { intros [arr|] Ho; simpl; [rewrite length_fmap; by apply Ho | apply length_replicate]. }
  rewrite !Hexp by done. lia.
Qed.

Lemma RatioDataset_init_wf x t0 t1 y nllr shuffle p ds :
  RatioDataset_init x t0 t1 y nllr shuffle p = Ok ds → RatioDataset_wf ds.
Proof.
  unfold RatioDataset_init. case_decide as Hsize; [done|].
  apply size_list_to_set_1 in Hsize.
  assert (RatioDataset_wf {| x := x; theta_0s := t0; theta_1s := t1;
                             y := y; nllr := nllr |}) as Hwf.
  { apply RatioDataset_lens_same. unfold RatioDataset_lens. by constructor. }
  destruct shuffle; [|by intros [= <-]].
  by intros [? _]%RatioDataset_shuffle_wf.
Qed.

Lemma RatioDataset_shuffle_examples (p : list nat) (ds ds' : RatioDataset) :
  Forall (λ i, i < length (x ds))%nat p →
  RatioDataset_shuffle p ds = Ok ds' →
  Forall2 (λ i e, RatioDataset_examples ds !! i = Some e) p
          (RatioDataset_examples ds').
Proof.
  intros Hp Hs.
  destruct (RatioDataset_shuffle_wf _ _ _ Hs) as [_ Hlen].
  apply RatioDataset_shuffle_Ok in Hs as (Hx & H0 & H1 & Hy & Hn).
  unfold RatioDataset_examples. cbv zeta. unfold RatioDataset_len in Hlen.
  rewrite Hlen. repeat apply take_zip; try done; by apply take_expand.
Qed.

(** C5.  Constructing a [RatioDataset] whose per-example arrays (x,
    theta_0s, theta_1s, and y and nllr when supplied) do not all have the
    same length raises [ValueError]; when all lengths are equal the
    construction succeeds (with [shuffle], for the permutation that
    [np.random.permutation] draws) and the length of the dataset is the
    common length. *)
Theorem RatioDataset_init_length_check (x0 : list Row) (t0 t1 : list Theta)
    (y0 nllr0 : option (list Qc)) (shuffle : bool) (p : list nat) :
  (¬ Forall (λ n, n = length x0) (RatioDataset_lens x0 t0 t1 y0 nllr0) →
     RatioDataset_init x0 t0 t1 y0 nllr0 shuffle p = Raise ValueError)
  ∧ (Forall (λ n, n = length x0) (RatioDataset_lens x0 t0 t1 y0 nllr0) →
     (shuffle = true → p ≡ₚ seq 0 (length x0)) →
     ∃ ds, RatioDataset_init x0 t0 t1 y0 nllr0 shuffle p = Ok ds
           ∧ RatioDataset_len ds = length x0).
Proof.
  unfold RatioDataset_init, Util.ensure_2d. split.
  - intros Hne. rewrite decide_True; [done|]. intros Hsize. apply Hne.
    apply size_list_to_set_1 in Hsize. by constructor.
  - intros Hall Hp. rewrite decide_False.
    2:{ intros Hsize. apply Hsize. apply size_list_to_set_1.
        by apply Forall_cons_1 in Hall as [_ ?]. }
    destruct shuffle; [|by eexists].
    specialize (Hp eq_refl).
    destruct (RatioDataset_shuffle_in_range p
      {| x := x0; theta_0s := t0; theta_1s := t1; y := y0; nllr := nllr0 |})
      as [ds Hds].
    + by apply RatioDataset_lens_same.
    + by apply Permutation_seq_in_range.
    + exists ds. split; [done|].
      apply RatioDataset_shuffle_wf in Hds as [_ ->].
      by rewrite Hp, length_seq.
Qed.

(** Arrays of three, three and two examples are rejected; three examples
    with labels are accepted and shuffled. *)
Lemma RatioDataset_init_length_check_witness :
  RatioDataset_init [[0]; [1]; [1]] [[0]; [0]; [0]] [[1]; [1]] None None true [0; 1; 2]%nat
    = Raise ValueError
  ∧ ∃ ds, RatioDataset_init [[0]; [1]; [1]] [[0]; [0]; [0]] [[1]; [1]; [1]]
            (Some [0; 1; 1]) None true [2; 0; 1]%nat = Ok ds
          ∧ RatioDataset_len ds = 3%nat.
Proof.
  split.
  - apply (RatioDataset_init_length_check [[0]; [1]; [1]] [[0]; [0]; [0]] [[1]; [1]]
             None None true [0; 1; 2]%nat).
    intros H. apply Forall_cons_1 in H as [_ H]. apply Forall_cons_1 in H as [_ H].
    apply Forall_cons_1 in H as [H _]. discriminate H.
  - apply (RatioDataset_init_length_check [[0]; [1]; [1]] [[0]; [0]; [0]]
             [[1]; [1]; [1]] (Some [0; 1; 1]) None true [2; 0; 1]%nat).
    + repeat constructor.
    + intros _. simpl. etrans; [apply perm_swap|]. apply perm_skip, perm_swap.
Defined.

(** C6.  On every constructed [RatioDataset], [shuffle()] applies one and
    the same permutation [p] to all per-example arrays: entry [j] of each
    array, and so of the zipped examples, is the old entry [p[j]].  Hence the
    multiset of examples, the multiset of the triples (x_i, y_i, theta_1_i)
    and the length of the dataset are unchanged. *)
Theorem RatioDataset_shuffle_permutation (x0 : list Row) (t0 t1 : list Theta)
    (y0 nllr0 : option (list Qc)) (shuffle0 : bool) (p0 : list nat)
    (ds : RatioDataset) (p : list nat) :
  RatioDataset_init x0 t0 t1 y0 nllr0 shuffle0 p0 = Ok ds →
  p ≡ₚ seq 0 (RatioDataset_len ds) →
  ∃ ds', RatioDataset_shuffle p ds = Ok ds'
    ∧ permuted_by p (x ds) (x ds')
    ∧ permuted_by p (theta_0s ds) (theta_0s ds')
    ∧ permuted_by p (theta_1s ds) (theta_1s ds')
    ∧ option_Forall2 (permuted_by p) (y ds) (y ds')
    ∧ option_Forall2 (permuted_by p) (nllr ds) (nllr ds')
    ∧ permuted_by p (RatioDataset_examples ds) (RatioDataset_examples ds')
    ∧ RatioDataset_examples ds' ≡ₚ RatioDataset_examples ds
    ∧ RatioDataset_triples ds' ≡ₚ RatioDataset_triples ds
    ∧ RatioDataset_len ds' = RatioDataset_len ds.
Proof.
  intros Hwf%RatioDataset_init_wf Hp. unfold RatioDataset_len in *.
  pose proof (Permutation_seq_in_range _ _ Hp) as Hrange.
  destruct (RatioDataset_shuffle_in_range p ds Hwf Hrange) as [ds' Hs].
  exists ds'. split; [done|].
  pose proof (RatioDataset_shuffle_examples _ _ _ Hrange Hs) as Hex.
  pose proof (RatioDataset_shuffle_wf _ _ _ Hs) as [_ Hlen].
  apply RatioDataset_shuffle_Ok in Hs as (Hx & H0 & H1 & Hy & Hn).
  assert (RatioDataset_examples ds' ≡ₚ RatioDataset_examples ds) as Hperm.
  { eapply take_Permutation; [|exact Hex].
    by rewrite RatioDataset_examples_length. }
  split_and!; try done.
  - destruct (y ds), (y ds'); try done; by constructor.
  - destruct (nllr ds), (nllr ds'); try done; by constructor.
  - unfold RatioDataset_triples. by rewrite Hperm.
  - unfold RatioDataset_len in Hlen. rewrite Hlen.
    apply Permutation_length in Hp. by rewrite Hp, length_seq.
Qed.

Lemma RatioDataset_shuffle_permutation_witness :
  ∃ ds ds', RatioDataset_init [[0]; [1]; [Q2Qc 2]] [[0]; [0]; [0]] [[1]; [1]; [1]]
              (Some [0; 1; 1]) None false [] = Ok ds
    ∧ RatioDataset_shuffle [2; 0; 1]%nat ds = Ok ds'
    ∧ RatioDataset_triples ds' ≡ₚ RatioDataset_triples ds.
Proof.
  destruct (RatioDataset_shuffle_permutation [[0]; [1]; [Q2Qc 2]] [[0]; [0]; [0]]
             [[1]; [1]; [1]] (Some [0; 1; 1]) None false [] _ [2; 0; 1]%nat eq_refl)
    as (ds' & Hs & _ & _ & _ & _ & _ & _ & _ & Ht & _).
  - simpl. etrans; [apply perm_swap|]. apply perm_skip, perm_swap.
  - eexists _, ds'. split_and!; [reflexivity|exact Hs|exact Ht].
Defined.

(** ** C8: the trialed mask *)

Lemma forallb_eq_vectors (row theta : Theta) :
  length row = length theta →
  forallb id (zip_with (λ a b, bool_decide (a = b)) row theta)
  = bool_decide (row = theta).
Proof.
  revert theta. induction row as [|a row IH]; intros [|b theta] Hlen;
    simplify_eq/=; [done|].
  rewrite IH by done. unfold id.
  destruct (decide (a = b)) as [->|Hab].
  - rewrite bool_decide_eq_true_2 by done. simpl.
    apply bool_decide_ext. naive_solver.
  - rewrite bool_decide_eq_false_2 by done. simpl.
    symmetry. apply bool_decide_eq_false_2. naive_solver.
Qed.

Lemma grid_eq_same_width (grid_values : list Theta) (theta : Theta) d :
  Forall (λ row, length row = d) grid_values → length theta = d →
  grid_eq grid_values theta
  = Ok ((λ row, zip_with (λ a b, bool_decide (a = b)) row theta) <$> grid_values).
Proof.
  intros Hg Hth. unfold grid_eq. apply mapR_Ok.
  apply Forall2_fmap_r, Forall_Forall2_diag.
  eapply Forall_impl; [exact Hg|]. intros row Hrow. unfold eq_broadcast.
  rewrite decide_True; [done | congruence].
Qed.

(** The column sums of the stacked comparison: for every grid row, the
    number of sampled vectors it equals. *)
Lemma column_sums {A B} (f : B → A → nat) (rows : list A) (ts : list B) :
  foldr (zip_with Nat.add) (replicate (length rows) 0%nat)
        ((λ t, f t <$> rows) <$> ts)
  = (λ row, sum_list ((λ t, f t row) <$> ts)) <$> rows.
Proof.
  induction ts as [|t ts IH].
  - simpl. induction rows as [|r rows IHr]; [done|]. simpl. by rewrite IHr.
  - rewrite fmap_cons. cbn [foldr].
    rewrite IH, zip_with_fmap_l, zip_with_fmap_r, zip_with_diag. done.
Qed.

Lemma count_matches_nonzero (row : Theta) (thetas : list Theta) :
  negb (sum_list ((λ t, Nat.b2n (bool_decide (row = t))) <$> thetas) =? 0)%nat
  = bool_decide (row ∈ thetas).
Proof.
  induction thetas as [|t thetas IH]; [done|].
  rewrite fmap_cons. cbn [sum_list sum_list_with].
  destruct (decide (row = t)) as [->|Hne].
  - rewrite (bool_decide_eq_true_2 (t = t)) by done. simpl.
    symmetry. apply bool_decide_eq_true_2. left.
  - rewrite (bool_decide_eq_false_2 (row = t)) by done. simpl.
    rewrite IH. apply bool_decide_ext. rewrite elem_of_cons. naive_solver.
Qed.

Lemma trialed_mask_of_same_width (g : ParamGrid) (it : ParamIterator) d :
  values g ≠ [] → values it ≠ [] →
  Forall (λ row, length row = d) (values g) →
  Forall (λ theta, length theta = d) (values it) →
  trialed_mask_of g it
  = Ok ((λ row, bool_decide (row ∈ values it)) <$> values g).
Proof.
  intros Hg Hit Hgd Hitd. unfold trialed_mask_of.
  assert (mapR (grid_eq (values g)) (values it)
          = Ok ((λ theta, (λ row, zip_with (λ a b, bool_decide (a = b)) row theta)
                            <$> values g) <$> values it)) as ->.
  { apply mapR_Ok, Forall2_fmap_r, Forall_Forall2_diag.
    eapply Forall_impl; [exact Hitd|]. intros theta Hth.
    by eapply grid_eq_same_width. }
  cbn [rbind].
  assert (∀ r th, r ∈ values g → th ∈ values it → length r = length th) as Hw.
  { intros r th Hr Hth. rewrite Forall_forall in Hgd, Hitd.
    by rewrite (Hgd r Hr), (Hitd th Hth). }
  match goal with |- rbind (check_3d ?c) _ = _ =>
    assert (Forall (Forall (λ r' : list bool, length r' = d)) c) as HF;
    [|assert (check_3d c = Ok tt) as ->]
  end.
  { rewrite Forall_fmap. apply Forall_forall. intros th Hth. simpl.
    rewrite Forall_fmap. apply Forall_forall. intros r Hr. simpl.
    rewrite Forall_forall in Hgd, Hitd.
    rewrite length_zip_with, (Hgd r Hr), (Hitd th Hth). lia. }
  { destruct (values it) as [|theta thetas]; [done|].
    destruct (values g) as [|row rows]; [done|].
    rewrite !fmap_cons in *. cbn [check_3d]. rewrite decide_True; [done|].
    pose proof HF as [[Hd _]%Forall_cons_1 _]%Forall_cons_1.
    eapply Forall_impl; [exact HF|]. intros l Hl.
    eapply Forall_impl; [exact Hl|]. intros r' ->. by symmetry. }
  cbn [rbind]. f_equal. unfold astype_bool, sum_axis0, all_axis2.
  rewrite <- !list_fmap_compose.
  rewrite (list_fmap_ext
    (fmap (M := list) Nat.b2n ∘ fmap (M := list) (forallb id)
      ∘ (λ theta, (λ row, zip_with (λ a b, bool_decide (a = b)) row theta)
                    <$> values g))
    (λ theta, (λ row, Nat.b2n (bool_decide (row = theta))) <$> values g)
    (values it)).
  - rewrite (column_sums (λ t row, Nat.b2n (bool_decide (row = t)))).
    rewrite <- list_fmap_compose. apply list_fmap_ext.
    intros i r Hr. simpl. apply count_matches_nonzero.
  - intros i th Hth. simpl. rewrite <- !list_fmap_compose.
    apply list_fmap_ext. intros j r Hr. simpl. f_equal.
    apply forallb_eq_vectors.
    apply Hw; by eapply list_elem_of_lookup_2.
Qed.

(** C8.  For a non-empty grid and at least one sampled vector, all of the
    grid's width, the derived mask has one entry per grid point, and the
    entry of a grid point is true if and only if the point equals, on all
    dimensions, at least one sampled vector.  Marking 0.5 on
    [ParamGrid(bounds=[(0,1)], num=5)] gives exactly
    [False, False, True, False, False]. *)
Theorem trialed_mask_exact_match :
  (∀ (g : ParamGrid) (it : ParamIterator) (d : nat),
     values g ≠ [] → values it ≠ [] →
     Forall (λ row, length row = d) (values g) →
     Forall (λ theta, length theta = d) (values it) →
     ∃ mask, trialed_mask_of g it = Ok mask
       ∧ length mask = length (values g)
       ∧ ∀ i row, values g !! i = Some row →
           ∃ b : bool, mask !! i = Some b
             ∧ (b = true ↔ ∃ theta, theta ∈ values it ∧ row = theta))
  ∧ (∃ g, ParamGrid_init [(0, 1)] (inl 5%Z) = Ok g
        ∧ trialed_mask_of g {| values := [[Q2Qc (1 # 2)]] |}
          = Ok [false; false; true; false; false]).
Proof.
  split.
  - intros g it d Hg Hit Hgd Hitd.
    eexists. split; [by eapply trialed_mask_of_same_width|].
    split; [by rewrite length_fmap|].
    intros i row Hrow. eexists. rewrite list_lookup_fmap, Hrow. split; [done|].
    rewrite bool_decide_eq_true. naive_solver.
  - eexists. split; vm_compute; reflexivity.
Qed.

(** The corners 0 and 1 of the five-point grid are marked, 0.25 is not. *)
Lemma trialed_mask_exact_match_witness :
  ∃ g mask, ParamGrid_init [(0, 1)] (inl 5%Z) = Ok g
    ∧ trialed_mask_of g {| values := [[1]; [0]] |} = Ok mask
    ∧ length mask = 5%nat.
Proof.
  destruct (ParamGrid_init [(0, 1)] (inl 5%Z)) as [g|e] eqn:Hg;
    [|by vm_compute in Hg].
  destruct (proj1 trialed_mask_exact_match g {| values := [[1]; [0]] |} 1%nat)
    as (mask & Hmask & Hlen & _).
  - vm_compute in Hg. by injection Hg as <-.
  - done.
  - vm_compute in Hg. injection Hg as <-. by repeat constructor.
  - by repeat constructor.
  - exists g, mask. split_and!; [done..|].
    rewrite Hlen. vm_compute in Hg. by injection Hg as <-.
Defined.

(** ** C2, C3: the selection policy and the trialed mask *)

(** *** The arg-max never lands on [-inf] while another entry is larger *)

Lemma fle_NegInf_r (v : fval) : fle v NegInf = true → v = NegInf.
Proof. by destruct v. Qed.

Lemma fle_NegInf_l (v : fval) : is_nan v = false → fle NegInf v = true.
Proof. by destruct v. Qed.

Lemma argmax_from_spec (pre a : list fval) (mp : fval) (idx : nat) :
  is_nan mp = false → pre !! idx = Some mp →
  ∃ v, (pre ++ a) !! argmax_from mp idx (length pre) a = Some v
       ∧ (v = NegInf → mp = NegInf ∧ Forall (λ w, w = NegInf) a).
Proof.
  revert pre mp idx. induction a as [|v0 a IH]; intros pre mp idx Hnan Hidx; simpl.
  - exists mp. split; [|done]. rewrite app_nil_r. done.
  - destruct (fle v0 mp) eqn:Hle; [|destruct (is_nan v0) eqn:Hnan0].
    + destruct (IH (pre ++ [v0]) mp idx Hnan) as (v & Hv & Hinf).
      { by apply lookup_app_l_Some. }
      rewrite length_app, Nat.add_1_r in Hv. rewrite <- app_assoc in Hv.
      exists v. split; [done|]. intros ->. destruct Hinf as [-> Hall]; [done|].
      split; [done|]. constructor; [by apply fle_NegInf_r | done].
    + exists v0. split.
      * rewrite lookup_app_r, Nat.sub_diag by done. done.
      * intros ->. done.
    + destruct (IH (pre ++ [v0]) v0 (length pre) Hnan0) as (v & Hv & Hinf).
      { rewrite lookup_app_r, Nat.sub_diag by done. done. }
      rewrite length_app, Nat.add_1_r in Hv. rewrite <- app_assoc in Hv.
      exists v. split; [done|]. intros ->. destruct Hinf as [-> Hall]; [done|].
      by rewrite fle_NegInf_l in Hle.
Qed.

(** The entry that [np.argmax] selects is [-inf] only if every entry is. *)
Lemma argmax_not_NegInf (a : list fval) (r : nat) :
  argmax a = Ok r →
  ∃ v, a !! r = Some v ∧ (v = NegInf → Forall (λ w, w = NegInf) a).
Proof.
  destruct a as [|v0 a]; [done|]. simpl. intros [= <-].
  destruct (is_nan v0) eqn:Hnan.
  - exists v0. split; [done|]. intros ->. done.
  - destruct (argmax_from_spec [v0] a v0 0 Hnan eq_refl) as (v & Hv & Hinf).
    exists v. split; [done|]. intros ->. destruct Hinf as [-> Hall]; [done|].
    by constructor.
Qed.

Lemma argmax_nonempty (a : list fval) : a ≠ [] → ∃ r, argmax a = Ok r.
Proof. destruct a; [done|]. intros _. by eexists. Qed.

(** *** The learner, stage by stage *)

Lemma set_histories_id (self : ActiveLearner) :
  set_histories (_train_history self) (_test_history self)
    (acquisition_history self) self = self.
Proof. by destruct self. Qed.

(** The learner after [_record_acq_history] has appended [item]. *)
Lemma trialed_count_insert (mask : list bool) (i : nat) :
  mask !! i = Some false →
  trialed_count (<[i := true]> mask) = S (trialed_count mask)
  ∧ S (untrialed_count (<[i := true]> mask)) = untrialed_count mask.
Proof.
  unfold trialed_count, untrialed_count.
  revert i. induction mask as [|b mask IH]; intros [|i] Hi; simplify_eq/=; [done|].
  destruct (IH i Hi) as [-> <-]. lia.
Qed.

Lemma untrialed_count_pos (mask : list bool) :
  (0 < untrialed_count mask)%nat ↔ ∃ i, mask !! i = Some false.
Proof.
  unfold untrialed_count. induction mask as [|b mask IH]; simpl.
  - split; [lia | by intros [i ?]].
  - destruct b; simpl.
    + rewrite IH. split; intros [i Hi]; [by exists (S i) | destruct i; naive_solver].
    + split; [by exists 0%nat | lia].
Qed.

Section Step.
Context `{FloatArith}.
Variable log_prob : Theta → Row → Qc.

(** [_record_acq_history] appends one item or fails and changes nothing. *)
Lemma record_acq_history_unfold (o : Oracle) (U_theta_pred U_theta_train : list fval)
    (self : ActiveLearner) :
  _record_acq_history o U_theta_pred U_theta_train self =
  match acquisition_item o self U_theta_pred U_theta_train with
  | Ok item => (recorded item self, Ok tt)
  | Raise e => (self, Raise e)
  end.
Proof.
  unfold _record_acq_history, acquisition_item, bind, get, lift, put, ret.
  cbv zeta.
  destruct (trialed_thetas self) as [trialed|]; [|done]. cbn [rbind].
  destruct (squeeze_index trialed _) as [index|]; [|done]. cbn [rbind].
  destruct (pd_Series index U_theta_train) as [training_info|]; [|done]. cbn [rbind].
  destruct (squeeze_index (all_thetas self) _) as [index'|]; [|done]. cbn [rbind].
  destruct (pd_Series index' U_theta_pred) as [prediction_info|]; [|done]. cbn [rbind].
  destruct (validation_mode self); [|done].
  destruct (validation_acquisition o) as [U_theta_true|]; [|done]. cbn [rbind].
  by destruct (pd_Series index' U_theta_true).
Qed.

(** [choose_next_theta_index] changes the learner only by the item it
    records, and only when it returns. *)
Lemma choose_unfold (o : Oracle) (self : ActiveLearner) :
  choose_next_theta_index o self =
  match acquisition_function self with
  | Random => (self, random_index o self)
  | Scoring =>
      match ucb_choice o self with
      | Ok (idx, item) => (recorded item self, Ok idx)
      | Raise e => (self, Raise e)
      end
  end.
Proof.
  unfold choose_next_theta_index, random_index, ucb_choice, masked_ucb.
  unfold bind at 1. unfold get at 1. cbv zeta.
  destruct (acquisition_function self).
  - by case_decide.
  - unfold bind, lift, ret.
    destruct (_gp o self); [|done]. cbn [rbind].
    destruct (marginalised_acquisition o) as [U_theta_train|]; [|done]. cbn [rbind].
    destruct (trialed_thetas self); [|done]. cbn [rbind].
    destruct (gp_fit o); [|done]. cbn [rbind].
    destruct (gp_predict o) as [[U_theta_pred std]|]; [|done]. cbn [rbind fst snd].
    destruct (broadcast2 _ _ _) as [ucb|]; [|done]. cbn [rbind].
    destruct (bool_assign _ _ _) as [ucb'|]; [|done]. cbn [rbind].
    destruct (argmax ucb') as [idx|]; [|done]. cbn [rbind].
    rewrite record_acq_history_unfold.
    by destruct (acquisition_item _ _ _ _).
Qed.

Lemma choose_frame (o : Oracle) (self self' : ActiveLearner) (r : result nat) :
  choose_next_theta_index o self = (self', r) →
  self' = self
  ∨ ∃ idx item, r = Ok idx ∧ acquisition_function self = Scoring
      ∧ ucb_choice o self = Ok (idx, item) ∧ self' = recorded item self.
Proof.
  rewrite choose_unfold. destruct (acquisition_function self) eqn:Hacq.
  - intros [= <- _]. by left.
  - destruct (ucb_choice o self) as [[idx item]|] eqn:Hc.
    + intros [= <- <-]. right. by exists idx, item.
    + intros [= <- _]. by left.
Qed.

(** A successful selection, by mode. *)
Lemma choose_Ok (o : Oracle) (self self1 : ActiveLearner) (idx : nat) :
  choose_next_theta_index o self = (self1, Ok idx) →
  match acquisition_function self with
  | Random => self1 = self ∧ random_index o self = Ok idx
  | Scoring => ∃ item, ucb_choice o self = Ok (idx, item) ∧ self1 = recorded item self
  end.
Proof.
  rewrite choose_unfold. destruct (acquisition_function self).
  - by intros [= <- ->].
  - destruct (ucb_choice o self) as [[idx' item]|]; [|done].
    intros [= <- <-]. by exists item.
Qed.

(** The stages of a successful acquisition-guided selection. *)
Lemma ucb_choice_inv (o : Oracle) (self : ActiveLearner) (idx : nat)
    (item : AcquisitionItem) :
  ucb_choice o self = Ok (idx, item) →
  ∃ U_theta_train U_theta_pred std ucb,
    _gp o self = Ok tt
    ∧ marginalised_acquisition o = Ok U_theta_train
    ∧ gp_fit o = Ok tt
    ∧ gp_predict o = Ok (U_theta_pred, std)
    ∧ masked_ucb self U_theta_pred std = Ok ucb
    ∧ argmax ucb = Ok idx
    ∧ acquisition_item o self U_theta_pred U_theta_train = Ok item.
Proof.
  unfold ucb_choice. intros Hc.
  destruct (_gp o self) as [[]|] eqn:Hgp; [|done]. cbn [rbind] in Hc.
  destruct (marginalised_acquisition o) as [U_theta_train|] eqn:Htrain; [|done].
  cbn [rbind] in Hc.
  destruct (trialed_thetas self); [|done]. cbn [rbind] in Hc.
  destruct (gp_fit o) as [[]|] eqn:Hfit; [|done]. cbn [rbind] in Hc.
  destruct (gp_predict o) as [[U_theta_pred std]|] eqn:Hpred; [|done].
  cbn [rbind fst snd] in Hc.
  destruct (masked_ucb self U_theta_pred std) as [ucb|] eqn:Hucb; [|done].
  cbn [rbind] in Hc.
  destruct (argmax ucb) as [r|] eqn:Hr; [|done]. cbn [rbind] in Hc.
  destruct (acquisition_item _ _ _ _) as [item'|] eqn:Hitem; [|done].
  injection Hc as -> ->.
  by exists U_theta_train, U_theta_pred, std, ucb.
Qed.

(** What [choose_next_theta_index] leaves alone. *)
Lemma choose_keeps (o : Oracle) (self self' : ActiveLearner) (r : result nat) :
  choose_next_theta_index o self = (self', r) →
  self' = set_histories (_train_history self) (_test_history self)
            (acquisition_history self') self.
Proof.
  intros [->|(idx & item & _ & _ & _ & ->)]%choose_frame.
  - by rewrite set_histories_id.
  - done.
Qed.

(** [step], stage by stage. *)
Lemma step_unfold (o : Oracle) (self : ActiveLearner) :
  step log_prob o self =
  match choose_next_theta_index o self with
  | (self1, Raise e) => (self1, Raise e)
  | (self1, Ok idx) =>
    match all_thetas self1 !! idx with
    | None => (self1, Raise IndexError)
    | Some next_theta =>
      match from_simulator log_prob (theta_0 self1) (SingleParamIterator next_theta 1)
              (n_samples_per_theta self1) (new_draws o) with
      | Raise e => (self1, Raise e)
      | Ok new_ds =>
        let grown := RatioDataset_concat (dataset self1) new_ds in
        match RatioDataset_shuffle (reshuffle o) grown with
        | Raise e => (set_dataset grown self1, Raise e)
        | Ok ds =>
          let self2 := set_dataset ds self1 in
          match model_fit o with
          | Raise e => (self2, Raise e)
          | Ok _ =>
            match training_info o with
            | Raise e => (self2, Raise e)
            | Ok info =>
              let self3 := set_histories (_train_history self2 ++ [info])
                             (_test_history self2) (acquisition_history self2)
                             self2 in
              match training_info_log o with
              | Raise e => (self3, Raise e)
              | Ok _ =>
                match evaluated o self1 with
                | Raise e => (self3, Raise e)
                | Ok m =>
                  let self4 := refitted info m ds self1 in
                  match _trialed_mask self1 !! idx with
                  | None => (self4, Raise IndexError)
                  | Some true => (self4, Raise AssertionError)
                  | Some false =>
                      (set_trialed_mask (<[idx := true]> (_trialed_mask self1))
                         self4, Ok tt)
                  end
                end
              end
            end
          end
        end
      end
    end
  end.
Proof.
  unfold step, bind at 1.
  destruct (choose_next_theta_index o self) as [self1 [idx|e]]; [|done].
  unfold bind, get, lift, put, ret, evaluated, refitted. simpl.
  destruct (all_thetas self1 !! idx) as [next_theta|]; [|done]. simpl.
  destruct (from_simulator _ _ _ _ _) as [new_ds|]; [|done]. simpl.
  destruct (RatioDataset_shuffle _ _) as [ds|]; [|done]. simpl.
  destruct (model_fit o); [|done].
  destruct (training_info o) as [info|]; [|done]. simpl.
  destruct (training_info_log o); [|done]. simpl.
  destruct (test_dataset self1); simpl.
  - destruct (mse o) as [m|]; [|done]. simpl.
    destruct (_trialed_mask self1 !! idx) as [[|]|]; done.
  - rewrite app_nil_r. destruct (_trialed_mask self1 !! idx) as [[|]|]; done.
Qed.

End Step.

(** What [choose_next_theta_index] leaves alone, field by field. *)
Lemma choose_fields `{FloatArith} (o : Oracle) (self self' : ActiveLearner)
    (r : result nat) :
  choose_next_theta_index o self = (self', r) →
  theta_0 self' = theta_0 self
  ∧ n_samples_per_theta self' = n_samples_per_theta self
  ∧ dataset self' = dataset self
  ∧ param_grid self' = param_grid self
  ∧ _trialed_mask self' = _trialed_mask self
  ∧ test_dataset self' = test_dataset self
  ∧ _train_history self' = _train_history self
  ∧ _test_history self' = _test_history self
  ∧ acquisition_function self' = acquisition_function self.
Proof. intros ->%choose_keeps. done. Qed.

Section Run.
Context `{FloatArith}.
Variable log_prob : Theta → Row → Qc.

(** A successful [step]: every stage has passed, the chosen index was
    untrialed and is now marked. *)
Lemma step_Ok (o : Oracle) (self self' : ActiveLearner) :
  step log_prob o self = (self', Ok tt) →
  ∃ self1 idx next_theta new_ds ds info m,
    choose_next_theta_index o self = (self1, Ok idx)
    ∧ all_thetas self !! idx = Some next_theta
    ∧ from_simulator log_prob (theta_0 self) (SingleParamIterator next_theta 1)
        (n_samples_per_theta self) (new_draws o) = Ok new_ds
    ∧ RatioDataset_shuffle (reshuffle o) (RatioDataset_concat (dataset self) new_ds)
      = Ok ds
    ∧ model_fit o = Ok tt
    ∧ training_info o = Ok info
    ∧ training_info_log o = Ok tt
    ∧ evaluated o self = Ok m
    ∧ _trialed_mask self !! idx = Some false
    ∧ self' = set_trialed_mask (<[idx := true]> (_trialed_mask self))
                (refitted info m ds self1).
Proof.
  rewrite step_unfold.
  destruct (choose_next_theta_index o self) as [self1 [idx|e]] eqn:Hc; [|done].
  destruct (choose_fields _ _ _ _ Hc) as (Ht0 & Hn & Hds & Hg & Hm & Htd & _).
  unfold all_thetas, evaluated. rewrite Ht0, Hn, Hds, Hg, Hm, Htd.
  destruct (ParamGrid_array (param_grid self) !! idx) as [next_theta|] eqn:Hth;
    [|done].
  destruct (from_simulator _ _ _ _ _) as [new_ds|] eqn:Hsim; [|done]. cbv zeta.
  destruct (RatioDataset_shuffle _ _) as [ds|] eqn:Hsh; [|done].
  destruct (model_fit o) as [[]|] eqn:Hfit; [|done].
  destruct (training_info o) as [info|] eqn:Hinfo; [|done].
  destruct (training_info_log o) as [[]|] eqn:Hlog; [|done].
  destruct (if test_dataset self then mse o else Ok 0) as [m|] eqn:Hev; [|done].
  destruct (_trialed_mask self !! idx) as [[|]|] eqn:Hi; [done| |done].
  intros [= <-]. by exists self1, idx, next_theta, new_ds, ds, info, m.
Qed.

(** A failing [step] leaves the mask as it was. *)
Lemma step_Raise (o : Oracle) (self self' : ActiveLearner) (e : exn) :
  step log_prob o self = (self', Raise e) →
  _trialed_mask self' = _trialed_mask self.
Proof.
  rewrite step_unfold.
  destruct (choose_next_theta_index o self) as [self1 [idx|e1]] eqn:Hc;
    destruct (choose_fields _ _ _ _ Hc) as (_ & _ & _ & _ & Hm & _);
    [|by intros [= <- _]].
  destruct (all_thetas self1 !! idx); [|by intros [= <- _]].
  destruct (from_simulator _ _ _ _ _); [|by intros [= <- _]]. cbv zeta.
  destruct (RatioDataset_shuffle _ _); [|by intros [= <- _]].
  destruct (model_fit o); [|by intros [= <- _]].
  destruct (training_info o); [|by intros [= <- _]].
  destruct (training_info_log o); [|by intros [= <- _]].
  destruct (evaluated o self1); [|by intros [= <- _]].
  destruct (_trialed_mask self1 !! idx) as [[|]|]; [|done|]; by intros [= <- _].
Qed.

(** A trialed index chosen by the policy trips the assertion, once the
    stages in between have passed. *)
Lemma step_asserts (o : Oracle) (self self1 : ActiveLearner) (idx : nat)
    (next_theta : Theta) (new_ds ds : RatioDataset) (info : TrainInfo) (m : Qc) :
  choose_next_theta_index o self = (self1, Ok idx) →
  _trialed_mask self !! idx = Some true →
  all_thetas self !! idx = Some next_theta →
  from_simulator log_prob (theta_0 self) (SingleParamIterator next_theta 1)
    (n_samples_per_theta self) (new_draws o) = Ok new_ds →
  RatioDataset_shuffle (reshuffle o) (RatioDataset_concat (dataset self) new_ds)
    = Ok ds →
  model_fit o = Ok tt →
  training_info o = Ok info →
  training_info_log o = Ok tt →
  evaluated o self = Ok m →
  step log_prob o self = (refitted info m ds self1, Raise AssertionError).
Proof.
  intros Hc Hidx Hth Hsim Hsh Hfit Hinfo Hlog Hev.
  rewrite step_unfold, Hc.
  destruct (choose_fields _ _ _ _ Hc) as (Ht0 & Hn & Hds & Hg & Hm & Htd & _).
  unfold all_thetas, evaluated in *. rewrite Ht0, Hn, Hds, Hg, Hm, Htd.
  rewrite Hth, Hsim. cbv zeta. by rewrite Hsh, Hfit, Hinfo, Hlog, Hev, Hidx.
Qed.

Lemma fit_cons (o : Oracle) (os : list Oracle) (self : ActiveLearner) :
  fit log_prob (o :: os) self =
  match step log_prob o self with
  | (self1, Ok _) => fit log_prob os self1
  | (self1, Raise e) => (self1, Raise e)
  end.
Proof. reflexivity. Qed.

(** After every successful run of [step]s the mask has been set at as many
    distinct indices as there were steps, each untrialed at the start. *)
Lemma fit_Ok (os : list Oracle) (self self' : ActiveLearner) :
  fit log_prob os self = (self', Ok tt) →
  ∃ idxs : list nat,
    length idxs = length os ∧ NoDup idxs
    ∧ (∀ i, i ∈ idxs → _trialed_mask self !! i = Some false
                        ∧ _trialed_mask self' !! i = Some true)
    ∧ (∀ i, i ∉ idxs → _trialed_mask self' !! i = _trialed_mask self !! i)
    ∧ length (_trialed_mask self') = length (_trialed_mask self)
    ∧ trialed_count (_trialed_mask self')
      = (trialed_count (_trialed_mask self) + length os)%nat.
Proof.
  revert self. induction os as [|o os IH]; intros self.
  - intros [= <-]. exists [].
    split_and!; [done|constructor|by intros ? ?%elem_of_nil|done..|simpl; lia].
  - rewrite fit_cons.
    destruct (step log_prob o self) as [self1 [[]|e]] eqn:Hstep; [|done].
    intros Hfit.
    apply step_Ok in Hstep
      as (self0 & idx & ? & ? & ? & ? & ? & _ & _ & _ & _ & _ & _ & _ & _ & Hidx & Hs1).
    assert (_trialed_mask self1 = <[idx := true]> (_trialed_mask self)) as Hmask
      by by rewrite Hs1.
    destruct (IH _ Hfit) as (idxs & Hlen & Hnd & Hin & Hout & Hl & Hcnt).
    assert (idx < length (_trialed_mask self))%nat as Hlt by by eapply lookup_lt_Some.
    assert (idx ∉ idxs) as Hnotin.
    { intros [Hf _]%Hin. rewrite Hmask, list_lookup_insert_eq in Hf; done. }
    exists (idx :: idxs). split_and!.
    + simpl. by rewrite Hlen.
    + by constructor.
    + intros i [->|Hi]%elem_of_cons.
      * split; [done|]. rewrite (Hout _ Hnotin), Hmask.
        by apply list_lookup_insert_eq.
      * destruct (Hin i Hi) as [Hf Ht]. split; [|done].
        rewrite Hmask, list_lookup_insert_ne in Hf; [done|]. by intros ->.
    + intros i [Hne Hi]%not_elem_of_cons.
      rewrite (Hout i Hi), Hmask. by apply list_lookup_insert_ne.
    + by rewrite Hl, Hmask, length_insert.
    + rewrite Hcnt, Hmask. destruct (trialed_count_insert _ _ Hidx) as [-> _].
      simpl. lia.
Qed.

End Run.

(** C2.  For every number of successful calls of [step] (a run of [fit]
    that returns), exactly that many additional entries of the trialed mask
    have become true, at distinct indices, each of them false before, and no
    other entry has changed.  If the index chosen by the selection policy is
    already marked, and the stages between the choice and the assertion pass
    (the simulation of the fragment, the shuffle, the fit of the model and
    its evaluation), [step] raises [AssertionError] with the mask not yet
    written.  Every failure of [step] leaves the mask unchanged and aborts
    the loop of [fit]. *)
Theorem step_marks_untrialed `{FloatArith} (log_prob : Theta → Row → Qc) :
  (∀ (os : list Oracle) (self self' : ActiveLearner),
     fit log_prob os self = (self', Ok tt) →
     ∃ idxs : list nat,
       length idxs = length os ∧ NoDup idxs
       ∧ (∀ i, i ∈ idxs → _trialed_mask self !! i = Some false
                           ∧ _trialed_mask self' !! i = Some true)
       ∧ (∀ i, i ∉ idxs → _trialed_mask self' !! i = _trialed_mask self !! i)
       ∧ trialed_count (_trialed_mask self')
         = (trialed_count (_trialed_mask self) + length os)%nat)
  ∧ (∀ (o : Oracle) (self self1 : ActiveLearner) (idx : nat) (next_theta : Theta)
       (new_ds ds : RatioDataset) (info : TrainInfo) (m : Qc),
       choose_next_theta_index o self = (self1, Ok idx) →
       _trialed_mask self !! idx = Some true →
       all_thetas self !! idx = Some next_theta →
       from_simulator log_prob (theta_0 self) (SingleParamIterator next_theta 1)
         (n_samples_per_theta self) (new_draws o) = Ok new_ds →
       RatioDataset_shuffle (reshuffle o) (RatioDataset_concat (dataset self) new_ds)
         = Ok ds →
       model_fit o = Ok tt →
       training_info o = Ok info →
       training_info_log o = Ok tt →
       evaluated o self = Ok m →
       ∃ self', step log_prob o self = (self', Raise AssertionError)
                ∧ _trialed_mask self' = _trialed_mask self)
  ∧ (∀ (o : Oracle) (self self' : ActiveLearner) (e : exn),
       step log_prob o self = (self', Raise e) →
       _trialed_mask self' = _trialed_mask self
       ∧ ∀ os, fit log_prob (o :: os) self = (self', Raise e)).
Proof.
  split_and!.
  - intros os self self' Hfit.
    destruct (fit_Ok _ _ _ _ Hfit) as (idxs & ? & ? & ? & ? & _ & ?).
    by exists idxs.
  - intros o self self1 idx next_theta new_ds ds info m Hc Hidx Hth Hsim Hsh
      Hfit Hinfo Hlog Hev.
    eexists. split; [by eapply step_asserts|].
    destruct (choose_fields _ _ _ _ Hc) as (_ & _ & _ & _ & Hm & _).
    by rewrite <- Hm.
  - intros o self self' e Hstep. split; [by eapply step_Raise|].
    intros os. by rewrite fit_cons, Hstep.
Qed.

(** Two steps of the example learner in the random mode mark two more grid
    points; on the two-point grid with both points trialed, the
    acquisition-guided policy returns index 0 and the step fails on the
    assertion, the mask untouched. *)
Lemma step_marks_untrialed_witness :
  (∃ self', fit (H := example_arith) example_log_prob
              [example_oracle_1; example_oracle_2] example_random_learner
            = (self', Ok tt)
     ∧ trialed_count (_trialed_mask self') = 3%nat)
  ∧ (∃ self', step (H := example_arith) example_log_prob example_oracle_3
                example_exhausted_learner = (self', Raise AssertionError)
       ∧ _trialed_mask self' = [true; true]).
Proof.
  split.
  - destruct (fit (H := example_arith) example_log_prob
                [example_oracle_1; example_oracle_2] example_random_learner)
      as [self' r] eqn:Hfit.
    assert (r = Ok tt) as -> by (vm_compute in Hfit; by injection Hfit).
    exists self'. split; [done|].
    destruct (proj1 (step_marks_untrialed (H := example_arith) example_log_prob)
                _ _ _ Hfit)
      as (idxs & _ & _ & _ & _ & ->).
    reflexivity.
  - destruct (choose_next_theta_index (H := example_arith) example_oracle_3
                example_exhausted_learner) as [self1 r] eqn:Hc.
    assert (r = Ok 0%nat) as -> by (vm_compute in Hc; by injection Hc).
    edestruct (proj1 (proj2 (step_marks_untrialed (H := example_arith)
                               example_log_prob))
                 example_oracle_3 example_exhausted_learner self1 0%nat [0])
      as (self' & Hstep & Hmask);
      [exact Hc|reflexivity|reflexivity|vm_compute; reflexivity
      |vm_compute; reflexivity|reflexivity|reflexivity|reflexivity|reflexivity|].
    by exists self'.
Defined.

(** *** C3: the upper-confidence-bound policy *)

Lemma selected_cons {A} (v : A) (a : list A) (b : bool) (mask : list bool) :
  selected (v :: a) (b :: mask)
  = (if b then [v] else []) ++ selected a mask.
Proof. reflexivity. Qed.

Lemma selected_length {A} (a : list A) (mask : list bool) :
  length mask = length a → length (selected a mask) = trialed_count mask.
Proof.
  revert a. induction mask as [|b mask IH]; intros [|v a] Hlen; try done.
  rewrite selected_cons, length_app, IH by (by injection Hlen).
  unfold trialed_count. by destruct b.
Qed.

Lemma trialed_thetas_Ok (self : ActiveLearner) :
  length (_trialed_mask self) = length (all_thetas self) →
  trialed_thetas self = Ok (selected (all_thetas self) (_trialed_mask self)).
Proof.
  intros Hlen. unfold trialed_thetas, bool_index. by rewrite decide_True.
Qed.

(** An entry of the masked array other than [-inf] is an untrialed one. *)
Lemma bool_assign_NegInf (mask : list bool) (a ucb : list fval) (i : nat) (v : fval) :
  bool_assign mask NegInf a = Ok ucb → ucb !! i = Some v → v ≠ NegInf →
  mask !! i = Some false.
Proof.
  unfold bool_assign. case_decide; [|done]. intros [= <-] Hi Hv.
  apply lookup_zip_with_Some in Hi as (b & e & -> & Hb & _).
  by destruct b.
Qed.

Lemma bool_assign_lookup {A} (mask : list bool) (v : A) (a a' : list A) (i : nat)
    (b : bool) :
  bool_assign mask v a = Ok a' → mask !! i = Some b →
  a' !! i = if b then Some v else a !! i.
Proof.
  unfold bool_assign. case_decide as Hlen; [|done]. intros [= <-] Hb.
  assert (is_Some (a !! i)) as [e He].
  { apply lookup_lt_is_Some. rewrite <- Hlen. by eapply lookup_lt_Some. }
  rewrite He. replace (if b then Some v else Some e)
    with (Some (if b then v else e)) by by destruct b.
  apply lookup_zip_with_Some. by exists b, e.
Qed.

(** The arg-max of the masked array is an untrialed index as soon as one
    untrialed entry is not [-inf]. *)
Lemma argmax_masked_untrialed (mask : list bool) (a ucb : list fval) :
  bool_assign mask NegInf a = Ok ucb →
  (∃ i v, mask !! i = Some false ∧ ucb !! i = Some v ∧ v ≠ NegInf) →
  ∃ idx, argmax ucb = Ok idx ∧ mask !! idx = Some false.
Proof.
  intros Hucb (i & v & Hi & Hv & Hne).
  destruct (argmax_nonempty ucb) as [idx Hidx]; [by intros ->|].
  exists idx. split; [done|].
  destruct (argmax_not_NegInf _ _ Hidx) as (w & Hw & Hinf).
  eapply bool_assign_NegInf; [done..|].
  intros ->. specialize (Hinf eq_refl).
  rewrite Forall_lookup in Hinf. by specialize (Hinf i v Hv).
Qed.


(** ** C7: growth of the dataset *)

Lemma expand_app {A} (n m : nat) (a b : option (list A)) :
  (∀ arr, a = Some arr → length arr = n) →
  (is_Some a ↔ is_Some b) →
  expand (n + m) (arr_a ← a; arr_b ← b; Some (arr_a ++ arr_b))
  = expand n a ++ expand m b.
Proof.
  intros Hlen Hsome. destruct a as [arr_a|], b as [arr_b|]; simpl.
  - by rewrite fmap_app.
  - destruct Hsome as [Hs _]. by destruct Hs as [? ?]; [eexists|].
  - destruct Hsome as [_ Hs]. by destruct Hs as [? ?]; [eexists|].
  - by rewrite replicate_add.
Qed.

Lemma RatioDataset_concat_wf (a b : RatioDataset) :
  RatioDataset_wf a → RatioDataset_wf b →
  RatioDataset_wf (RatioDataset_concat a b).
Proof.
  intros (Ha0 & Ha1 & Hay & Han) (Hb0 & Hb1 & Hby & Hbn).
  unfold RatioDataset_wf. simpl. rewrite !length_app.
  split_and!; [lia..| |].
  - intros arr. destruct (y a) as [ya|], (y b) as [yb|]; simpl; try done.
    intros [= <-]. rewrite length_app, (Hay ya), (Hby yb); done.
  - intros arr. destruct (nllr a) as [na|], (nllr b) as [nb|]; simpl; try done.
    intros [= <-]. rewrite length_app, (Han na), (Hbn nb); done.
Qed.

Lemma RatioDataset_concat_examples (a b : RatioDataset) :
  RatioDataset_wf a →
  (is_Some (y a) ↔ is_Some (y b)) → (is_Some (nllr a) ↔ is_Some (nllr b)) →
  RatioDataset_examples (RatioDataset_concat a b)
  = RatioDataset_examples a ++ RatioDataset_examples b.
Proof.
  intros (Ha0 & Ha1 & Hay & Han) Hy Hn.
  unfold RatioDataset_examples. cbv zeta. simpl. rewrite length_app.
  rewrite !expand_app by done.
  assert (∀ o : option (list Qc), (∀ arr, o = Some arr → length arr = length (x a)) →
            length (expand (length (x a)) o) = length (x a)) as Hexp.
  { intros [arr|] Ho; simpl; [rewrite length_fmap; by apply Ho | apply length_replicate]. }
  rewrite !zip_with_app; try done; rewrite ?length_zip_with, ?Hexp; try done; lia.
Qed.

(** C7.  The concatenation of two datasets has as per-example arrays the
    concatenation of the operands' corresponding arrays (an optional array
    when both operands carry it) and as length the sum of the operands'
    lengths; it keeps the length invariant, and its examples are those of the
    first operand followed by those of the second.  A successful [step] of
    the learner replaces its dataset by the reshuffled concatenation of the
    dataset and the fragment simulated at the chosen parameter. *)
Theorem RatioDataset_concat_arrays `{FloatArith} (log_prob : Theta → Row → Qc) :
  (∀ a b : RatioDataset,
     x (RatioDataset_concat a b) = x a ++ x b
     ∧ theta_0s (RatioDataset_concat a b) = theta_0s a ++ theta_0s b
     ∧ theta_1s (RatioDataset_concat a b) = theta_1s a ++ theta_1s b
     ∧ y (RatioDataset_concat a b)
       = match y a, y b with
         | Some ya, Some yb => Some (ya ++ yb)
         | _, _ => None
         end
     ∧ nllr (RatioDataset_concat a b)
       = match nllr a, nllr b with
         | Some na, Some nb => Some (na ++ nb)
         | _, _ => None
         end
     ∧ RatioDataset_len (RatioDataset_concat a b)
       = (RatioDataset_len a + RatioDataset_len b)%nat)
  ∧ (∀ a b : RatioDataset,
       RatioDataset_wf a → RatioDataset_wf b →
       RatioDataset_wf (RatioDataset_concat a b)
       ∧ ((is_Some (y a) ↔ is_Some (y b)) →
          (is_Some (nllr a) ↔ is_Some (nllr b)) →
          RatioDataset_examples (RatioDataset_concat a b)
          = RatioDataset_examples a ++ RatioDataset_examples b))
  ∧ (∀ (o : Oracle) (self self' : ActiveLearner),
       step log_prob o self = (self', Ok tt) →
       ∃ idx next_theta new_ds,
         all_thetas self !! idx = Some next_theta
         ∧ from_simulator log_prob (theta_0 self) (SingleParamIterator next_theta 1)
             (n_samples_per_theta self) (new_draws o) = Ok new_ds
         ∧ RatioDataset_shuffle (reshuffle o)
             (RatioDataset_concat (dataset self) new_ds) = Ok (dataset self')).
Proof.
  split_and!.
  - intros a b. unfold RatioDataset_len. simpl. rewrite length_app.
    split_and!;
      first [done | by destruct (y a), (y b) | by destruct (nllr a), (nllr b)].
  - intros a b Ha Hb. split; [by apply RatioDataset_concat_wf|].
    by apply RatioDataset_concat_examples.
  - intros o self self' Hstep.
    apply step_Ok in Hstep
      as (self1 & idx & next_theta & new_ds & ds & info & m & _ & Hth & Hsim & Hsh
          & _ & _ & _ & _ & _ & ->).
    exists idx, next_theta, new_ds. split_and!; [done..|].
    by rewrite Hsh.
Qed.

(** The first step of the example learner in the random mode grows its two
    examples by the two of the new fragment. *)
Lemma RatioDataset_concat_arrays_witness :
  ∃ self', step (H := example_arith) example_log_prob example_oracle_1
             example_random_learner = (self', Ok tt)
    ∧ RatioDataset_len (dataset self') = 4%nat.
Proof.
  destruct (step (H := example_arith) example_log_prob example_oracle_1
              example_random_learner)
    as [self' r] eqn:Hstep.
  assert (r = Ok tt) as -> by (vm_compute in Hstep; by injection Hstep).
  exists self'. split; [done|].
  destruct (proj2 (proj2 (RatioDataset_concat_arrays (H := example_arith)
                            example_log_prob)) _ _ _ Hstep)
    as (idx & next_theta & new_ds & _ & _ & Hsh).
  by apply RatioDataset_shuffle_wf in Hsh as [_ ->].
Defined.
(** ** C10, C1: the single-reference-parameter construction *)

Lemma assign_slice_length {A} (start stop : nat) (v a a' : list A) :
  assign_slice start stop v a = Ok a' → length a' = length a.
Proof.
  unfold assign_slice. intros H. inv_ok H. subst a'. apply length_inserts.
Qed.

Lemma slice_block {A} (P Z R : list A) :
  slice (length P) (length P + length Z) (P ++ Z ++ R) = Z.
Proof.
  unfold slice. rewrite drop_app_length.
  replace (length P + length Z - length P)%nat with (length Z) by lia.
  apply take_app_length.
Qed.

Lemma broadcast_to_row {A} (m : nat) (r : A) :
  broadcast_to m [r] = Ok (replicate m r).
Proof.
  unfold broadcast_to. case_decide as Hm; [|done]. simpl in Hm. by subst m.
Qed.

(** Writing a block of the right length over the slot [Z]. *)
Lemma assign_slice_block {A} (P Z R v : list A) :
  length v = length Z →
  assign_slice (length P) (length P + length Z) v (P ++ Z ++ R)
  = Ok (P ++ v ++ R).
Proof.
  intros Hv. unfold assign_slice. rewrite slice_block.
  unfold broadcast_to. rewrite decide_True by done. simpl. f_equal.
  rewrite <- (Nat.add_0_r (length P)), list_inserts_app_r.
  by rewrite list_inserts_0_r.
Qed.

Lemma assign_slice_row {A} (P Z R : list A) (r : A) :
  assign_slice (length P) (length P + length Z) [r] (P ++ Z ++ R)
  = Ok (P ++ replicate (length Z) r ++ R).
Proof.
  unfold assign_slice. rewrite slice_block, broadcast_to_row. simpl. f_equal.
  rewrite <- (Nat.add_0_r (length P)), list_inserts_app_r.
  by rewrite list_inserts_0_r by by rewrite length_replicate.
Qed.

Lemma slice_block' {A} (start stop : nat) (P Z R : list A) :
  start = length P → stop = (start + length Z)%nat →
  slice start stop (P ++ Z ++ R) = Z.
Proof. intros -> ->. apply slice_block. Qed.

Lemma assign_slice_block' {A} (start stop : nat) (P Z R v : list A) :
  start = length P → stop = (start + length Z)%nat → length v = length Z →
  assign_slice start stop v (P ++ Z ++ R) = Ok (P ++ v ++ R).
Proof. intros -> ->. apply assign_slice_block. Qed.

Lemma assign_slice_row' {A} (start stop : nat) (P Z R : list A) (r : A) :
  start = length P → stop = (start + length Z)%nat →
  assign_slice start stop [r] (P ++ Z ++ R)
  = Ok (P ++ replicate (length Z) r ++ R).
Proof. intros -> ->. apply assign_slice_row. Qed.

Lemma mapR_broadcast_to_width {A} (w : nat) (v : list (list A)) :
  Forall (λ r, length r = w) v → mapR (broadcast_to w) v = Ok v.
Proof.
  induction 1 as [|r v Hr _ IH]; [done|].
  cbn [mapR]. unfold broadcast_to at 1. rewrite decide_True by done.
  cbn [rbind]. by rewrite IH.
Qed.

Lemma assign_rows_length {A} (start stop : nat) (v a a' : list (list A)) :
  assign_rows start stop v a = Ok a' → length a' = length a.
Proof.
  unfold assign_rows. intros H. inv_ok H. by apply assign_slice_length in H.
Qed.

(** Writing rows of the width of the array over the slot [Z]. *)
Lemma assign_rows_block' {A} (start stop w : nat) (P Z R v : list (list A)) :
  start = length P → stop = (start + length Z)%nat → length v = length Z →
  Forall (λ r, length r = w) (P ++ Z ++ R) → Forall (λ r, length r = w) v →
  assign_rows start stop v (P ++ Z ++ R) = Ok (P ++ v ++ R).
Proof.
  intros Hs Ht Hv Ha Hw. unfold assign_rows.
  destruct (head (P ++ Z ++ R)) as [r|] eqn:Hh.
  - assert (length r = w) as ->.
    { apply head_Some in Hh as [l' Hl']. rewrite Hl' in Ha.
      by apply Forall_cons_1 in Ha as [? _]. }
    rewrite mapR_broadcast_to_width by done. cbn [rbind].
    by apply assign_slice_block'.
  - cbn [rbind]. by apply assign_slice_block'.
Qed.

Ltac side :=
  first [ lia
        | rewrite ?length_fmap;
          repeat match goal with H : ∀ k : nat, length (_ k) = _ |- _ => rewrite !H end;
          lia ].

Section Construction.
Variable log_prob : Theta → Row → Qc.

Lemma init_body_lengths theta_0 x0 n incl i theta_1 x_i st st' :
  init_body log_prob theta_0 x0 n incl i theta_1 x_i st = Ok st' →
  length (b_x1 st') = length (b_x1 st)
  ∧ length (b_theta_1s st') = length (b_theta_1s st)
  ∧ length (ll0_x0 st') = length (ll0_x0 st)
  ∧ length (ll0_x1 st') = length (ll0_x1 st)
  ∧ length (ll1_x0 st') = length (ll1_x0 st)
  ∧ length (ll1_x1 st') = length (ll1_x1 st).
Proof.
  unfold init_body. intros H. inv_ok H; subst st'; simpl;
    repeat match goal with
    | H : assign_slice _ _ _ _ = Ok _ |- _ => apply assign_slice_length in H
    | H : assign_rows _ _ _ _ = Ok _ |- _ => apply assign_rows_length in H
    end; split_and!; congruence.
Qed.

Lemma init_loop_lengths theta_0 x0 n incl samples i thetas st st' :
  init_loop log_prob theta_0 x0 n incl samples i thetas st = Ok st' →
  length (b_x1 st') = length (b_x1 st)
  ∧ length (b_theta_1s st') = length (b_theta_1s st)
  ∧ length (ll0_x0 st') = length (ll0_x0 st)
  ∧ length (ll0_x1 st') = length (ll0_x1 st)
  ∧ length (ll1_x0 st') = length (ll1_x0 st)
  ∧ length (ll1_x1 st') = length (ll1_x1 st).
Proof.
  revert i st. induction thetas as [|theta_1 thetas IH]; intros i st; simpl.
  - by intros [= <-].
  - intros H. inv_ok H. apply init_body_lengths in Ha.
    apply IH in H. destruct Ha as (?&?&?&?&?&?), H as (?&?&?&?&?&?).
    split_and!; congruence.
Qed.

(** The loop never writes the cross terms. *)
Lemma init_loop_cross_terms theta_0 x0 n incl samples i thetas st st' :
  init_loop log_prob theta_0 x0 n incl samples i thetas st = Ok st' →
  ll0_x1 st' = ll0_x1 st ∧ ll1_x0 st' = ll1_x0 st.
Proof.
  revert i st. induction thetas as [|theta_1 thetas IH]; intros i st; simpl.
  - by intros [= <-].
  - intros H. inv_ok H. apply IH in H as [-> ->].
    unfold init_body in Ha. inv_ok Ha; by subst a.
Qed.

(** The loop from iteration [i] on, for draws that honour the simulator
    contract ([n] rows per sample, all of one width [w]) and parameters of
    the width of [theta_0]: the slots [Z] of the blocks are filled one per
    parameter. *)
Lemma init_loop_spec theta_0 n w incl samples thetas :
  ∀ i x0done x0rest Px Zx Pt Zt P0 Z0 P1 Z1 c0 c1,
  length x0done = (i * n)%nat → length x0rest = (length thetas * n)%nat →
  length Px = (i * n)%nat → length Zx = (length thetas * n)%nat →
  length Pt = (i * n)%nat → length Zt = (length thetas * n)%nat →
  length P0 = (i * n)%nat → length Z0 = (length thetas * n)%nat →
  length P1 = (i * n)%nat → length Z1 = (length thetas * n)%nat →
  (∀ k, length (samples k) = n) →
  Forall (λ r, length r = w) (Px ++ Zx) →
  (∀ k, Forall (λ r, length r = w) (samples k)) →
  Forall (λ theta, length theta = length theta_0) thetas →
  init_loop log_prob theta_0 (x0done ++ x0rest) n incl samples i thetas
    {| b_x1 := Px ++ Zx; b_theta_1s := Pt ++ Zt; ll0_x0 := P0 ++ Z0;
       ll0_x1 := c0; ll1_x0 := c1; ll1_x1 := P1 ++ Z1 |}
  = Ok {| b_x1 := Px ++ mjoin (samples <$> seq i (length thetas));
          b_theta_1s := Pt ++ mjoin (replicate n <$> thetas);
          ll0_x0 := P0 ++ (if incl then log_prob theta_0 <$> x0rest else Z0);
          ll0_x1 := c0; ll1_x0 := c1;
          ll1_x1 := P1 ++ (if incl
                           then mjoin (zip_with (λ theta k, log_prob theta <$> samples k)
                                         thetas (seq i (length thetas)))
                           else Z1) |}.
Proof.
  induction thetas as [|theta_1 thetas IH];
    intros i x0done x0rest Px Zx Pt Zt P0 Z0 P1 Z1 c0 c1
      Hx0d Hx0r HPx HZx HPt HZt HP0 HZ0 HP1 HZ1 Hs Hwx Hws Hw.
  - simpl in *. destruct Zx, Zt, Z0, Z1, x0rest; try done. by destruct incl.
  - apply Forall_cons_1 in Hw as [Hw1 Hw]. simpl in Hx0r, HZx, HZt, HZ0, HZ1.
    assert (∀ {A} (Z : list A), length Z = (n + length thetas * n)%nat →
              ∃ Za Zb, Z = Za ++ Zb ∧ length Za = n
                       ∧ length Zb = (length thetas * n)%nat) as Hsplit.
    { intros A Z HZ. exists (take n Z), (drop n Z).
      rewrite take_drop, length_take, length_drop. split_and!; [done|lia..]. }
    destruct (Hsplit _ _ Hx0r) as (Xa & Xb & -> & HXa & HXb).
    destruct (Hsplit _ _ HZx) as (Zxa & Zxb & -> & HZxa & HZxb).
    destruct (Hsplit _ _ HZt) as (Zta & Ztb & -> & HZta & HZtb).
    destruct (Hsplit _ _ HZ0) as (Z0a & Z0b & -> & HZ0a & HZ0b).
    destruct (Hsplit _ _ HZ1) as (Z1a & Z1b & -> & HZ1a & HZ1b).
    clear Hsplit.
    cbn [init_loop]. unfold init_body, Util.ensure_2d. cbn [b_x1 b_theta_1s ll0_x0 ll0_x1 ll1_x0 ll1_x1].
    rewrite (assign_rows_block' _ _ w Px Zxa Zxb (samples i)); [|side|side|side|done..].
    cbn [rbind]. unfold broadcast_to at 1. rewrite decide_True by done. cbn [rbind].
    rewrite (assign_slice_row' _ _ Pt Zta Ztb theta_1); [|side..]. cbn [rbind].
    rewrite HZta.
    assert (init_loop log_prob theta_0 (x0done ++ Xa ++ Xb) n incl samples (S i) thetas
              {| b_x1 := Px ++ samples i ++ Zxb;
                 b_theta_1s := Pt ++ replicate n theta_1 ++ Ztb;
                 ll0_x0 := P0 ++ (if incl then log_prob theta_0 <$> Xa else Z0a) ++ Z0b;
                 ll0_x1 := c0; ll1_x0 := c1;
                 ll1_x1 := P1 ++ (if incl then log_prob theta_1 <$> samples i else Z1a)
                              ++ Z1b |}
            = Ok {| b_x1 := Px ++ mjoin (samples <$> seq i (length (theta_1 :: thetas)));
                    b_theta_1s := Pt ++ mjoin (replicate n <$> theta_1 :: thetas);
                    ll0_x0 := P0 ++ (if incl then log_prob theta_0 <$> Xa ++ Xb
                                     else Z0a ++ Z0b);
                    ll0_x1 := c0; ll1_x0 := c1;
                    ll1_x1 := P1 ++ (if incl
                      then mjoin (zip_with (λ theta k, log_prob theta <$> samples k)
                                    (theta_1 :: thetas)
                                    (seq i (length (theta_1 :: thetas))))
                      else Z1a ++ Z1b) |}) as Hrest.
    { rewrite !(app_assoc _ _ Xb), !(app_assoc _ _ Zxb), !(app_assoc _ _ Ztb),
        !(app_assoc _ _ Z0b), !(app_assoc _ _ Z1b).
      assert (Forall (λ r : Row, length r = w) ((Px ++ samples i) ++ Zxb)) as Hwx'.
      { rewrite !Forall_app in Hwx |- *. destruct Hwx as (? & ? & ?).
        split_and!; done. }
      rewrite IH; try done; rewrite ?length_app, ?length_replicate, ?Hs; try lia.
      - f_equal. simpl. rewrite <- !app_assoc. f_equal.
        + by destruct incl; rewrite ?fmap_app, <- ?app_assoc.
        + by destruct incl; rewrite <- ?app_assoc.
      - destruct incl; rewrite ?length_app, ?length_fmap, ?Hs; lia.
      - destruct incl; rewrite ?length_app, ?length_fmap, ?Hs; lia. }
    destruct incl; [|exact Hrest].
    rewrite (slice_block' _ _ x0done Xa Xb); [|side..].
    rewrite (assign_slice_block' _ _ P0 Z0a Z0b (log_prob theta_0 <$> Xa)); [|side..].
    cbn [rbind].
    rewrite (assign_slice_block' _ _ P0 (log_prob theta_0 <$> Xa) Z0b
               (log_prob theta_0 <$> Xa)); [|side..].
    cbn [rbind].
    rewrite (slice_block' _ _ Px (samples i) Zxb); [|side..].
    rewrite (assign_slice_block' _ _ P1 Z1a Z1b (log_prob theta_1 <$> samples i));
      [|side..].
    cbn [rbind].
    rewrite (assign_slice_block' _ _ P1 (log_prob theta_1 <$> samples i) Z1b
               (log_prob theta_1 <$> samples i)); [|side..].
    cbn [rbind]. exact Hrest.
Qed.

End Construction.

Lemma mjoin_length_uniform {A} (ls : list (list A)) (n : nat) :
  Forall (λ l, length l = n) ls → length (mjoin ls) = (length ls * n)%nat.
Proof.
  induction 1 as [|l ls Hl _ IH]; [done|].
  simpl. rewrite length_app, Hl, IH. lia.
Qed.

Lemma RatioDataset_init_no_shuffle (x0 : list Row) (t0 t1 : list Theta)
    (y0 nllr0 : option (list Qc)) (p : list nat) (ds : RatioDataset) :
  RatioDataset_init x0 t0 t1 y0 nllr0 false p = Ok ds →
  ds = {| x := x0; theta_0s := t0; theta_1s := t1; y := y0; nllr := nllr0 |}.
Proof. unfold RatioDataset_init. case_decide; [done|]. by intros [= <-]. Qed.

Section Construction2.
Variable log_prob : Theta → Row → Qc.

(** Before any shuffle, the alternate-parameter array is the block filled by
    the loop, twice, and the labels are zeros followed by ones. *)
Lemma SinglyParameterizedRatioDataset_init_halves theta_0 it n incl d ds :
  SinglyParameterizedRatioDataset_init log_prob theta_0 it n false incl d = Ok ds →
  ∃ block : list Theta,
    theta_1s ds = block ++ block
    ∧ length block = length (draw_x0 d)
    ∧ y ds = Some (replicate (length block) 0 ++ replicate (length block) 1)
    ∧ RatioDataset_len ds = (2 * length block)%nat.
Proof.
  unfold SinglyParameterizedRatioDataset_init, Util.ensure_2d. intros H.
  cbv zeta in H. inv_ok H.
  apply RatioDataset_init_no_shuffle in H as ->. simpl.
  apply init_loop_lengths in Ha as (Hx1 & Hth & _). simpl in Hx1, Hth.
  rewrite length_fmap in Hx1. rewrite length_replicate, length_fmap in Hth.
  exists (b_theta_1s a). unfold Util.concat_repeat, RatioDataset_len. simpl.
  rewrite app_nil_r, length_app, Hx1, Hth, length_replicate.
  split_and!; [done..|lia].
Qed.

(** The dataset built, before any shuffle, from draws that honour the
    simulator contract: what the listing computes. *)
Lemma SinglyParameterizedRatioDataset_init_spec theta_0 it n w incl d :
  length (draw_x0 d) = (length (values it) * n)%nat →
  (∀ k, length (draw_x1 d k) = n) →
  Forall (λ r, length r = w) (draw_x0 d) →
  (∀ k, Forall (λ r, length r = w) (draw_x1 d k)) →
  Forall (λ theta, length theta = length theta_0) (values it) →
  SinglyParameterizedRatioDataset_init log_prob theta_0 it n false incl d
  = Ok {| x := draw_x0 d ++ mjoin (draw_x1 d <$> seq 0 (length (values it)));
          theta_0s := replicate (2 * length (draw_x0 d)) theta_0;
          theta_1s := mjoin (replicate n <$> values it)
                        ++ mjoin (replicate n <$> values it);
          y := Some (replicate (length (draw_x0 d)) 0
                       ++ replicate (length (draw_x0 d)) 1);
          nllr := if incl then
                    Some ((log_prob theta_0 <$> draw_x0 d)
                            ++ (Qcopp <$> mjoin (zip_with
                                  (λ theta k, log_prob theta <$> draw_x1 d k)
                                  (values it) (seq 0 (length (values it))))))
                  else None |}.
Proof.
  intros Hx0 Hs Hwx Hws Hw.
  unfold SinglyParameterizedRatioDataset_init, Util.ensure_2d. cbv zeta.
  assert (Forall (λ r : Row, length r = w)
            ((λ r : Row, replicate (length r) (0 : Qc)) <$> draw_x0 d)) as Hwz.
  { apply Forall_fmap. eapply Forall_impl; [exact Hwx|].
    intros r Hr. simpl. by rewrite length_replicate. }
  pose proof (init_loop_spec log_prob theta_0 n w incl (draw_x1 d) (values it)
    0 [] (draw_x0 d) []
    ((λ r : Row, replicate (length r) (0 : Qc)) <$> draw_x0 d) []
    (replicate (length ((λ r : Row, replicate (length r) (0 : Qc)) <$> draw_x0 d))
       (replicate (length theta_0) (0 : Qc))) []
    (replicate (length (draw_x0 d)) (0 : Qc)) []
    (replicate (length (draw_x0 d)) (0 : Qc))
    (replicate (length (draw_x0 d)) (0 : Qc))
    (replicate (length (draw_x0 d)) (0 : Qc))) as Hloop.
  cbn [app] in Hloop. rewrite Hloop; clear Hloop;
    rewrite ?length_replicate, ?length_fmap; try done.
  cbn [rbind b_x1 b_theta_1s ll0_x0 ll0_x1 ll1_x0 ll1_x1].
  assert (length (mjoin (draw_x1 d <$> seq 0 (length (values it))))
          = length (draw_x0 d)) as Hx1.
  { rewrite (mjoin_length_uniform _ n), length_fmap, length_seq; [done|].
    apply Forall_fmap, Forall_forall. intros k _. apply Hs. }
  assert (length (mjoin (replicate n <$> values it)) = length (draw_x0 d)) as Hth.
  { rewrite (mjoin_length_uniform _ n), length_fmap; [done|].
    apply Forall_fmap, Forall_forall. intros th _. apply length_replicate. }
  assert (length (mjoin (zip_with (λ theta k, log_prob theta <$> draw_x1 d k)
                          (values it) (seq 0 (length (values it)))))
          = length (draw_x0 d)) as Hll.
  { rewrite (mjoin_length_uniform _ n), length_zip_with, length_seq; [lia|].
    apply Forall_forall. intros l (th & k & -> & _)%elem_of_zip_with.
    by rewrite length_fmap. }
  unfold RatioDataset_init, Util.ensure_2d, Util.stack_repeat, Util.concat_repeat.
  rewrite decide_False.
  - f_equal.
    replace (mjoin (replicate 2 (mjoin (replicate n <$> values it))))
      with (mjoin (replicate n <$> values it) ++ mjoin (replicate n <$> values it))
      by (simpl; by rewrite app_nil_r).
    rewrite length_app, Hx1. f_equal.
    + f_equal. lia.
    + destruct incl; [|done]. f_equal.
      rewrite zip_with_app by by rewrite !length_replicate, ?length_fmap.
      f_equal.
      * rewrite zip_with_replicate_l by by rewrite length_fmap.
        rewrite <- list_fmap_compose. apply list_fmap_ext. intros ? e _. simpl.
        ring.
      * rewrite zip_with_replicate_r by by rewrite Hll.
        apply list_fmap_ext. intros ? l1 _. simpl. ring.
  - intros Hsize. apply Hsize. apply size_list_to_set_1.
    unfold RatioDataset_lens. cbn [from_option app mjoin replicate].
    repeat constructor;
      destruct incl; simpl; repeat constructor;
      rewrite ?app_nil_r, ?length_zip_with, ?length_app, ?length_replicate,
        ?length_fmap, ?Hx1, ?Hth, ?Hll; lia.
Qed.

End Construction2.

(** C10.  Before any shuffle the examples of the first half carry label 0,
    those of the second half label 1, and the [theta_1s] of the first half
    are, element for element and in the same order, the [theta_1s] of the
    second half.  For draws that honour the simulator contract (the
    requested numbers of examples, all of one feature width [w]) the
    construction succeeds and the replicated block holds, per alternate
    parameter, [n_samples_per_theta] copies of that parameter: the label-0
    examples carry the alternate parameters, while [theta_0s] holds the
    reference parameter throughout. *)
Theorem theta_1s_replicated_in_both_halves (log_prob : Theta → Row → Qc) :
  (∀ (theta_0 : Theta) (it : ParamIterator) (n : nat) (incl : bool) (d : Draws)
     (ds : RatioDataset),
     SinglyParameterizedRatioDataset_init log_prob theta_0 it n false incl d = Ok ds →
     ∃ block : list Theta,
       theta_1s ds = block ++ block
       ∧ length block = length (draw_x0 d)
       ∧ y ds = Some (replicate (length block) 0 ++ replicate (length block) 1)
       ∧ RatioDataset_len ds = (2 * length block)%nat)
  ∧ (∀ (theta_0 : Theta) (it : ParamIterator) (n w : nat) (incl : bool)
       (d : Draws),
       length (draw_x0 d) = (length (values it) * n)%nat →
       (∀ k, length (draw_x1 d k) = n) →
       Forall (λ r, length r = w) (draw_x0 d) →
       (∀ k, Forall (λ r, length r = w) (draw_x1 d k)) →
       Forall (λ theta, length theta = length theta_0) (values it) →
       ∃ ds, SinglyParameterizedRatioDataset_init log_prob theta_0 it n false incl d
             = Ok ds
         ∧ theta_1s ds = mjoin (replicate n <$> values it)
                           ++ mjoin (replicate n <$> values it)
         ∧ theta_0s ds = replicate (2 * length (draw_x0 d)) theta_0
         ∧ y ds = Some (replicate (length (draw_x0 d)) 0
                          ++ replicate (length (draw_x0 d)) 1)).
Proof.
  split.
  - intros theta_0 it n incl d ds.
    apply SinglyParameterizedRatioDataset_init_halves.
  - intros theta_0 it n w incl d Hx0 Hs Hwx Hws Hw. eexists. split.
    + by apply (SinglyParameterizedRatioDataset_init_spec _ _ _ _ w).
    + done.
Qed.

(** One alternate parameter, one sample: both examples carry it. *)
Lemma theta_1s_replicated_in_both_halves_witness :
  ∃ ds, SinglyParameterizedRatioDataset_init example_log_prob [0]
          {| values := [[1]] |} 1 false true example_draws = Ok ds
    ∧ theta_1s ds = [[1]; [1]]
    ∧ y ds = Some [0; 1].
Proof.
  destruct (proj2 (theta_1s_replicated_in_both_halves example_log_prob)
              [0] {| values := [[1]] |} 1%nat 1%nat true example_draws)
    as (ds & Hds & Hth & _ & Hy);
    [done|done|by repeat constructor|by repeat constructor
    |by repeat constructor|].
  by exists ds.
Defined.

(** C1 (the listing departs from the claim).  At the reference parameter 0
    and the alternate parameter 1, with the example 0 drawn from the
    reference simulator and the example 2 from the alternate one, the
    constructed nllr is [log p0(0), -log p1(2)] = [0, 1/2], whereas
    [-(log p1(x) - log p0(x))] is [1/2, -3/2]: the two cross terms
    [log p0(x1)] and [log p1(x0)] are never computed. *)
Theorem nllr_omits_cross_terms :
  ∃ ds, SinglyParameterizedRatioDataset_init example_log_prob [0]
          {| values := [[1]] |} 1 false true example_draws = Ok ds
    ∧ x ds = [[0]; [Q2Qc 2]]
    ∧ theta_1s ds = [[1]; [1]]
    ∧ nllr ds = Some [0; Q2Qc (1 # 2)]
    ∧ zip_with (nllr_spec example_log_prob [0]) (theta_1s ds) (x ds)
      = [Q2Qc (1 # 2); Q2Qc (-3 # 2)].
Proof.
  eexists. split; [vm_compute; reflexivity|]. simpl.
  split_and!; try done; repeat f_equal; apply Qc_is_canon; reflexivity.
Qed.

(** ** C4: the parameter scan *)

(** *** Splitting and joining *)

Local Close Scope Qc_scope.

Lemma split_sizes_join {A} (blocks : list (list A)) :
  split_sizes (length <$> blocks) (mjoin blocks) = blocks.
Proof.
  induction blocks as [|b blocks IH]; [done|].
  rewrite fmap_cons. cbn [split_sizes].
  change (mjoin (b :: blocks)) with (b ++ mjoin blocks).
  rewrite take_app_length, drop_app_length. by f_equal.
Qed.

Lemma join_split_sizes {A} (sizes : list nat) (a : list A) :
  sum_list sizes = length a → mjoin (split_sizes sizes a) = a.
Proof.
  revert a. induction sizes as [|s sizes IH]; intros a Hsum; simpl in *.
  - symmetry. by apply nil_length_inv.
  - rewrite IH; [apply take_drop|]. rewrite length_drop. lia.
Qed.

Lemma split_sizes_nonempty {A} (sizes : list nat) (a : list A) :
  (sum_list sizes ≤ length a)%nat → Forall (λ s, 0 < s)%nat sizes →
  Forall (λ b, b ≠ []) (split_sizes sizes a).
Proof.
  revert a. induction sizes as [|s sizes IH]; intros a Hsum Hpos; simpl in *.
  - constructor.
  - apply Forall_cons_1 in Hpos as [Hs Hpos]. constructor.
    + intros Hnil. apply (f_equal length) in Hnil.
      rewrite length_take in Hnil. simpl in Hnil. lia.
    + apply IH; [|done]. rewrite length_drop. lia.
Qed.

(** [np.array_split] into at most [len(a)] groups: no group is empty and the
    groups, in order, make up the array. *)
Lemma array_split_spec {A} (a : list A) (k : Z) :
  (0 < k ≤ Z.of_nat (length a))%Z →
  ∃ groups, array_split a k = Ok groups
    ∧ length groups = Z.to_nat k
    ∧ Forall (λ b, b ≠ []) groups
    ∧ mjoin groups = a.
Proof.
  intros [Hk0 Hk]. unfold array_split. rewrite decide_False by lia.
  set (k' := Z.to_nat k). assert (0 < k' ≤ length a)%nat as [Hk'0 Hk'] by lia.
  clearbody k'. eexists. split; [done|].
  pose proof (Nat.div_mod_eq (length a) k') as Hdm.
  pose proof (Nat.mod_upper_bound (length a) k') as Hmod.
  assert (0 < length a / k')%nat as Hdiv by (apply Nat.div_str_pos; lia).
  assert (sum_list (replicate (length a `mod` k') (S (length a / k'))
                      ++ replicate (k' - length a `mod` k') (length a / k'))
          = length a) as Hsum.
  { rewrite sum_list_with_app, !sum_list_replicate. nia. }
  split_and!.
  - assert (∀ sizes (l : list A), length (split_sizes sizes l) = length sizes) as Hl.
    { intros sizes. induction sizes as [|s sizes IH]; intros l; simpl; [done|].
      by rewrite IH. }
    rewrite Hl, length_app, !length_replicate. lia.
  - apply split_sizes_nonempty; [lia|].
    apply Forall_app. split; apply Forall_replicate; lia.
  - by apply join_split_sizes.
Qed.

Lemma zip_with_app_blocks (X : list Row) (group : list Theta) :
  zip_with app (mjoin (replicate (length group) X))
               (mjoin ((λ theta, replicate (length X) theta) <$> group))
  = mjoin ((λ theta, (λ e, e ++ theta) <$> X) <$> group).
Proof.
  induction group as [|theta group IH]; [done|].
  rewrite fmap_cons. cbn [length replicate].
  change (mjoin (?b :: ?bs)) with (b ++ mjoin bs).
  rewrite zip_with_app by by rewrite length_replicate.
  rewrite IH. f_equal. rewrite zip_with_replicate_r by done. done.
Qed.

Lemma split_uniform {A} (blocks : list (list A)) (m : nat) :
  blocks ≠ [] → Forall (λ b, length b = m) blocks →
  split (mjoin blocks) (length blocks) = Ok blocks.
Proof.
  intros Hne Hm. unfold split.
  assert (length (mjoin blocks) = m * length blocks) as Hlen.
  { rewrite (mjoin_length_uniform _ m) by done. lia. }
  assert (length blocks ≠ 0) as Hk by by destruct blocks.
  rewrite decide_False by done. rewrite Hlen.
  rewrite decide_False by (rewrite Nat.Div0.mod_mul; lia).
  rewrite Nat.div_mul by done. f_equal.
  assert (replicate (length blocks) m = length <$> blocks) as ->.
  { clear Hne Hlen Hk. induction Hm as [|b blocks Hb _ IH]; [done|].
    simpl. by rewrite Hb, IH. }
  apply split_sizes_join.
Qed.

Local Open Scope Qc_scope.

Section Scan.
Variable predict_proba : list Row → result (list Qc).
Variable estimated_likelihood_ratio : list Qc → list Qc.
Variable estimated_log_likelihood_ratio : list Qc → list Qc.
Variable proba : Row → Qc.
Variable log_ratio : Qc → Qc.
Hypothesis Hrow : row_wise predict_proba proba.
Hypothesis Helt : element_wise estimated_log_likelihood_ratio log_ratio.

Notation nllr_of := (nllr_of proba log_ratio).

(** One group of parameters: for each of them the sum, over all observed
    examples, of the negated log ratio. *)
Lemma param_scan_group_spec (X_true : list Row) (theta_group : list Theta) :
  theta_group ≠ [] →
  param_scan_group predict_proba estimated_likelihood_ratio
    estimated_log_likelihood_ratio X_true theta_group
  = Ok (nllr_of X_true <$> theta_group).
Proof.
  intros Hne. unfold param_scan_group, concatenate, Util.tile_reshape,
    Util.concat_repeat.
  destruct (_ <$> theta_group) as [|b bs] eqn:Hb.
  { by destruct theta_group. }
  rewrite <- Hb. clear Hb b bs. cbn [rbind].
  unfold predict, build_singly_parameterized_input, Util.ensure_2d.
  rewrite decide_True.
  2:{ rewrite (mjoin_length_uniform _ (length X_true)), length_replicate.
      - rewrite (mjoin_length_uniform _ (length X_true)), length_fmap; [done|].
        apply Forall_fmap, Forall_forall. intros ? _. apply length_replicate.
      - by apply Forall_replicate. }
  cbn [rbind]. rewrite zip_with_app_blocks. unfold _predict.
  rewrite Hrow. cbn [rbind]. rewrite Helt.
  rewrite <- !list_fmap_compose.
  assert ((Qcopp ∘ log_ratio ∘ proba) <$>
            mjoin ((λ theta, (λ e, e ++ theta) <$> X_true) <$> theta_group)
          = mjoin ((λ theta, (λ e, - log_ratio (proba (e ++ theta))) <$> X_true)
                     <$> theta_group)) as ->.
  { clear Hne. induction theta_group as [|theta group IH]; [done|].
    rewrite !fmap_cons. change (mjoin (?b :: ?bs)) with (b ++ mjoin bs).
    rewrite fmap_app, IH. f_equal. by rewrite <- list_fmap_compose. }
  replace (length theta_group)
    with (length ((λ theta, (λ e, - log_ratio (proba (e ++ theta))) <$> X_true)
                    <$> theta_group)) by by rewrite length_fmap.
  rewrite (split_uniform _ (length X_true)).
  - cbn [rbind]. f_equal. by rewrite <- list_fmap_compose.
  - by destruct theta_group.
  - apply Forall_fmap, Forall_forall. intros ? _. simpl. by rewrite length_fmap.
Qed.

Lemma param_scan_loop_spec (X_true : list Row) (theta_groups : list (list Theta))
    (acc : list Qc) :
  Forall (λ b, b ≠ []) theta_groups →
  param_scan_loop predict_proba estimated_likelihood_ratio
    estimated_log_likelihood_ratio X_true theta_groups acc
  = Ok (acc ++ (nllr_of X_true <$> mjoin theta_groups)).
Proof.
  intros Hne. revert acc. induction Hne as [|b bs Hb _ IH]; intros acc; simpl.
  - by rewrite app_nil_r.
  - rewrite param_scan_group_spec by done. cbn [rbind].
    by rewrite IH, fmap_app, app_assoc.
Qed.

End Scan.

(** *** The arg-min and the mesh-grid shape *)



Local Close Scope Qc_scope.

(** *** The mesh-grid shape and the swap of the first two axes *)








Local Open Scope Qc_scope.






(** * Further properties *)

(** ** [ParamGrid]: size and errors *)

Lemma Qc_of_nat_ne_0 (n : nat) : (0 < n)%nat → Np.Qc_of_nat n ≠ 0.
Proof.
  intros Hn H. unfold Np.Qc_of_nat, Qc_of_Z in H.
  apply (f_equal this) in H. simpl in H.
  injection H as H. lia.
Qed.

Lemma mapR_is_Ok {A B} (f : A → result B) (l : list A) :
  Forall (λ a, ∃ b, f a = Ok b) l → ∃ k, mapR f l = Ok k.
Proof.
  induction 1 as [|a l [b Hb] _ [k Hk]]; [by exists []|].
  exists (b :: k). simpl. by rewrite Hb, Hk.
Qed.

Lemma product_widths {A} (ls : list (list A)) :
  Forall (λ v, length v = length ls) (Np.product ls).
Proof.
  induction ls as [|l ls IH]; [by repeat constructor|].
  cbn [Np.product]. apply Forall_forall. intros v Hv.
  apply list_elem_of_bind in Hv as (a & Hv & _).
  apply list_elem_of_fmap in Hv as (w & -> & Hw).
  rewrite Forall_forall in IH. simpl. by rewrite (IH w Hw).
Qed.

Lemma ParamGrid_init_lengths bounds num g :
  ParamGrid_init bounds num = Ok g →
  length (linspaces g) = length bounds
  ∧ (length bounds ≤ length (ParamGrid_counts bounds num))%nat
  ∧ Forall (λ n, 0 ≤ n)%Z (take (length bounds) (ParamGrid_counts bounds num))
  ∧ length <$> linspaces g
    = Z.to_nat <$> take (length bounds) (ParamGrid_counts bounds num).
Proof.
  intros [Hv Hl]%ParamGrid_init_Ok. fold (ParamGrid_counts bounds num) in Hl.
  assert (length (linspaces g) = length bounds) as Hlen.
  { apply Forall2_length in Hl. by rewrite length_imap in Hl. }
  assert (∀ i, (i < length bounds)%nat →
            ∃ n l, ParamGrid_counts bounds num !! i = Some n ∧ (0 ≤ n)%Z
                   ∧ linspaces g !! i = Some l ∧ length l = Z.to_nat n) as Hi.
  { intros i Hi. destruct (lookup_lt_is_Some_2 bounds i Hi) as [[lo hi] Hb].
    destruct (lookup_lt_is_Some_2 (linspaces g) i) as [l Hgl]; [by rewrite Hlen|].
    eapply (Forall2_lookup_lr _ _ _ i (i, (lo, hi)) l) in Hl; [| |done].
    2:{ by rewrite list_lookup_imap, Hb. }
    destruct Hl as (n & Hn & Hlin). exists n, l. split_and!; [done| |done|].
    - unfold Np.linspace in Hlin. case_decide; [done|lia].
    - by eapply linspace_length. }
  split_and!; [done| | |].
  - destruct (decide (length bounds ≤ length (ParamGrid_counts bounds num))%nat)
      as [|Hn]; [done|].
    destruct (Hi (length (ParamGrid_counts bounds num))) as (n & _ & Hc & _); [lia|].
    apply lookup_lt_Some in Hc. lia.
  - apply Forall_lookup. intros i n [Hc Hlt]%lookup_take_Some.
    destruct (Hi i Hlt) as (n' & _ & Hn' & Hpos & _). congruence.
  - apply list_eq. intros i. rewrite !list_lookup_fmap.
    destruct (decide (i < length bounds)%nat) as [Hlt|Hge].
    + destruct (Hi i Hlt) as (n & l & Hn & _ & Hgl & Hll).
      rewrite lookup_take_lt, Hn, Hgl by done. simpl. by rewrite Hll.
    + rewrite (lookup_ge_None_2 (linspaces g)) by lia.
      by rewrite lookup_take_ge by lia.
Qed.

(** X2.  [ParamGrid(bounds, num)] succeeds exactly when every dimension has
    a count and no count it reads is negative; the grid then has as many
    points as the product of the counts and every point has one coordinate
    per dimension.  A negative shared count raises [ValueError] (unless there
    is no dimension) and a sequence of non-negative counts shorter than
    [bounds] raises [IndexError]. *)
Theorem ParamGrid_init_size_and_errors (bounds : list (Qc * Qc)) (num : Z + list Z) :
  ((∃ g, ParamGrid_init bounds num = Ok g)
   ↔ (length bounds ≤ length (ParamGrid_counts bounds num))%nat
     ∧ Forall (λ n, 0 ≤ n)%Z (take (length bounds) (ParamGrid_counts bounds num)))
  ∧ (∀ g, ParamGrid_init bounds num = Ok g →
       length (values g)
       = Np.size (Z.to_nat <$> take (length bounds) (ParamGrid_counts bounds num))
       ∧ Forall (λ theta, length theta = length bounds) (values g))
  ∧ (∀ n, num = inl n → (n < 0)%Z → bounds ≠ [] →
       ParamGrid_init bounds num = Raise ValueError)
  ∧ (∀ ns, num = inr ns → Forall (λ n, 0 ≤ n)%Z ns →
       (length ns < length bounds)%nat →
       ParamGrid_init bounds num = Raise IndexError).
Proof.
  split_and!.
  - split.
    + intros [g Hg]. apply ParamGrid_init_lengths in Hg as (_ & ? & ? & _). done.
    + intros [Hlen Hpos]. unfold ParamGrid_init.
      fold (ParamGrid_counts bounds num).
      destruct (mapR_is_Ok
        (λ ib : nat * (Qc * Qc),
           let! n := or_raise IndexError (ParamGrid_counts bounds num !! ib.1) in
           Np.linspace ib.2.1 ib.2.2 n) (imap pair bounds)) as [ls Hls].
      * apply Forall_lookup. intros i ib Hib.
        rewrite list_lookup_imap in Hib.
        destruct (bounds !! i) as [b|] eqn:Hb; [|done]. injection Hib as <-.
        apply lookup_lt_Some in Hb as Hlt.
        destruct (lookup_lt_is_Some_2 (ParamGrid_counts bounds num) i) as [n Hn];
          [lia|].
        simpl. rewrite Hn. simpl. unfold Np.linspace.
        rewrite decide_False; [by eexists|].
        rewrite Forall_lookup in Hpos.
        specialize (Hpos i n). rewrite lookup_take_lt in Hpos by done.
        specialize (Hpos Hn). lia.
      * rewrite Hls. by eexists.
  - intros g Hg. pose proof Hg as [Hv _]%ParamGrid_init_Ok.
    apply ParamGrid_init_lengths in Hg as (Hlen & _ & _ & Hls).
    rewrite Hv, product_length, Hls. split; [done|].
    rewrite <- Hlen. apply product_widths.
  - intros n -> Hn Hb. destruct bounds as [|[lo hi] bounds]; [done|].
    unfold ParamGrid_init. simpl. unfold Np.linspace.
    by rewrite decide_True by done.
  - intros ns -> Hpos Hlt. unfold ParamGrid_init.
    assert (∀ (bs : list (Qc * Qc)) (k : nat),
              (length ns < k + length bs)%nat → (k ≤ length ns)%nat →
              Forall (λ n, 0 ≤ n)%Z ns →
              mapR (λ ib : nat * (Qc * Qc),
                      let! n := or_raise IndexError (ns !! ib.1) in
                      Np.linspace ib.2.1 ib.2.2 n) (imap (pair ∘ (λ i, k + i)%nat) bs)
              = Raise IndexError) as Haux.
    { intros bs. induction bs as [|b bs IH]; intros k Hk Hk' Hp; [simpl in Hk; lia|].
      simpl. rewrite Nat.add_0_r.
      destruct (ns !! k) as [n|] eqn:Hn; simpl; [|done].
      unfold Np.linspace at 1. rewrite decide_False.
      2:{ rewrite Forall_lookup in Hp. specialize (Hp k n Hn). lia. }
      simpl.
      rewrite (imap_ext _ (pair ∘ (λ i, S k + i)%nat)).
      2:{ intros i x _. simpl. f_equal. lia. }
      apply lookup_lt_Some in Hn. simpl in Hk.
      rewrite IH; [done|lia|lia|done]. }
    specialize (Haux bounds 0%nat). cbv zeta.
    rewrite (imap_ext pair (pair ∘ (λ i, 0 + i)%nat)) by done.
    rewrite Haux; [done|lia|lia|done].
Qed.

(** Two dimensions with three and four points: twelve grid points. *)
Lemma ParamGrid_init_size_and_errors_witness :
  ∃ g, ParamGrid_init [(0, 1); (0, Q2Qc 3)] (inr [3%Z; 4%Z]) = Ok g
    ∧ length (values g) = 12%nat.
Proof.
  destruct (proj2 (proj1 (ParamGrid_init_size_and_errors
              [(0, 1); (0, Q2Qc 3)] (inr [3%Z; 4%Z])))) as [g Hg].
  - split; [simpl; lia|]. simpl. repeat constructor; lia.
  - exists g. split; [done|].
    by destruct (proj1 (proj2 (ParamGrid_init_size_and_errors
                   [(0, 1); (0, Q2Qc 3)] (inr [3%Z; 4%Z]))) g Hg) as [-> _].
Defined.

(** ** [RatioDataset.shuffle]: composition, identity and bounds *)

Local Close Scope Qc_scope.

(** Indexing twice is indexing once with the composed index array. *)
Lemma take_compose {A} (a a1 : list A) (p q : list nat) :
  Np.take a p = Ok a1 →
  Np.take a1 q = let! pq := Np.take p q in Np.take a pq.
Proof.
  intros Ha%take_Ok. unfold Np.take. induction q as [|j q IH]; [done|].
  cbn [mapR].
  destruct (a1 !! j) as [v|] eqn:Hj.
  - destruct (Forall2_lookup_r _ _ _ _ _ Ha Hj) as (i & Hi & Hv).
    rewrite Hi. cbn [or_raise rbind]. rewrite IH.
    destruct (mapR (λ i, or_raise IndexError (p !! i)) q) as [r|e];
      cbn [rbind mapR]; [|done].
    by rewrite Hv.
  - apply lookup_ge_None in Hj. apply Forall2_length in Ha.
    by rewrite (lookup_ge_None_2 p j) by lia.
Qed.

Lemma take_option_compose {A} (o o1 : option (list A)) (p q pq : list nat) :
  Np.take p q = Ok pq →
  match o with
  | Some arr => let! arr' := Np.take arr p in Ok (Some arr')
  | None => Ok None
  end = Ok o1 →
  match o1 with
  | Some arr => let! arr' := Np.take arr q in Ok (Some arr')
  | None => Ok None
  end
  = match o with
    | Some arr => let! arr' := Np.take arr pq in Ok (Some arr')
    | None => Ok None
    end.
Proof.
  intros Hpq Ho. destruct o as [arr|]; [|by injection Ho as <-].
  inv_ok Ho. subst o1. by rewrite (take_compose _ _ p q Ha), Hpq.
Qed.

Lemma take_seq {A} (a : list A) (n : nat) :
  length a = n → Np.take a (seq 0 n) = Ok a.
Proof.
  intros <-. destruct (take_in_range a (seq 0 (length a))) as [a' Ha'].
  - apply Forall_forall. intros i Hi%elem_of_seq. lia.
  - rewrite Ha'. f_equal. apply take_all. by apply take_Ok.
Qed.

Lemma take_out_of_range {A} (a : list A) (p : list nat) :
  Exists (λ i, length a ≤ i) p → Np.take a p = Raise IndexError.
Proof.
  unfold Np.take. induction 1 as [i p Hi|i p _ IH]; cbn [mapR].
  - by rewrite (lookup_ge_None_2 a i).
  - destruct (a !! i); [|done]. cbn [or_raise rbind]. by rewrite IH.
Qed.

Lemma RatioDataset_shuffle_seq (ds : RatioDataset) :
  RatioDataset_wf ds →
  RatioDataset_shuffle (seq 0 (RatioDataset_len ds)) ds = Ok ds.
Proof.
  intros (H0 & H1 & Hy & Hn). unfold RatioDataset_shuffle, RatioDataset_len.
  destruct ds as [dx d0 d1 dy dn]; cbn [x theta_0s theta_1s y nllr] in *.
  rewrite !take_seq by done. cbn [rbind].
  destruct dy as [dy|], dn as [dn|]; rewrite ?take_seq by auto; done.
Qed.

Lemma RatioDataset_shuffle_shuffle (ds ds1 : RatioDataset) (p q : list nat) :
  RatioDataset_shuffle p ds = Ok ds1 →
  RatioDataset_shuffle q ds1
  = let! pq := Np.take p q in RatioDataset_shuffle pq ds.
Proof.
  intros H. unfold RatioDataset_shuffle in H. inv_ok H. subst ds1.
  unfold RatioDataset_shuffle. cbn [x theta_0s theta_1s y nllr].
  rewrite (take_compose _ _ p q Ha).
  destruct (Np.take p q) as [pq|e] eqn:Hpq; [|done]. cbn [rbind].
  rewrite (take_compose _ _ p q Ha0), (take_compose _ _ p q Ha1), Hpq.
  cbn [rbind].
  by rewrite (take_option_compose _ _ p q pq Hpq Ha2),
    (take_option_compose _ _ p q pq Hpq Ha3).
Qed.

Local Open Scope Qc_scope.

(** X3.  Shuffling with the index array [p] and then with [q] is shuffling
    once with [p[q]]; the identity index array leaves a dataset unchanged, so
    that shuffling with an inverse of [p] undoes a shuffle with [p]; an index
    beyond the last example raises [IndexError]. *)
Theorem RatioDataset_shuffle_compose (ds : RatioDataset) (p : list nat) :
  (∀ ds1 q, RatioDataset_shuffle p ds = Ok ds1 →
     RatioDataset_shuffle q ds1
     = let! pq := Np.take p q in RatioDataset_shuffle pq ds)
  ∧ (RatioDataset_wf ds →
     RatioDataset_shuffle (seq 0 (RatioDataset_len ds)) ds = Ok ds)
  ∧ (∀ ds1 q, RatioDataset_wf ds → RatioDataset_shuffle p ds = Ok ds1 →
       Np.take p q = Ok (seq 0 (RatioDataset_len ds)) →
       RatioDataset_shuffle q ds1 = Ok ds)
  ∧ (Exists (λ i, RatioDataset_len ds ≤ i)%nat p →
     RatioDataset_shuffle p ds = Raise IndexError).
Proof.
  split_and!.
  - intros ds1 q. apply RatioDataset_shuffle_shuffle.
  - apply RatioDataset_shuffle_seq.
  - intros ds1 q Hwf Hp Hq.
    rewrite (RatioDataset_shuffle_shuffle _ _ _ _ Hp), Hq. cbn [rbind].
    by apply RatioDataset_shuffle_seq.
  - intros Hex. unfold RatioDataset_shuffle.
    by rewrite take_out_of_range.
Qed.

(** Three examples rotated by [2; 0; 1] and then by its inverse
    [1; 2; 0]. *)
Lemma RatioDataset_shuffle_compose_witness :
  ∃ ds1, RatioDataset_shuffle [2; 0; 1]%nat
           {| x := [[0]; [1]; [Q2Qc 2]]; theta_0s := [[0]; [0]; [0]];
              theta_1s := [[1]; [1]; [1]]; y := Some [0; 1; 1]; nllr := None |}
         = Ok ds1
    ∧ RatioDataset_shuffle [1; 2; 0]%nat ds1
      = Ok {| x := [[0]; [1]; [Q2Qc 2]]; theta_0s := [[0]; [0]; [0]];
              theta_1s := [[1]; [1]; [1]]; y := Some [0; 1; 1]; nllr := None |}.
Proof.
  eexists. split; [reflexivity|].
  apply (proj1 (proj2 (proj2 (RatioDataset_shuffle_compose
    {| x := [[0]; [1]; [Q2Qc 2]]; theta_0s := [[0]; [0]; [0]];
       theta_1s := [[1]; [1]; [1]]; y := Some [0; 1; 1]; nllr := None |}
    [2; 0; 1]%nat)))).
  - unfold RatioDataset_wf. simpl. split_and!; [done..| |done].
    by intros arr [= <-].
  - reflexivity.
  - reflexivity.
Defined.

(** ** [UnparameterizedRatioDataset]: balanced labels *)

Lemma concatenate_rows_Ok (a b : list Row) (w : nat) :
  Forall (λ r, length r = w) (a ++ b) → concatenate_rows a b = Ok (a ++ b).
Proof.
  unfold concatenate_rows. intros H. destruct (a ++ b) as [|r rs]; [done|].
  apply Forall_cons_1 in H as [Hr H]. rewrite decide_True; [done|].
  eapply Forall_impl; [exact H|]. intros r' Hr'. simpl in *. congruence.
Qed.

Lemma concatenate_rows_inv (a b k : list Row) :
  concatenate_rows a b = Ok k → k = a ++ b.
Proof.
  unfold concatenate_rows. destruct (a ++ b) as [|r rs]; [by intros [= <-]|].
  case_decide; [by intros [= <-]|done].
Qed.

(** The examples of the unshuffled two-parameter dataset. *)
Lemma Unparameterized_examples (x0 x1 : list Row) (theta_0 theta_1 : Theta) :
  length x1 = length x0 →
  RatioDataset_examples
    {| x := x0 ++ x1;
       theta_0s := replicate (length (x0 ++ x1)) theta_0;
       theta_1s := replicate (length (x0 ++ x1)) theta_1;
       y := Some (replicate (length x0) 0 ++ replicate (length x0) 1);
       nllr := None |}
  = ((λ e, (e, (theta_0, (theta_1, (Some 0, None))))) <$> x0)
      ++ ((λ e, (e, (theta_0, (theta_1, (Some 1, None))))) <$> x1).
Proof.
  intros Hlen. unfold RatioDataset_examples. cbv zeta.
  cbn [x theta_0s theta_1s y nllr expand].
  rewrite zip_with_replicate_r
    by (rewrite ?length_zip_with, ?length_fmap, ?length_app, ?length_replicate, ?Hlen; lia).
  rewrite zip_with_replicate_l
    by (rewrite ?length_zip_with, ?length_fmap, ?length_app, ?length_replicate, ?Hlen; lia).
  rewrite zip_with_replicate_l
    by (rewrite ?length_zip_with, ?length_fmap, ?length_app, ?length_replicate, ?Hlen; lia).
  rewrite <- !list_fmap_compose, fmap_app, !fmap_replicate.
  rewrite zip_with_app by (by rewrite length_replicate).
  rewrite <- Hlen at 2.
  by rewrite !zip_with_replicate_r by done.
Qed.

(** X4.  [UnparameterizedRatioDataset] pairs every sample of the reference
    simulator with label 0 and every sample of the alternate simulator with
    label 1, all with the same two parameters: unshuffled, the reference
    samples come first; shuffled, the examples are a permutation of these.
    The labels are laid out for equally many samples of both: if the two
    simulators return different numbers of samples the construction raises
    [ValueError]. *)
Theorem UnparameterizedRatioDataset_init_balanced (theta_0 theta_1 : Theta)
    (shuffle : bool) (d : Draws) (w : nat) :
  Forall (λ r, length r = w) (draw_x0 d ++ draw_x1 d 0) →
  (length (draw_x1 d 0) ≠ length (draw_x0 d) →
   UnparameterizedRatioDataset_init theta_0 theta_1 shuffle d = Raise ValueError)
  ∧ (length (draw_x1 d 0) = length (draw_x0 d) →
     (shuffle = true → draw_perm d ≡ₚ seq 0 (2 * length (draw_x0 d))) →
     ∃ ds, UnparameterizedRatioDataset_init theta_0 theta_1 shuffle d = Ok ds
       ∧ RatioDataset_len ds = (2 * length (draw_x0 d))%nat
       ∧ nllr ds = None
       ∧ RatioDataset_examples ds
         ≡ₚ ((λ e, (e, (theta_0, (theta_1, (Some 0, None))))) <$> draw_x0 d)
              ++ ((λ e, (e, (theta_0, (theta_1, (Some 1, None))))) <$> draw_x1 d 0)
       ∧ (shuffle = false →
          RatioDataset_examples ds
          = ((λ e, (e, (theta_0, (theta_1, (Some 0, None))))) <$> draw_x0 d)
              ++ ((λ e, (e, (theta_0, (theta_1, (Some 1, None))))) <$> draw_x1 d 0))).
Proof.
  intros Hw. unfold UnparameterizedRatioDataset_init. cbv zeta.
  rewrite (concatenate_rows_Ok _ _ w Hw). cbn [rbind].
  unfold Util.stack_repeat. rewrite length_replicate. split.
  - intros Hne. unfold RatioDataset_init, Util.ensure_2d.
    rewrite decide_True; [done|]. intros Hsize.
    apply size_list_to_set_1 in Hsize. unfold RatioDataset_lens in Hsize.
    apply Forall_cons_1 in Hsize as [_ Hsize].
    apply Forall_cons_1 in Hsize as [_ Hsize]. simpl in Hsize.
    apply Forall_cons_1 in Hsize as [Hsize _].
    rewrite !length_app, !length_replicate in Hsize. lia.
  - intros Hlen Hp.
    set (ds0 := {| x := draw_x0 d ++ draw_x1 d 0;
                   theta_0s := replicate (length (draw_x0 d ++ draw_x1 d 0)) theta_0;
                   theta_1s := replicate (length (draw_x0 d ++ draw_x1 d 0)) theta_1;
                   y := Some (replicate (length (draw_x0 d)) 0
                                ++ replicate (length (draw_x0 d)) 1);
                   nllr := None |}).
    assert (RatioDataset_wf ds0) as Hwf.
    { unfold RatioDataset_wf, ds0. simpl. split_and!; [by rewrite length_replicate..| |done].
      intros arr [= <-]. rewrite !length_app, !length_replicate. lia. }
    assert (length (x ds0) = (2 * length (draw_x0 d))%nat) as Hlen0.
    { unfold ds0. simpl. rewrite length_app. lia. }
    unfold RatioDataset_init, Util.ensure_2d. rewrite decide_False.
    2:{ intros Hsize. apply Hsize. apply size_list_to_set_1.
        apply RatioDataset_lens_same in Hwf. by apply Forall_cons_1 in Hwf as [_ ?]. }
    fold ds0.
    pose proof (Unparameterized_examples (draw_x0 d) (draw_x1 d 0) theta_0 theta_1 Hlen)
      as Hex. fold ds0 in Hex.
    destruct shuffle.
    + specialize (Hp eq_refl). rewrite <- Hlen0 in Hp.
      pose proof (Permutation_seq_in_range _ _ Hp) as Hrange.
      destruct (RatioDataset_shuffle_in_range _ ds0 Hwf Hrange) as [ds Hs].
      exists ds. split; [done|].
      pose proof (RatioDataset_shuffle_examples _ _ _ Hrange Hs) as Hpe.
      destruct (RatioDataset_shuffle_wf _ _ _ Hs) as [_ Hl].
      apply RatioDataset_shuffle_Ok in Hs as (_ & _ & _ & _ & Hn).
      split_and!.
      * rewrite Hl, <- Hlen0. apply Permutation_length in Hp.
        by rewrite Hp, length_seq.
      * simpl in Hn. by destruct (nllr ds).
      * rewrite <- Hex. eapply take_Permutation; [|exact Hpe].
        by rewrite RatioDataset_examples_length.
      * done.
    + exists ds0. split_and!; [done|exact Hlen0|done|by rewrite Hex|done].
Qed.

(** Two samples per simulator, shuffled. *)
Lemma UnparameterizedRatioDataset_init_balanced_witness :
  ∃ ds, UnparameterizedRatioDataset_init [0] [1] true
          {| draw_x0 := [[0]; [Q2Qc 2]]; draw_x1 := λ _, [[1]; [Q2Qc 3]];
             draw_perm := [1; 0; 2; 3]%nat |} = Ok ds
    ∧ RatioDataset_len ds = 4%nat.
Proof.
  destruct (proj2 (UnparameterizedRatioDataset_init_balanced [0] [1] true
              {| draw_x0 := [[0]; [Q2Qc 2]]; draw_x1 := λ _, [[1]; [Q2Qc 3]];
                 draw_perm := [1; 0; 2; 3]%nat |} 1%nat
              ltac:(by repeat constructor)))
    as (ds & Hds & Hlen & _).
  - done.
  - intros _. simpl. apply perm_swap.
  - by exists ds.
Defined.

(** ** [build_input]: the joint input of a dataset *)

Lemma take_zip_with {A B C} (f : A → B → C) (a a' : list A) (b b' : list B)
    (p : list nat) :
  Forall2 (λ i v, a !! i = Some v) p a' →
  Forall2 (λ i v, b !! i = Some v) p b' →
  Forall2 (λ i v, zip_with f a b !! i = Some v) p (zip_with f a' b').
Proof.
  intros Ha. revert b'. induction Ha as [|i v p a' Hv _ IH]; intros b' Hb.
  - apply Forall2_nil_inv_l in Hb as ->. constructor.
  - apply Forall2_cons_inv_l in Hb as (w & b'' & Hw & Hb'' & ->).
    cbn [zip_with]. constructor; [|by apply IH].
    apply lookup_zip_with_Some. eauto.
Qed.

(** X5.  On a dataset whose arrays have one length (every constructed
    dataset), [build_input] succeeds: row [i] of the joint input is the
    features of example [i] followed by its alternate parameter.  Building
    the input commutes with shuffling: the input of the shuffled dataset is
    the input of the dataset indexed by the same permutation.  Arrays of
    different lengths raise [ValueError]. *)
Theorem build_input_aligned (ds : RatioDataset) :
  (RatioDataset_wf ds →
   ∃ X, SinglyParameterizedRatioDataset_build_input ds = Ok X
     ∧ length X = RatioDataset_len ds
     ∧ (∀ i e theta, x ds !! i = Some e → theta_1s ds !! i = Some theta →
          X !! i = Some (e ++ theta))
     ∧ ∀ p ds', RatioDataset_shuffle p ds = Ok ds' →
         SinglyParameterizedRatioDataset_build_input ds' = Np.take X p)
  ∧ (length (theta_1s ds) ≠ length (x ds) →
     SinglyParameterizedRatioDataset_build_input ds = Raise ValueError).
Proof.
  unfold SinglyParameterizedRatioDataset_build_input,
    build_singly_parameterized_input, Util.ensure_2d. split.
  - intros (H0 & H1 & Hy & Hn). rewrite decide_True by done.
    eexists. split; [done|]. split_and!.
    + rewrite length_zip_with. unfold RatioDataset_len. lia.
    + intros i e theta He Hth. apply lookup_zip_with_Some. eauto.
    + intros p ds' Hs.
      destruct (RatioDataset_shuffle_wf _ _ _ Hs) as [(_ & H1' & _) _].
      apply RatioDataset_shuffle_Ok in Hs as (Hx & _ & Ht & _).
      rewrite decide_True by done. symmetry. apply take_Ok.
      by apply take_zip_with.
  - intros Hne. by rewrite decide_False.
Qed.

Lemma build_input_aligned_witness :
  ∃ X, SinglyParameterizedRatioDataset_build_input example_dataset = Ok X
    ∧ X !! 1%nat = Some [1; Q2Qc (1 # 2)].
Proof.
  destruct (proj1 (build_input_aligned example_dataset)) as (X & HX & _ & Hrow & _).
  - unfold RatioDataset_wf. simpl. split_and!; [done..| |]; by intros arr [= <-].
  - exists X. split; [done|]. by apply (Hrow 1%nat [1] [Q2Qc (1 # 2)]).
Defined.

(** ** [SinglyParameterizedRatioDataset]: samples and their parameters *)

Local Close Scope Qc_scope.

Lemma lookup_mjoin_block {A} (bs : list (list A)) (n i j : nat) (b : list A) :
  Forall (λ b', length b' = n) bs → bs !! i = Some b → j < n →
  mjoin bs !! (i * n + j) = b !! j.
Proof.
  intros Hlen. revert i. induction Hlen as [|b0 bs Hb0 _ IH]; intros i Hi Hj; [done|].
  change (mjoin (b0 :: bs)) with (b0 ++ mjoin bs).
  destruct i as [|i]; simpl in Hi.
  - injection Hi as ->. apply lookup_app_l. simpl. lia.
  - rewrite lookup_app_r by (simpl; lia).
    replace (S i * n + j - length b0) with (i * n + j) by (simpl; lia).
    by apply IH.
Qed.

Lemma block_position (k n i j : nat) : i < k → j < n → i * n + j < k * n.
Proof.
  intros Hi Hj. apply Nat.lt_le_trans with (S i * n); [simpl; lia|].
  apply Nat.mul_le_mono_r. lia.
Qed.

Local Open Scope Qc_scope.

Lemma RatioDataset_examples_lookup (ds : RatioDataset) (i : nat) (e : Row)
    (t0 t1 : Theta) (oy on : option Qc) :
  x ds !! i = Some e → theta_0s ds !! i = Some t0 → theta_1s ds !! i = Some t1 →
  expand (length (x ds)) (y ds) !! i = Some oy →
  expand (length (x ds)) (nllr ds) !! i = Some on →
  RatioDataset_examples ds !! i = Some (e, (t0, (t1, (oy, on)))).
Proof.
  intros. unfold RatioDataset_examples. cbv zeta.
  repeat (apply lookup_zip_with_Some; eexists _, _; split_and!; [done|done|]).
  done.
Qed.

(** X6.  Before any shuffle and for draws that honour the simulator
    contract (the requested numbers of examples, all of one feature width
    [w]), the construction succeeds and the dataset keeps every sample with
    the parameter it belongs to.  With [k] alternate parameters and [n] samples per parameter, the
    reference sample at position [i*n + j] carries label 0 and the [i]-th
    alternate parameter; the [j]-th sample drawn at the [i]-th alternate
    parameter sits at position [k*n + i*n + j] and carries label 1 and that
    parameter.  The nllr entry is [log p0(x)] on a reference sample and
    [-log p1(x)] on an alternate sample, and is absent without
    [include_nllr]. *)
Theorem SinglyParameterizedRatioDataset_init_alignment
    (log_prob : Theta → Row → Qc) (theta_0 : Theta) (it : ParamIterator)
    (n w : nat) (incl : bool) (d : Draws) :
  length (draw_x0 d) = (length (values it) * n)%nat →
  (∀ k, length (draw_x1 d k) = n) →
  Forall (λ r, length r = w) (draw_x0 d) →
  (∀ k, Forall (λ r, length r = w) (draw_x1 d k)) →
  Forall (λ theta, length theta = length theta_0) (values it) →
  ∃ ds, SinglyParameterizedRatioDataset_init log_prob theta_0 it n false incl d
        = Ok ds
    ∧ RatioDataset_len ds = (2 * (length (values it) * n))%nat
    ∧ (∀ i j theta e,
         values it !! i = Some theta → (j < n)%nat →
         draw_x0 d !! (i * n + j)%nat = Some e →
         RatioDataset_examples ds !! (i * n + j)%nat
         = Some (e, (theta_0, (theta, (Some 0,
                   if incl then Some (log_prob theta_0 e) else None)))))
    ∧ (∀ i j theta e,
         values it !! i = Some theta → draw_x1 d i !! j = Some e →
         RatioDataset_examples ds !! (length (values it) * n + i * n + j)%nat
         = Some (e, (theta_0, (theta, (Some 1,
                   if incl then Some (- log_prob theta e) else None))))).
Proof.
  intros Hx0 Hs Hwx Hws Hw.
  rewrite (SinglyParameterizedRatioDataset_init_spec log_prob theta_0 it n w incl d)
    by done.
  set (k := length (values it)) in *.
  assert (Forall (λ b, length b = n) (draw_x1 d <$> seq 0 k)) as Hsamples.
  { apply Forall_fmap, Forall_forall. intros ? _. apply Hs. }
  assert (Forall (λ b : list Theta, length b = n) (replicate n <$> values it)) as Hreps.
  { apply Forall_fmap, Forall_forall. intros ? _. apply length_replicate. }
  assert (Forall (λ b : list Qc, length b = n)
            (zip_with (λ theta i, log_prob theta <$> draw_x1 d i) (values it) (seq 0 k)))
    as Hlls.
  { apply Forall_forall. intros l (th & i & -> & _)%elem_of_zip_with.
    by rewrite length_fmap. }
  assert (length (mjoin (draw_x1 d <$> seq 0 k)) = (k * n)%nat) as Hlx1.
  { by rewrite (mjoin_length_uniform _ n), length_fmap, length_seq. }
  assert (length (mjoin (replicate n <$> values it)) = (k * n)%nat) as Hlth.
  { by rewrite (mjoin_length_uniform _ n), length_fmap. }
  eexists. split; [done|]. split_and!.
  - unfold RatioDataset_len. cbn [x]. rewrite length_app, Hlx1, Hx0. lia.
  - intros i j theta e Hth Hj He.
    apply lookup_lt_Some in Hth as Hi. fold k in Hi.
    pose proof (block_position k n i j Hi Hj) as Hpos.
    apply RatioDataset_examples_lookup; cbn [x theta_0s theta_1s y nllr].
    + rewrite lookup_app_l by lia. done.
    + apply lookup_replicate_2. lia.
    + rewrite lookup_app_l by lia.
      rewrite (lookup_mjoin_block _ n i j (replicate n theta)); try done.
      * by apply lookup_replicate_2.
      * by rewrite list_lookup_fmap, Hth.
    + cbn [expand]. rewrite list_lookup_fmap, lookup_app_l
        by (rewrite length_replicate; lia).
      by rewrite lookup_replicate_2 by lia.
    + destruct incl; cbn [expand].
      * rewrite list_lookup_fmap, lookup_app_l by (rewrite length_fmap; lia).
        by rewrite list_lookup_fmap, He.
      * apply lookup_replicate_2. rewrite length_app. lia.
  - intros i j theta e Hth He.
    apply lookup_lt_Some in Hth as Hi. fold k in Hi.
    apply lookup_lt_Some in He as Hj. rewrite Hs in Hj.
    pose proof (block_position k n i j Hi Hj) as Hpos.
    assert (seq 0 k !! i = Some i) as Hseq by by apply lookup_seq.
    apply RatioDataset_examples_lookup; cbn [x theta_0s theta_1s y nllr].
    + rewrite <- Nat.add_assoc, <- Hx0, lookup_app_r by lia.
      replace (length (draw_x0 d) + (i * n + j) - length (draw_x0 d))%nat
        with (i * n + j)%nat by lia.
      rewrite (lookup_mjoin_block _ n i j (draw_x1 d i)); try done.
      by rewrite list_lookup_fmap, Hseq.
    + apply lookup_replicate_2. lia.
    + rewrite <- Nat.add_assoc, <- Hlth, lookup_app_r by lia.
      replace (length (mjoin (replicate n <$> values it)) + (i * n + j)
               - length (mjoin (replicate n <$> values it)))%nat
        with (i * n + j)%nat by lia.
      rewrite (lookup_mjoin_block _ n i j (replicate n theta)); try done.
      * by apply lookup_replicate_2.
      * by rewrite list_lookup_fmap, Hth.
    + cbn [expand]. rewrite list_lookup_fmap, lookup_app_r
        by (rewrite length_replicate; lia).
      rewrite length_replicate, lookup_replicate_2 by lia. done.
    + destruct incl; cbn [expand].
      * rewrite list_lookup_fmap, lookup_app_r by (rewrite length_fmap; lia).
        rewrite length_fmap, list_lookup_fmap.
        replace (k * n + i * n + j - length (draw_x0 d))%nat
          with (i * n + j)%nat by lia.
        rewrite (lookup_mjoin_block _ n i j (log_prob theta <$> draw_x1 d i));
          try done.
        -- by rewrite list_lookup_fmap, He.
        -- apply lookup_zip_with_Some. eauto.
      * apply lookup_replicate_2. rewrite length_app. lia.
Qed.

(** Two alternate parameters, two samples each: the second sample drawn at
    the second parameter is example 7. *)
Lemma SinglyParameterizedRatioDataset_init_alignment_witness :
  ∃ ds, SinglyParameterizedRatioDataset_init example_log_prob [0]
          {| values := [[1]; [Q2Qc 2]] |} 2 false true
          {| draw_x0 := [[0]; [0]; [1]; [1]];
             draw_x1 := λ i, [[Np.Qc_of_nat i]; [Np.Qc_of_nat (i + 5)]];
             draw_perm := [] |} = Ok ds
    ∧ RatioDataset_examples ds !! 7%nat
      = Some ([Q2Qc 6], ([0], ([Q2Qc 2], (Some 1, Some (Q2Qc 8))))).
Proof.
  destruct (SinglyParameterizedRatioDataset_init_alignment example_log_prob [0]
              {| values := [[1]; [Q2Qc 2]] |} 2 1 true
              {| draw_x0 := [[0]; [0]; [1]; [1]];
                 draw_x1 := λ i, [[Np.Qc_of_nat i]; [Np.Qc_of_nat (i + 5)]];
                 draw_perm := [] |})
    as (ds & Hds & _ & _ & Hx1);
    [done|done|by repeat constructor|by repeat constructor
    |by repeat constructor|].
  exists ds. split; [done|].
  assert (draw_x1 {| draw_x0 := [[0]; [0]; [1]; [1]];
                     draw_x1 := λ i, [[Np.Qc_of_nat i]; [Np.Qc_of_nat (i + 5)]];
                     draw_perm := [] |} 1 !! 1%nat = Some [Q2Qc 6]) as He.
  { simpl. repeat f_equal; apply Qc_is_canon; reflexivity. }
  specialize (Hx1 1%nat 1%nat [Q2Qc 2] [Q2Qc 6] eq_refl He).
  change (length _ * 2 + 1 * 2 + 1)%nat with 7%nat in Hx1.
  rewrite Hx1. repeat f_equal; apply Qc_is_canon; reflexivity.
Defined.

(** ** [SinglyParameterizedRatioDataset]: failures *)

Lemma broadcast_to_Raise {A} (m : nat) (v : list A) (e : exn) :
  broadcast_to m v = Raise e → e = ValueError.
Proof.
  unfold broadcast_to. case_decide; [done|].
  destruct v as [|? [|??]]; by intros [= <-].
Qed.

Lemma assign_slice_Raise {A} (start stop : nat) (v a : list A) (e : exn) :
  assign_slice start stop v a = Raise e → e = ValueError.
Proof.
  unfold assign_slice. destruct (broadcast_to _ v) eqn:Hb; [done|].
  apply broadcast_to_Raise in Hb as ->. by intros [= <-].
Qed.

Lemma assign_rows_Raise {A} (start stop : nat) (v a : list (list A)) (e : exn) :
  assign_rows start stop v a = Raise e → e = ValueError.
Proof.
  unfold assign_rows.
  assert (∀ w (l : list (list A)) e', mapR (broadcast_to w) l = Raise e' →
            e' = ValueError) as Hmap.
  { intros w l e'. induction l as [|r l IH]; [done|]. cbn [mapR].
    destruct (broadcast_to w r) eqn:Hb; cbn [rbind].
    - destruct (mapR _ l); [done|]. intros [= <-]. by apply IH.
    - apply broadcast_to_Raise in Hb as ->. by intros [= <-]. }
  destruct (head a) as [r|].
  - destruct (mapR _ v) eqn:Hm; cbn [rbind]; [apply assign_slice_Raise|].
    apply Hmap in Hm as ->. by intros [= <-].
  - apply assign_slice_Raise.
Qed.

Lemma init_body_Raise log_prob theta_0 x0 n incl i theta_1 x_i st e :
  init_body log_prob theta_0 x0 n incl i theta_1 x_i st = Raise e → e = ValueError.
Proof.
  unfold init_body.
  repeat match goal with
  | |- context [rbind (assign_rows ?s ?t ?v ?a) _] =>
      let H := fresh in
      destruct (assign_rows s t v a) eqn:H;
        [cbn [rbind] | apply assign_rows_Raise in H as ->; by intros [= <-]]
  | |- context [rbind (assign_slice ?s ?t ?v ?a) _] =>
      let H := fresh in
      destruct (assign_slice s t v a) eqn:H;
        [cbn [rbind] | apply assign_slice_Raise in H as ->; by intros [= <-]]
  | |- context [rbind (broadcast_to ?m ?v) _] =>
      let H := fresh in
      destruct (broadcast_to m v) eqn:H;
        [cbn [rbind] | apply broadcast_to_Raise in H as ->; by intros [= <-]]
  | |- context [if incl then _ else _] => destruct incl
  end; done.
Qed.

Lemma init_body_bad_width log_prob theta_0 x0 n incl i theta_1 x_i st :
  length theta_1 ≠ length theta_0 → length theta_1 ≠ 1%nat →
  init_body log_prob theta_0 x0 n incl i theta_1 x_i st = Raise ValueError.
Proof.
  intros Hw H1. unfold init_body.
  destruct (assign_rows _ _ _ (b_x1 st)) eqn:Hx; cbn [rbind].
  - unfold broadcast_to. rewrite decide_False by done.
    by destruct theta_1 as [|? [|??]].
  - by apply assign_rows_Raise in Hx as ->.
Qed.

Lemma init_loop_Raise log_prob theta_0 x0 n incl samples i thetas st e :
  init_loop log_prob theta_0 x0 n incl samples i thetas st = Raise e →
  e = ValueError.
Proof.
  revert i st. induction thetas as [|theta_1 thetas IH]; intros i st; [done|].
  cbn [init_loop]. destruct (init_body _ _ _ _ _ _ _ _ _) eqn:Hb; cbn [rbind].
  - apply IH.
  - apply init_body_Raise in Hb as ->. by intros [= <-].
Qed.

Lemma init_loop_bad_width log_prob theta_0 x0 n incl samples i thetas st :
  Exists (λ theta, length theta ≠ length theta_0 ∧ length theta ≠ 1%nat) thetas →
  init_loop log_prob theta_0 x0 n incl samples i thetas st = Raise ValueError.
Proof.
  intros Hex. revert i st. induction Hex as [theta_1 thetas [Hw H1]|theta_1 thetas _ IH];
    intros i st; cbn [init_loop].
  - by rewrite init_body_bad_width.
  - destruct (init_body _ _ _ _ _ _ _ _ _) eqn:Hb; cbn [rbind]; [apply IH|].
    by apply init_body_Raise in Hb as ->.
Qed.

(** X7.  An alternate parameter whose width is neither that of [theta_0]
    nor one cannot be written into the parameter array: the construction
    raises [ValueError], whatever the draws.  Without shuffling, [ValueError]
    is the only exception the construction raises.  An empty iterator (and
    so no reference sample) gives the empty dataset. *)
Theorem SinglyParameterizedRatioDataset_init_errors (log_prob : Theta → Row → Qc)
    (theta_0 : Theta) (it : ParamIterator) (n : nat) (shuffle incl : bool)
    (d : Draws) :
  (Exists (λ theta, length theta ≠ length theta_0 ∧ length theta ≠ 1%nat) (values it) →
   SinglyParameterizedRatioDataset_init log_prob theta_0 it n shuffle incl d
   = Raise ValueError)
  ∧ (∀ e, SinglyParameterizedRatioDataset_init log_prob theta_0 it n false incl d
          = Raise e → e = ValueError)
  ∧ (values it = [] → draw_x0 d = [] → draw_perm d = [] →
     ∃ ds, SinglyParameterizedRatioDataset_init log_prob theta_0 it n shuffle incl d
           = Ok ds
       ∧ RatioDataset_len ds = 0%nat).
Proof.
  unfold SinglyParameterizedRatioDataset_init. cbv zeta. split_and!.
  - intros Hex. by rewrite init_loop_bad_width.
  - intros e. destruct (init_loop _ _ _ _ _ _ _ _ _) eqn:Hl; cbn [rbind].
    + unfold RatioDataset_init. case_decide; [by intros [= <-]|done].
    + apply init_loop_Raise in Hl as ->. by intros [= <-].
  - intros -> -> ->. unfold Util.ensure_2d. cbn [init_loop fmap list_fmap length
      replicate rbind b_x1 b_theta_1s ll0_x0 ll0_x1 ll1_x0 ll1_x1 app].
    destruct shuffle, incl; by eexists.
Qed.

(** A two-component parameter against a three-component reference
    parameter. *)
Lemma SinglyParameterizedRatioDataset_init_errors_witness :
  SinglyParameterizedRatioDataset_init example_log_prob [0; 0; 0]
    {| values := [[1; 1; 1]; [1; 1]] |} 1 true true
    {| draw_x0 := [[0]; [0]]; draw_x1 := λ _, [[1]]; draw_perm := [0; 1; 2; 3]%nat |}
  = Raise ValueError.
Proof.
  apply (proj1 (SinglyParameterizedRatioDataset_init_errors example_log_prob
    [0; 0; 0] {| values := [[1; 1; 1]; [1; 1]] |} 1 true true
    {| draw_x0 := [[0]; [0]]; draw_x1 := λ _, [[1]]; draw_perm := [0; 1; 2; 3]%nat |})).
  apply Exists_cons_tl, Exists_cons_hd. simpl. lia.
Defined.

(** ** The upper-confidence-bound policy picks the first maximum *)

Lemma fle_refl (v : fval) : is_nan v = false → fle v v = true.
Proof. destruct v; try done. intros _. simpl. apply bool_decide_eq_true, Qcle_refl. Qed.

Lemma fle_total (v w : fval) :
  is_nan v = false → is_nan w = false → fle v w = false → fle w v = true.
Proof.
  destruct v, w; try done. simpl. intros _ _ H.
  apply bool_decide_eq_false in H. apply bool_decide_eq_true.
  apply Qclt_le_weak. by apply Qcnot_le_lt.
Qed.

Lemma fle_trans (u v w : fval) :
  fle u v = true → fle v w = true → fle u w = true.
Proof.
  destruct u, v, w; try done. simpl. intros H1 H2.
  apply bool_decide_eq_true in H1, H2. apply bool_decide_eq_true.
  by eapply Qcle_trans.
Qed.

Lemma fle_lt_trans (u v w : fval) :
  is_nan w = false →
  fle u v = true → fle w v = false → fle w u = false.
Proof.
  intros Hw H1 H2. destruct (fle w u) eqn:H3; [|done].
  by rewrite (fle_trans _ _ _ H3 H1) in H2.
Qed.

(** [np.argmax] on an array without NaN: the selected entry is at least
    every entry and strictly above every earlier one. *)
Lemma argmax_from_max (pre a : list fval) (mp : fval) (idx : nat) :
  Forall (λ w, is_nan w = false) (pre ++ a) →
  pre !! idx = Some mp →
  (∀ j w, pre !! j = Some w → fle w mp = true ∧ ((j < idx)%nat → fle mp w = false)) →
  ∃ v, (pre ++ a) !! argmax_from mp idx (length pre) a = Some v
    ∧ ∀ j w, (pre ++ a) !! j = Some w →
        fle w v = true
        ∧ ((j < argmax_from mp idx (length pre) a)%nat → fle v w = false).
Proof.
  revert pre mp idx. induction a as [|v0 a IH]; intros pre mp idx Hnan Hidx Hmax.
  - simpl. rewrite app_nil_r. by exists mp.
  - assert (is_nan v0 = false) as Hnan0.
    { rewrite Forall_app in Hnan. destruct Hnan as [_ Hnan].
      by apply Forall_cons_1 in Hnan as [? _]. }
    assert (is_nan mp = false) as Hnanmp.
    { rewrite Forall_forall in Hnan. apply Hnan. apply elem_of_app. left.
      by eapply list_elem_of_lookup_2. }
    assert (idx < length pre)%nat as Hlt by by eapply lookup_lt_Some.
    cbn [argmax_from]. rewrite Hnan0.
    replace (pre ++ v0 :: a) with ((pre ++ [v0]) ++ a) in * by by rewrite <- app_assoc.
    replace (S (length pre)) with (length (pre ++ [v0]))
      by (rewrite length_app; simpl; lia).
    destruct (fle v0 mp) eqn:Hle.
    + apply IH; [done|by apply lookup_app_l_Some|].
      intros j w Hj. apply lookup_app_Some in Hj as [Hj|[Hge Hj]]; [by apply Hmax|].
      apply list_lookup_singleton_Some in Hj as [Hj <-].
      split; [done|]. lia.
    + apply IH; [done|by rewrite lookup_app_r, Nat.sub_diag|].
      intros j w Hj. apply lookup_app_Some in Hj as [Hj|[Hge Hj]].
      * destruct (Hmax j w Hj) as [Hw _]. split.
        -- eapply fle_trans; [exact Hw|]. by apply fle_total.
        -- intros _. by eapply fle_lt_trans.
      * apply list_lookup_singleton_Some in Hj as [Hj <-].
        split; [by apply fle_refl|]. lia.
Qed.

Lemma argmax_max (a : list fval) (r : nat) :
  Forall (λ w, is_nan w = false) a →
  argmax a = Ok r →
  ∃ v, a !! r = Some v
    ∧ ∀ j w, a !! j = Some w →
        fle w v = true ∧ ((j < r)%nat → fle v w = false).
Proof.
  destruct a as [|v0 a]; [done|]. intros Hnan. simpl.
  assert (is_nan v0 = false) as Hnan0 by by apply Forall_cons_1 in Hnan as [? _].
  rewrite Hnan0. intros [= <-].
  apply (argmax_from_max [v0] a v0 0); [done|done|].
  intros [|j] w Hj; [|done]. injection Hj as <-.
  split; [by apply fle_refl|lia].
Qed.

Lemma broadcast2_same_length {A B C} (f : A → B → C) (a : list A) (b : list B) :
  length a = length b → broadcast2 f a b = Ok (zip_with f a b).
Proof. intros Hlen. unfold broadcast2. by rewrite decide_True. Qed.

Lemma masked_ucb_Ok `{FloatArith} (self : ActiveLearner)
    (U_theta_pred std : list fval) :
  length U_theta_pred = length (_trialed_mask self) →
  length std = length (_trialed_mask self) →
  ∃ ucb, masked_ucb self U_theta_pred std = Ok ucb
    ∧ length ucb = length (_trialed_mask self).
Proof.
  intros Hp Hs. unfold masked_ucb.
  rewrite broadcast2_same_length by by rewrite length_fmap, Hp, Hs.
  cbn [rbind]. unfold bool_assign.
  rewrite decide_True by by rewrite length_zip_with, length_fmap, Hp, Hs, Nat.min_id.
  eexists. split; [done|].
  by rewrite !length_zip_with, length_fmap, Hp, Hs, !Nat.min_id.
Qed.

Lemma selected_widths {A} (a : list (list A)) (mask : list bool) (w : nat) :
  Forall (λ r, length r = w) a → Forall (λ r, length r = w) (selected a mask).
Proof.
  intros Ha. revert mask. induction Ha as [|r a Hr _ IH]; intros [|b mask];
    [constructor..|].
  rewrite selected_cons. apply Forall_app. split; [|apply IH].
  destruct b; by repeat constructor.
Qed.

Lemma squeeze_index_1d (a : list Theta) :
  length a ≠ 1%nat → squeeze_index a 1 = Ok (mjoin a).
Proof.
  intros Ha. unfold squeeze_index.
  destruct (decide (length a = 1%nat)); [done|].
  by destruct (decide (1%nat = 1%nat)).
Qed.

Lemma pd_Series_Ok (index : list Qc) (data : list fval) :
  length data = length index → pd_Series index data = Ok (zip index data).
Proof. intros Hlen. unfold pd_Series. by rewrite decide_True. Qed.

(** The item recorded on a grid of one dimension: no index is a scalar or
    keeps two dimensions when neither the trialed points nor the grid points
    are exactly one. *)
Lemma acquisition_item_Ok (o : Oracle) (self : ActiveLearner)
    (U_theta_pred U_theta_train : list fval) :
  ParamGrid_ndim (param_grid self) = 1%nat →
  Forall (λ theta, length theta = 1%nat) (all_thetas self) →
  validation_mode self = false →
  length (_trialed_mask self) = length (all_thetas self) →
  trialed_count (_trialed_mask self) ≠ 1%nat →
  length (all_thetas self) ≠ 1%nat →
  length U_theta_train = trialed_count (_trialed_mask self) →
  length U_theta_pred = length (all_thetas self) →
  acquisition_item o self U_theta_pred U_theta_train
  = Ok {| Training := zip (mjoin (selected (all_thetas self) (_trialed_mask self)))
                        U_theta_train;
          Prediction := zip (mjoin (all_thetas self)) U_theta_pred;
          Validation := None |}.
Proof.
  intros Hdim Hw Hval Hlen Ht Hg Htrain Hpred.
  unfold acquisition_item. cbv zeta.
  rewrite (trialed_thetas_Ok self Hlen), Hdim, Hval. cbn [rbind].
  rewrite squeeze_index_1d by by rewrite selected_length.
  cbn [rbind]. rewrite pd_Series_Ok.
  2:{ rewrite (mjoin_length_uniform _ 1) by by apply selected_widths.
      rewrite selected_length by done. lia. }
  cbn [rbind]. rewrite squeeze_index_1d by done. cbn [rbind].
  rewrite pd_Series_Ok; [done|].
  rewrite (mjoin_length_uniform _ 1) by done. lia.
Qed.

(** X8.  In the acquisition-guided mode, an index that
    [choose_next_theta_index] returns is the arg-max of the
    upper-confidence-bound array as computed (the posterior mean plus
    [ucb_kappa] times the posterior deviation, in floating point, with
    [-inf] at the trialed entries): absent NaN no entry of the array is
    larger than the chosen one and every earlier entry is smaller; the index
    is untrialed as soon as one untrialed entry is not [-inf]; and the item
    of the acquisition history has been recorded.  On a grid of one
    dimension with a number of trialed points other than one and a number of
    grid points other than one, outside the validation mode, the call
    returns when its collaborators do and honour their contracts (one
    utility per trialed point, one mean and one deviation per grid
    point). *)
Theorem ucb_choice_is_first_maximum `{FloatArith} (o : Oracle)
    (self : ActiveLearner) :
  acquisition_function self = Scoring →
  (∀ (self' : ActiveLearner) (idx : nat),
     choose_next_theta_index o self = (self', Ok idx) →
     ∃ U_theta_train U_theta_pred std ucb item v,
       marginalised_acquisition o = Ok U_theta_train
       ∧ gp_predict o = Ok (U_theta_pred, std)
       ∧ masked_ucb self U_theta_pred std = Ok ucb
       ∧ ucb !! idx = Some v
       ∧ (Forall (λ w, is_nan w = false) ucb →
          ∀ j w, ucb !! j = Some w →
            fle w v = true ∧ ((j < idx)%nat → fle v w = false))
       ∧ ((∃ i w, _trialed_mask self !! i = Some false
                  ∧ ucb !! i = Some w ∧ w ≠ NegInf) →
          _trialed_mask self !! idx = Some false)
       ∧ acquisition_item o self U_theta_pred U_theta_train = Ok item
       ∧ self' = recorded item self)
  ∧ (∀ U_theta_train U_theta_pred std : list fval,
       ParamGrid_ndim (param_grid self) = 1%nat →
       Forall (λ theta, length theta = 1%nat) (all_thetas self) →
       validation_mode self = false →
       length (_trialed_mask self) = length (all_thetas self) →
       trialed_count (_trialed_mask self) ≠ 1%nat →
       length (all_thetas self) ≠ 1%nat → all_thetas self ≠ [] →
       _gp o self = Ok tt →
       marginalised_acquisition o = Ok U_theta_train →
       length U_theta_train = trialed_count (_trialed_mask self) →
       gp_fit o = Ok tt →
       gp_predict o = Ok (U_theta_pred, std) →
       length U_theta_pred = length (all_thetas self) →
       length std = length (all_thetas self) →
       ∃ idx item, choose_next_theta_index o self = (recorded item self, Ok idx)).
Proof.
  intros Hacq. split.
  - intros self' idx. rewrite choose_unfold, Hacq.
    destruct (ucb_choice o self) as [[idx' item]|] eqn:Hc; [|done].
    intros [= <- <-]. unfold ucb_choice in Hc.
    destruct (_gp o self); [|done]. cbn [rbind] in Hc.
    destruct (marginalised_acquisition o) as [U_theta_train|]; [|done].
    cbn [rbind] in Hc.
    destruct (trialed_thetas self); [|done]. cbn [rbind] in Hc.
    destruct (gp_fit o); [|done]. cbn [rbind] in Hc.
    destruct (gp_predict o) as [[U_theta_pred std]|]; [|done].
    cbn [rbind fst snd] in Hc.
    destruct (masked_ucb self U_theta_pred std) as [ucb|] eqn:Hucb; [|done].
    cbn [rbind] in Hc.
    destruct (argmax ucb) as [r|] eqn:Hr; [|done]. cbn [rbind] in Hc.
    destruct (acquisition_item _ _ _ _) as [item'|] eqn:Hitem; [|done].
    injection Hc as -> ->.
    destruct (argmax_not_NegInf _ _ Hr) as (v & Hv & _).
    exists U_theta_train, U_theta_pred, std, ucb, item, v.
    split_and!; try done.
    + intros Hnan. destruct (argmax_max _ _ Hnan Hr) as (v' & Hv' & Hmax).
      rewrite Hv in Hv'. by injection Hv' as <-.
    + intros Hex. unfold masked_ucb in Hucb.
      destruct (broadcast2 _ _ _) as [ucb0|]; [|done]. cbn [rbind] in Hucb.
      destruct (argmax_masked_untrialed _ _ _ Hucb Hex) as (idx0 & Hidx0 & Hm).
      rewrite Hr in Hidx0. by injection Hidx0 as <-.
  - intros U_theta_train U_theta_pred std Hdim Hw Hval Hlen Ht Hg Hne Hgp
      Htrain Hltrain Hfit Hpred Hlpred Hlstd.
    destruct (masked_ucb_Ok self U_theta_pred std) as (ucb & Hucb & Hlucb);
      [congruence..|].
    destruct (argmax_nonempty ucb) as [idx Hidx].
    { intros ->. simpl in Hlucb. rewrite Hlen in Hlucb.
      by destruct (all_thetas self). }
    eexists idx, _. rewrite choose_unfold, Hacq. unfold ucb_choice.
    rewrite Hgp, Htrain, (trialed_thetas_Ok self Hlen), Hfit, Hpred.
    cbn [rbind fst snd]. rewrite Hucb. cbn [rbind]. rewrite Hidx. cbn [rbind].
    by rewrite (acquisition_item_Ok o self U_theta_pred U_theta_train).
Qed.

(** The learner that has trialed 0.25 and 0.5, under a surrogate whose mean
    grows with the parameter: the call returns the last grid point, whose
    bound no other exceeds. *)
Lemma ucb_choice_is_first_maximum_witness :
  ∃ self' ucb v,
    choose_next_theta_index (H := example_arith) example_oracle_2 example_learner_2
    = (self', Ok 4%nat)
    ∧ masked_ucb (H := example_arith) example_learner_2
        (Fin <$> [0; Q2Qc (1 # 4); Q2Qc (1 # 2); Q2Qc (3 # 4); 1])
        (replicate 5 (Fin 0)) = Ok ucb
    ∧ ucb !! 4%nat = Some v
    ∧ _trialed_mask example_learner_2 !! 4%nat = Some false.
Proof.
  destruct (choose_next_theta_index (H := example_arith) example_oracle_2
              example_learner_2) as [self' r] eqn:Hc.
  assert (r = Ok 4%nat) as -> by (vm_compute in Hc; by injection Hc).
  destruct (proj1 (ucb_choice_is_first_maximum (H := example_arith)
                     example_oracle_2 example_learner_2 eq_refl) self' 4%nat Hc)
    as (U_theta_train & U_theta_pred & std & ucb & item & v & _ & Hpred & Hucb
        & Hv & _ & _ & _ & _).
  injection Hpred as <- <-.
  by exists self', ucb, v.
Defined.
(** ** The random policy picks an untrialed grid point *)

Lemma Qc_of_nat_S (n : nat) : Np.Qc_of_nat (S n) = 1 + Np.Qc_of_nat n.
Proof.
  unfold Np.Qc_of_nat, Qc_of_Z. apply Qc_is_canon. simpl.
  rewrite Qred_correct. unfold Qeq. simpl. lia.
Qed.

Lemma Qc_of_nat_0 : Np.Qc_of_nat 0 = 0.
Proof. apply Qc_is_canon. reflexivity. Qed.

Lemma Qc_of_nat_nonneg (n : nat) : 0 ≤ Np.Qc_of_nat n.
Proof.
  induction n as [|n IH]; [rewrite Qc_of_nat_0; apply Qcle_refl|].
  rewrite Qc_of_nat_S. rewrite <- (Qcplus_0_l 0).
  apply Qcplus_le_compat; [done|exact IH].
Qed.

Lemma Qc_of_nat_pos (n : nat) : (0 < n)%nat → 0 < Np.Qc_of_nat n.
Proof.
  intros Hn.
  destruct (Qcle_lt_or_eq _ _ (Qc_of_nat_nonneg n)) as [|Heq]; [done|].
  symmetry in Heq. by apply Qc_of_nat_ne_0 in Heq.
Qed.

Lemma sum_cons (v : Qc) (a : list Qc) : sum (v :: a) = v + sum a.
Proof. reflexivity. Qed.

(** The weights [1 - mask] add up to the number of untrialed points. *)
Lemma sum_choice_weights (mask : list bool) :
  sum ((λ b : bool, 1 - (if b then 1 else 0)) <$> mask)
  = Np.Qc_of_nat (untrialed_count mask).
Proof.
  unfold untrialed_count. induction mask as [|b mask IH];
    [exact (eq_sym Qc_of_nat_0)|].
  rewrite fmap_cons, sum_cons, IH.
  change (sum_list (Nat.b2n ∘ negb <$> b :: mask))
    with (Nat.b2n (negb b) + sum_list (Nat.b2n ∘ negb <$> mask))%nat.
  destruct b; cbn [negb Nat.b2n Nat.add]; [ring|].
  rewrite Qc_of_nat_S. ring.
Qed.

Lemma sum_div (ws : list Qc) (s : Qc) :
  sum ((λ w, w / s) <$> ws) = sum ws / s.
Proof.
  induction ws as [|w ws IH].
  - simpl. unfold Qcdiv. ring.
  - rewrite fmap_cons, !sum_cons, IH. unfold Qcdiv. ring.
Qed.

Lemma sum_nonneg (p : list Qc) : Forall (λ v, 0 ≤ v) p → 0 ≤ sum p.
Proof.
  induction 1 as [|v p Hv _ IH]; [apply Qcle_refl|].
  rewrite sum_cons, <- (Qcplus_0_l 0). by apply Qcplus_le_compat.
Qed.

(** [np.cumsum]: entry [j] is the sum of the first [j + 1] entries. *)
Lemma cumsum_from_lookup (p : list Qc) (acc : Qc) (j : nat) (v : Qc) :
  p !! j = Some v →
  cumsum_from acc p !! j = Some (acc + sum (take (S j) p)).
Proof.
  revert acc j. induction p as [|v0 p IH]; intros acc j Hj; [done|].
  destruct j as [|j]; cbn [cumsum_from lookup list_lookup take].
  - rewrite take_0, sum_cons. f_equal. simpl. ring.
  - simpl in Hj. rewrite (IH _ _ Hj). f_equal. rewrite (sum_cons v0). ring.
Qed.

Lemma cumsum_from_length (p : list Qc) (acc : Qc) :
  length (cumsum_from acc p) = length p.
Proof. revert acc. induction p as [|v p IH]; intros acc; simpl; [done|]. by rewrite IH. Qed.

Lemma cumsum_from_ge (p : list Qc) (acc : Qc) :
  Forall (λ v, 0 ≤ v) p → Forall (λ c, acc ≤ c) (cumsum_from acc p).
Proof.
  intros Hp. revert acc. induction Hp as [|v p Hv _ IH]; intros acc; simpl; [done|].
  assert (acc ≤ acc + v) as Hle.
  { rewrite <- (Qcplus_0_r acc) at 1. apply Qcplus_le_compat; [apply Qcle_refl|done]. }
  constructor; [done|].
  eapply Forall_impl; [apply IH|]. intros c Hc. simpl in Hc. by eapply Qcle_trans.
Qed.

Lemma filter_none {A} (P : A → Prop) `{∀ a, Decision (P a)} (l : list A) :
  Forall (λ a, ¬ P a) l → filter P l = [].
Proof.
  induction 1 as [|a l Ha _ IH]; [done|]. by rewrite filter_cons_False.
Qed.

(** On a non-decreasing cumulative sum, [searchsorted(u, side='right')]
    separates the entries that are at most [u] from the larger ones. *)
Lemma searchsorted_cumsum (p : list Qc) (acc u : Qc) :
  Forall (λ v, 0 ≤ v) p →
  ∀ j c, cumsum_from acc p !! j = Some c →
    (j < length (filter (λ c : Qc, (c ≤ u)%Qc) (cumsum_from acc p)))%nat ↔ c ≤ u.
Proof.
  intros Hp. revert acc. induction Hp as [|v p Hv Hp IH]; intros acc j c Hj; [done|].
  cbn [cumsum_from] in *. rewrite filter_cons. case_decide as Hle.
  - destruct j as [|j]; simpl in *.
    + injection Hj as <-. split; [done|lia].
    + rewrite <- (IH _ _ _ Hj). lia.
  - assert (Forall (λ c, ¬ c ≤ u) ((acc + v) :: cumsum_from (acc + v) p)) as Hall.
    { constructor; [done|].
      eapply Forall_impl; [by apply cumsum_from_ge|].
      intros c' Hc' Hu. simpl in Hc'. apply Hle. by eapply Qcle_trans. }
    rewrite filter_none by by apply Forall_cons_1 in Hall as [_ ?].
    simpl. split; [lia|]. intros Hc. exfalso.
    rewrite Forall_forall in Hall. eapply Hall; [|exact Hc].
    by eapply list_elem_of_lookup_2.
Qed.

(** [np.random.choice] with non-negative probabilities that add up to one
    and a uniform sample in [0, 1): the index whose cumulative probability
    first exceeds the sample. *)
Lemma random_choice_spec (n : nat) (p : list Qc) (u : Qc) :
  length p = n → n ≠ 0%nat → Forall (λ v, 0 ≤ v) p → sum p = 1 →
  0 ≤ u → u < 1 →
  ∃ idx, random_choice n p u = Ok idx
    ∧ (idx < n)%nat
    ∧ sum (take idx p) ≤ u ∧ u < sum (take (S idx) p).
Proof.
  intros Hn Hn0 Hp Hsum Hu0 Hu1. unfold random_choice.
  rewrite decide_False by done. rewrite decide_False by (intros ?; congruence).
  rewrite decide_False.
  2:{ intros Hex. apply Exists_exists in Hex as (v & Hv & Hneg).
      rewrite Forall_forall in Hp. apply (Qclt_not_le _ _ Hneg). by apply Hp. }
  rewrite decide_False by (intros ?; congruence). cbv zeta.
  set (k := length (filter (λ c, c ≤ u) (cumsum_from 0 p))).
  pose proof (searchsorted_cumsum p 0 u Hp) as Hsep. fold k in Hsep.
  assert (∀ j, (j < n)%nat →
            cumsum_from 0 p !! j = Some (sum (take (S j) p))) as Hcdf.
  { intros j Hj. destruct (lookup_lt_is_Some_2 p j) as [v Hv]; [lia|].
    rewrite (cumsum_from_lookup _ _ _ _ Hv). f_equal. ring. }
  assert (k < n)%nat as Hk.
  { destruct (decide (k < n)%nat) as [|Hge]; [done|]. exfalso.
    assert (n - 1 < n)%nat as Hlast by lia.
    pose proof (proj1 (Hsep _ _ (Hcdf _ Hlast)) ltac:(lia)) as Hle.
    replace (S (n - 1)) with n in Hle by lia.
    rewrite <- Hn, firstn_all, Hsum in Hle. by apply (Qclt_not_le _ _ Hu1). }
  rewrite decide_True by done. exists k. split_and!; [done..| |].
  - destruct k as [|k']; [by rewrite take_0|].
    apply (Hsep k'); [|lia]. apply Hcdf. lia.
  - apply Qcnot_le_lt. intros Hle. apply (Hsep _ _ (Hcdf _ Hk)) in Hle. lia.
Qed.

Lemma Qcdiv_mult_cancel (a s : Qc) : s ≠ 0 → a / s * s = a.
Proof. intros Hs. field. done. Qed.

Lemma Qcdiv_nonneg (a s : Qc) : 0 ≤ a → 0 < s → 0 ≤ a / s.
Proof.
  intros Ha Hs. apply (Qcmult_lt_0_le_reg_r _ _ s Hs).
  rewrite Qcdiv_mult_cancel by (intros ->; by apply (Qclt_not_eq _ _ Hs)).
  by rewrite Qcmult_0_l.
Qed.

Lemma untrialed_count_snoc (mask : list bool) (b : bool) :
  untrialed_count (mask ++ [b])
  = (untrialed_count mask + Nat.b2n (negb b))%nat.
Proof.
  unfold untrialed_count. rewrite fmap_app, sum_list_with_app. simpl. lia.
Qed.

(** X9.  In the random mode, with an untrialed grid point left and the
    uniform sample of [np.random.choice] in [0, 1), the policy returns an
    untrialed index and leaves the learner as it is: a trialed point has
    probability zero.  With every grid point trialed the policy raises
    [ValueError]. *)
Theorem random_choice_is_untrialed `{FloatArith} (o : Oracle) (self : ActiveLearner) :
  acquisition_function self = Random →
  ((∃ i, _trialed_mask self !! i = Some false) →
   length (_trialed_mask self) = length (all_thetas self) →
   0 ≤ uniform o → uniform o < 1 →
   ∃ idx, choose_next_theta_index o self = (self, Ok idx)
     ∧ _trialed_mask self !! idx = Some false)
  ∧ (Forall (λ b, b = true) (_trialed_mask self) →
     choose_next_theta_index o self = (self, Raise ValueError)).
Proof.
  intros Hacq. rewrite choose_unfold, Hacq. unfold random_index. cbv zeta.
  rewrite sum_choice_weights. split.
  - intros Hex%untrialed_count_pos Hlen Hu0 Hu1.
    set (mask := _trialed_mask self) in *.
    set (m := Np.Qc_of_nat (untrialed_count mask)).
    assert (0 < m) as Hm by by apply Qc_of_nat_pos.
    assert (m ≠ 0) as Hm0 by by apply Qc_of_nat_ne_0.
    rewrite decide_False by done.
    set (w := (λ b : bool, 1 - (if b then 1 else 0)) <$> mask).
    assert (∀ j, sum (take j ((λ v, v / m) <$> w))
                 = Np.Qc_of_nat (untrialed_count (take j mask)) / m) as Htake.
    { intros j. unfold w. by rewrite <- !fmap_take, sum_div, sum_choice_weights. }
    destruct (random_choice_spec (length (all_thetas self)) ((λ v, v / m) <$> w)
                (uniform o)) as (idx & Hc & Hidx & Hlo & Hhi); try done.
    + unfold w. by rewrite !length_fmap.
    + rewrite <- Hlen. intros Hnil. apply length_zero_iff_nil in Hnil.
      rewrite Hnil in Hex. unfold untrialed_count in Hex.
      simpl in Hex. lia.
    + unfold w. rewrite <- list_fmap_compose. apply Forall_fmap, Forall_forall.
      intros b _. simpl. apply Qcdiv_nonneg; [|done]. by destruct b.
    + rewrite sum_div. unfold w. rewrite sum_choice_weights. fold m.
      field. done.
    + rewrite !Htake in *.
      destruct (lookup_lt_is_Some_2 mask idx) as [b Hb]; [lia|].
      rewrite (take_S_r _ _ _ Hb), untrialed_count_snoc in Hhi.
      apply (Qcmult_le_compat_r _ _ m) in Hlo; [|by apply Qclt_le_weak].
      apply (Qcmult_lt_compat_r _ _ m Hm) in Hhi.
      rewrite Qcdiv_mult_cancel in Hlo, Hhi by done.
      exists idx. rewrite Hc. split; [done|].
      destruct b; [|done].
      exfalso. simpl in Hhi. rewrite Nat.add_0_r in Hhi.
      by apply (Qcle_not_lt _ _ Hlo).
  - intros Hall.
    assert (untrialed_count (_trialed_mask self) = 0%nat) as ->.
    { unfold untrialed_count. induction Hall as [|b mask -> _ IH]; [done|].
      simpl. exact IH. }
    by rewrite Qc_of_nat_0, decide_True.
Qed.

(** The example learner in the random mode with the uniform sample 1/2:
    an untrialed point is chosen. *)
Lemma random_choice_is_untrialed_witness :
  ∃ idx, choose_next_theta_index (H := example_arith) example_oracle_1
           example_random_learner
         = (example_random_learner, Ok idx)
    ∧ _trialed_mask example_random_learner !! idx = Some false.
Proof.
  destruct (proj1 (random_choice_is_untrialed (H := example_arith) example_oracle_1
                     example_random_learner eq_refl))
    as (idx & Hc & Hidx); [by exists 0%nat|done|done|done|].
  exists idx. split; [exact Hc|exact Hidx].
Defined.
(** ** The bookkeeping of [step] and [fit] *)

(** What the item of a successful [_record_acq_history] holds. *)
Lemma acquisition_item_inv (o : Oracle) (self : ActiveLearner)
    (U_theta_pred U_theta_train : list fval) (item : AcquisitionItem) :
  acquisition_item o self U_theta_pred U_theta_train = Ok item →
  ∃ trialed,
    trialed_thetas self = Ok trialed
    ∧ Training item = zip (mjoin trialed) U_theta_train
    ∧ length U_theta_train = length (mjoin trialed)
    ∧ Prediction item = zip (mjoin (all_thetas self)) U_theta_pred
    ∧ length U_theta_pred = length (mjoin (all_thetas self))
    ∧ if validation_mode self
      then ∃ U_theta_true,
             validation_acquisition o = Ok U_theta_true
             ∧ Validation item = Some (zip (mjoin (all_thetas self)) U_theta_true)
      else Validation item = None.
Proof.
  assert (∀ a ndim index, squeeze_index a ndim = Ok index → index = mjoin a) as Hsq.
  { intros a ndim index. unfold squeeze_index.
    destruct (decide _), (decide _); try done; by intros [= <-]. }
  assert (∀ index data s, pd_Series index data = Ok s →
            s = zip index data ∧ length data = length index) as Hser.
  { intros index data s. unfold pd_Series. case_decide; [|done]. by intros [= <-]. }
  unfold acquisition_item. cbv zeta. intros Hitem.
  destruct (trialed_thetas self) as [trialed|]; [|done]. cbn [rbind] in Hitem.
  destruct (squeeze_index trialed _) as [index|] eqn:Hi; [|done].
  apply Hsq in Hi as ->. cbn [rbind] in Hitem.
  destruct (pd_Series _ U_theta_train) as [training_info|] eqn:Ht; [|done].
  apply Hser in Ht as [-> Hlt]. cbn [rbind] in Hitem.
  destruct (squeeze_index (all_thetas self) _) as [index|] eqn:Hi; [|done].
  apply Hsq in Hi as ->. cbn [rbind] in Hitem.
  destruct (pd_Series _ U_theta_pred) as [prediction_info|] eqn:Hp; [|done].
  apply Hser in Hp as [-> Hlp]. cbn [rbind] in Hitem.
  exists trialed. destruct (validation_mode self).
  - destruct (validation_acquisition o) as [U_theta_true|]; [|done].
    cbn [rbind] in Hitem.
    destruct (pd_Series _ U_theta_true) as [validation_info|] eqn:Hv; [|done].
    apply Hser in Hv as [-> Hlv]. injection Hitem as <-.
    split_and!; try done. by exists U_theta_true.
  - injection Hitem as <-. done.
Qed.

Lemma zip_snd {A B} (a : list A) (b : list B) :
  length b = length a → (zip a b).*2 = b.
Proof. intros Hlen. apply snd_zip. lia. Qed.

Section Bookkeeping.
Context `{FloatArith}.
Variable log_prob : Theta → Row → Qc.

Lemma step_bookkeeping (o : Oracle) (self self' : ActiveLearner) :
  step log_prob o self = (self', Ok tt) →
  (∃ info, training_info o = Ok info
           ∧ _train_history self' = _train_history self ++ [info])
  ∧ (if test_dataset self
     then ∃ m, mse o = Ok m ∧ _test_history self' = _test_history self ++ [m]
     else _test_history self' = _test_history self)
  ∧ match acquisition_function self with
    | Random => acquisition_history self' = acquisition_history self
    | Scoring =>
        ∃ item, records self o item
                ∧ acquisition_history self' = acquisition_history self ++ [item]
    end
  ∧ theta_0 self' = theta_0 self
  ∧ n_samples_per_theta self' = n_samples_per_theta self
  ∧ param_grid self' = param_grid self
  ∧ test_dataset self' = test_dataset self
  ∧ acquisition_function self' = acquisition_function self
  ∧ ucb_kappa self' = ucb_kappa self
  ∧ validation_mode self' = validation_mode self
  ∧ gp_kwargs self' = gp_kwargs self.
Proof.
  intros Hstep.
  apply step_Ok in Hstep
    as (self1 & idx & next_theta & new_ds & ds & info & m & Hc & _ & _ & _ & _
        & Hinfo & _ & Hev & _ & ->).
  destruct (choose_fields _ _ _ _ Hc)
    as (Ht0 & Hn & Hds & Hg & Hm & Htd & Htr & Hte & Haf).
  pose proof (choose_keeps _ _ _ _ Hc) as Hk.
  unfold refitted. cbn [_train_history _test_history acquisition_history theta_0
    n_samples_per_theta param_grid test_dataset acquisition_function ucb_kappa
    validation_mode gp_kwargs set_trialed_mask set_histories set_dataset].
  rewrite Htr, Hte, Htd, Ht0, Hn, Hg, Haf.
  split_and!; try done.
  - by exists info.
  - unfold evaluated in Hev. destruct (test_dataset self).
    + by exists m.
    + by rewrite app_nil_r.
  - apply choose_Ok in Hc. destruct (acquisition_function self).
    + by destruct Hc as [-> _].
    + destruct Hc as (item & Hchoice & ->). exists item. split; [|done].
      apply ucb_choice_inv in Hchoice
        as (U_theta_train & U_theta_pred & std & ucb & _ & Htrain & _ & Hpred
            & _ & _ & Hitem).
      apply acquisition_item_inv in Hitem
        as (trialed & _ & Hti & Hlt & Hpi & Hlp & _).
      exists U_theta_train, U_theta_pred, std.
      split_and!; try done.
      * by rewrite Hti, zip_snd.
      * by rewrite Hpi, zip_snd.
  - by rewrite Hk.
  - by rewrite Hk.
  - by rewrite Hk.
Qed.

End Bookkeeping.

(** X10.  A run of [fit] that returns has appended, per step and in
    order: the training diagnostics to the training history; the test error
    to the test history when a test dataset was supplied, and nothing
    otherwise; in the acquisition-guided mode one item to the acquisition
    history, with the utilities of the trialed points as training series and
    the posterior means over the whole grid as prediction series, and
    nothing in the random mode.  The reference parameter, the number of
    samples per parameter, the grid, the test-dataset setting, the
    acquisition function, kappa, the validation mode and the surrogate
    arguments are unchanged. *)
Theorem fit_bookkeeping `{FloatArith} (log_prob : Theta → Row → Qc)
    (os : list Oracle) (self self' : ActiveLearner) :
  fit log_prob os self = (self', Ok tt) →
  (∃ infos, Forall2 (λ o info, training_info o = Ok info) os infos
            ∧ _train_history self' = _train_history self ++ infos)
  ∧ (if test_dataset self
     then ∃ ms, Forall2 (λ o m, mse o = Ok m) os ms
                ∧ _test_history self' = _test_history self ++ ms
     else _test_history self' = _test_history self)
  ∧ match acquisition_function self with
    | Random => acquisition_history self' = acquisition_history self
    | Scoring =>
        ∃ items, Forall2 (records self) os items
                 ∧ acquisition_history self' = acquisition_history self ++ items
    end
  ∧ theta_0 self' = theta_0 self
  ∧ n_samples_per_theta self' = n_samples_per_theta self
  ∧ param_grid self' = param_grid self
  ∧ test_dataset self' = test_dataset self
  ∧ acquisition_function self' = acquisition_function self
  ∧ ucb_kappa self' = ucb_kappa self
  ∧ validation_mode self' = validation_mode self
  ∧ gp_kwargs self' = gp_kwargs self.
Proof.
  revert self. induction os as [|o os IH]; intros self.
  - intros [= <-]. split_and!; try done.
    + exists []. by rewrite app_nil_r.
    + destruct (test_dataset self); [|done]. exists []. by rewrite app_nil_r.
    + destruct (acquisition_function self); [done|].
      exists []. by rewrite app_nil_r.
  - rewrite fit_cons.
    destruct (step log_prob o self) as [self1 [[]|e]] eqn:Hstep; [|done].
    intros Hfit.
    apply step_bookkeeping in Hstep
      as ((info & Hinfo & Htr) & Hte & Hac & Ht0 & Hn & Hg & Htd & Haf & Hk
          & Hv & Hgk).
    destruct (IH _ Hfit)
      as ((infos & Hinfos & Htr') & Hte' & Hac' & Ht0' & Hn' & Hg' & Htd' & Haf'
          & Hk' & Hv' & Hgk').
    rewrite Htd in Hte'. rewrite Haf in Hac'.
    split_and!; try congruence.
    + exists (info :: infos). split; [by constructor|].
      by rewrite Htr', Htr, <- app_assoc.
    + destruct (test_dataset self).
      * destruct Hte as (m & Hm & Hte), Hte' as (ms & Hms & Hte').
        exists (m :: ms). split; [by constructor|].
        by rewrite Hte', Hte, <- app_assoc.
      * congruence.
    + destruct (acquisition_function self).
      * congruence.
      * destruct Hac as (item & Hitem & Hac), Hac' as (items & Hitems & Hac').
        exists (item :: items). split.
        -- constructor; [done|].
           eapply Forall2_impl; [exact Hitems|].
           intros o' item'. unfold records, all_thetas. by rewrite Hg.
        -- by rewrite Hac', Hac, <- app_assoc.
Qed.

(** One step of the learner that has trialed 0.25 and 0.5, which has a
    test dataset: one entry is added to each history. *)
Lemma fit_bookkeeping_witness :
  ∃ self', fit (H := example_arith) example_log_prob [example_oracle_2]
             example_learner_2 = (self', Ok tt)
    ∧ length (_train_history self') = 1%nat
    ∧ length (_test_history self') = 1%nat
    ∧ length (acquisition_history self') = 1%nat.
Proof.
  destruct (fit (H := example_arith) example_log_prob [example_oracle_2]
              example_learner_2) as [self' r] eqn:Hfit.
  assert (r = Ok tt) as -> by (vm_compute in Hfit; by injection Hfit).
  exists self'. split; [reflexivity|].
  destruct (fit_bookkeeping (H := example_arith) example_log_prob _ _ _ Hfit)
    as ((infos & Hinfos & ->) & (ms & Hms & ->) & (items & Hitems & ->) & _).
  apply Forall2_length in Hinfos, Hms, Hitems.
  rewrite !length_app, <- Hinfos, <- Hms, <- Hitems. done.
Defined.
(** ** A step on an exhausted grid *)

Lemma bool_assign_all (mask : list bool) (a ucb : list fval) :
  Forall (λ b, b = true) mask → bool_assign mask NegInf a = Ok ucb →
  Forall (λ w, w = NegInf) ucb.
Proof.
  intros Hall. unfold bool_assign. case_decide; [|done]. intros [= <-].
  apply Forall_forall. intros w (b & e & -> & Hb & _)%elem_of_zip_with.
  rewrite Forall_forall in Hall. by rewrite (Hall b Hb).
Qed.

Lemma argmax_from_NegInf (a : list fval) (i : nat) :
  Forall (λ w, w = NegInf) a → argmax_from NegInf 0 i a = 0%nat.
Proof.
  intros Ha. revert i. induction Ha as [|w a -> _ IH]; intros i; [done|].
  simpl. apply IH.
Qed.

Lemma argmax_NegInf (a : list fval) (idx : nat) :
  Forall (λ w, w = NegInf) a → argmax a = Ok idx → idx = 0%nat.
Proof.
  destruct a as [|w a]; [done|]. intros [-> Ha]%Forall_cons_1. simpl.
  intros [= <-]. by apply argmax_from_NegInf.
Qed.

Lemma random_index_exhausted (o : Oracle) (self : ActiveLearner) :
  Forall (λ b, b = true) (_trialed_mask self) →
  random_index o self = Raise ValueError.
Proof.
  intros Hall. unfold random_index. cbv zeta. rewrite decide_True; [done|].
  induction Hall as [|b mask -> _ IH]; [done|].
  rewrite fmap_cons. change (sum (?v :: ?a)) with (v + sum a).
  rewrite IH. ring.
Qed.

(** X11.  When every point of the grid is trialed, a further [step]
    fails.  In the random mode it raises [ValueError] and the learner is
    unchanged.  In the acquisition-guided mode an index that the policy
    returns is 0, and [step] raises [AssertionError], but only after it has
    simulated a fragment at grid point 0, grown and reshuffled the dataset,
    and refitted and evaluated the model (when these stages pass): the
    learner keeps the grown dataset and the new entries of its histories,
    and its mask is unchanged. *)
Theorem step_exhausted_grid `{FloatArith} (log_prob : Theta → Row → Qc)
    (o : Oracle) (self : ActiveLearner) :
  Forall (λ b, b = true) (_trialed_mask self) →
  (acquisition_function self = Random →
   step log_prob o self = (self, Raise ValueError))
  ∧ (acquisition_function self = Scoring →
     ∀ self1 idx,
       choose_next_theta_index o self = (self1, Ok idx) →
       idx = 0%nat
       ∧ ∀ next_theta new_ds ds info m,
           all_thetas self !! 0%nat = Some next_theta →
           from_simulator log_prob (theta_0 self) (SingleParamIterator next_theta 1)
             (n_samples_per_theta self) (new_draws o) = Ok new_ds →
           RatioDataset_shuffle (reshuffle o)
             (RatioDataset_concat (dataset self) new_ds) = Ok ds →
           model_fit o = Ok tt →
           training_info o = Ok info →
           training_info_log o = Ok tt →
           evaluated o self = Ok m →
           ∃ self', step log_prob o self = (self', Raise AssertionError)
             ∧ dataset self' = ds
             ∧ _train_history self' = _train_history self ++ [info]
             ∧ _test_history self'
               = _test_history self ++ (if test_dataset self then [m] else [])
             ∧ length (acquisition_history self')
               = S (length (acquisition_history self))
             ∧ _trialed_mask self' = _trialed_mask self).
Proof.
  intros Hall. split.
  - intros Hacq.
    by rewrite step_unfold, choose_unfold, Hacq, random_index_exhausted.
  - intros Hacq self1 idx Hc.
    pose proof (choose_Ok _ _ _ _ Hc) as Hok. rewrite Hacq in Hok.
    destruct Hok as (item & Hchoice & Hs1).
    apply ucb_choice_inv in Hchoice
      as (U_theta_train & U_theta_pred & std & ucb & _ & _ & _ & _ & Hucb
          & Hidx & _).
    assert (idx = 0%nat) as ->.
    { unfold masked_ucb in Hucb.
      destruct (broadcast2 _ _ _) as [ucb0|]; [|done]. cbn [rbind] in Hucb.
      eapply argmax_NegInf; [|done]. by eapply bool_assign_all. }
    split; [done|].
    intros next_theta new_ds ds info m Hth Hsim Hsh Hfit Hinfo Hlog Hev.
    assert (_trialed_mask self !! 0%nat = Some true) as Hm.
    { destruct (_trialed_mask self) as [|b mask] eqn:Hmask.
      - unfold masked_ucb in Hucb.
        destruct (broadcast2 _ _ _) as [ucb0|]; [|done]. cbn [rbind] in Hucb.
        unfold bool_assign in Hucb. rewrite Hmask in Hucb.
        case_decide; [|done]. injection Hucb as <-. done.
      - by apply Forall_cons_1 in Hall as [-> _]. }
    eexists. split; [by eapply step_asserts|].
    subst self1. unfold refitted, recorded. simpl.
    rewrite length_app. simpl. split_and!; try done. lia.
Qed.

(** The two-point grid, both points trialed: the step fails on the
    assertion with the dataset grown from four to six examples. *)
Lemma step_exhausted_grid_witness :
  ∃ self', step (H := example_arith) example_log_prob example_oracle_3
             example_exhausted_learner = (self', Raise AssertionError)
    ∧ RatioDataset_len (dataset self') = 6%nat
    ∧ _trialed_mask self' = [true; true].
Proof.
  destruct (choose_next_theta_index (H := example_arith) example_oracle_3
              example_exhausted_learner) as [self1 r] eqn:Hc.
  assert (∃ idx, r = Ok idx) as [idx ->].
  { vm_compute in Hc. injection Hc as _ <-. by eexists. }
  destruct (proj2 (step_exhausted_grid (H := example_arith) example_log_prob
                     example_oracle_3 example_exhausted_learner
                     ltac:(by repeat constructor)) eq_refl self1 idx Hc)
    as [_ Hstep].
  edestruct (Hstep [0]) as (self' & Hs & Hds & _ & _ & _ & Hmask);
    [reflexivity|vm_compute; reflexivity|vm_compute; reflexivity|reflexivity
    |reflexivity|reflexivity|reflexivity|].
  exists self'. split; [exact Hs|]. rewrite Hds, Hmask. split; reflexivity.
Defined.
(** ** [trialed_thetas] and [remaining_thetas] partition the grid *)

Local Close Scope Qc_scope.

Lemma trialed_count_negb (mask : list bool) :
  trialed_count (negb <$> mask) = untrialed_count mask.
Proof. unfold trialed_count, untrialed_count. by rewrite <- list_fmap_compose. Qed.

Lemma selected_partition {A} (a : list A) (mask : list bool) :
  length mask = length a →
  selected a mask ++ selected a (negb <$> mask) ≡ₚ a.
Proof.
  revert a. induction mask as [|b mask IH]; intros [|v a] Hlen; try done.
  rewrite fmap_cons, !selected_cons. specialize (IH a ltac:(by injection Hlen)).
  destruct b; simpl.
  - by rewrite IH.
  - rewrite <- Permutation_middle. by rewrite IH.
Qed.

Lemma selected_elem_of {A} (a : list A) (mask : list bool) (v : A) :
  v ∈ selected a mask ↔ ∃ i, a !! i = Some v ∧ mask !! i = Some true.
Proof.
  revert mask. induction a as [|w a IH]; intros [|b mask].
  - split; [by intros ?%elem_of_nil | by intros (i & ? & _)].
  - split; [by intros ?%elem_of_nil | by intros (i & ? & _)].
  - split; [by intros ?%elem_of_nil | by intros (i & _ & ?)].
  - rewrite selected_cons, elem_of_app, IH. split.
    + intros [Hv|(i & ? & ?)]; [|by exists (S i)].
      destruct b; [|by apply elem_of_nil in Hv].
      apply list_elem_of_singleton in Hv as ->. by exists 0.
    + intros ([|i] & Hv & Hb); simpl in *.
      * injection Hv as ->. injection Hb as ->. left. by apply list_elem_of_singleton.
      * right. by exists i.
Qed.

(** Marking an unmarked index moves its entry from the unselected to the
    selected ones. *)
Lemma selected_insert {A} (a : list A) (mask : list bool) (i : nat) (v : A) :
  a !! i = Some v → mask !! i = Some false →
  selected a (<[i := true]> mask) ≡ₚ v :: selected a mask
  ∧ selected a (negb <$> mask) ≡ₚ v :: selected a (negb <$> <[i := true]> mask).
Proof.
  revert mask i. induction a as [|w a IH]; intros [|b mask] [|i] Hv Hb; try done;
    simpl in Hv, Hb.
  - injection Hv as ->. injection Hb as ->. by split.
  - destruct (IH mask i Hv Hb) as [IH1 IH2].
    change (<[S i:=true]> (b :: mask)) with (b :: <[i:=true]> mask).
    rewrite !fmap_cons, !selected_cons.
    split.
    + rewrite IH1. destruct b; simpl; [apply perm_swap|done].
    + rewrite IH2. destruct b; simpl; [done|apply perm_swap].
Qed.

Local Open Scope Qc_scope.

Lemma remaining_thetas_Ok (self : ActiveLearner) :
  length (_trialed_mask self) = length (all_thetas self) →
  remaining_thetas self
  = Ok (selected (all_thetas self) (negb <$> _trialed_mask self)).
Proof.
  intros Hlen. unfold remaining_thetas, bool_index.
  by rewrite decide_True by (by rewrite length_fmap).
Qed.

(** X12.  With a mask as long as the grid, [trialed_thetas] and
    [remaining_thetas] split the grid: together they hold every grid point
    exactly once, the trialed ones being the points whose mask entry is set;
    their lengths are the numbers of trialed and of untrialed points.  A
    successful [step] moves exactly one grid point, the chosen one, from the
    remaining to the trialed points.  With a mask of another length both
    properties raise [IndexError]. *)
Theorem trialed_remaining_partition (self : ActiveLearner) :
  (length (_trialed_mask self) = length (all_thetas self) →
   ∃ tr re, trialed_thetas self = Ok tr ∧ remaining_thetas self = Ok re
     ∧ tr ++ re ≡ₚ all_thetas self
     ∧ length tr = trialed_count (_trialed_mask self)
     ∧ length re = untrialed_count (_trialed_mask self)
     ∧ (∀ theta, theta ∈ tr ↔
          ∃ i, all_thetas self !! i = Some theta ∧ _trialed_mask self !! i = Some true)
     ∧ (∀ theta, theta ∈ re ↔
          ∃ i, all_thetas self !! i = Some theta ∧ _trialed_mask self !! i = Some false)
     ∧ ∀ (arith : FloatArith) log_prob o self',
         step (H := arith) log_prob o self = (self', Ok tt) →
         ∃ theta tr' re', trialed_thetas self' = Ok tr'
           ∧ remaining_thetas self' = Ok re'
           ∧ tr' ≡ₚ theta :: tr ∧ re ≡ₚ theta :: re')
  ∧ (length (_trialed_mask self) ≠ length (all_thetas self) →
     trialed_thetas self = Raise IndexError
     ∧ remaining_thetas self = Raise IndexError).
Proof.
  split.
  - intros Hlen. exists (selected (all_thetas self) (_trialed_mask self)),
      (selected (all_thetas self) (negb <$> _trialed_mask self)).
    split_and!.
    + by apply trialed_thetas_Ok.
    + by apply remaining_thetas_Ok.
    + by apply selected_partition.
    + by apply selected_length.
    + rewrite <- trialed_count_negb. apply selected_length. by rewrite length_fmap.
    + intros theta. apply selected_elem_of.
    + intros theta.
      rewrite selected_elem_of. split; intros (i & Hv & Hb); exists i; (split; [done|]).
      * rewrite list_lookup_fmap in Hb. by destruct (_trialed_mask self !! i) as [[]|].
      * by rewrite list_lookup_fmap, Hb.
    + intros arith log_prob o self' Hstep.
      apply step_Ok in Hstep
        as (self1 & idx & theta & new_ds & ds & info & m & Hc & Hth & _ & _ & _ & _ & _ & _
            & Hidx & ->).
      destruct (choose_fields _ _ _ _ Hc) as (_ & _ & _ & Hgrid & _).
      assert (_trialed_mask
                (set_trialed_mask (<[idx := true]> (_trialed_mask self))
                   (refitted info m ds self1))
              = <[idx := true]> (_trialed_mask self)) as Hmask by done.
      assert (all_thetas (set_trialed_mask (<[idx := true]> (_trialed_mask self))
                            (refitted info m ds self1)) = all_thetas self) as Hall
        by (unfold all_thetas; simpl; by rewrite Hgrid).
      rewrite trialed_thetas_Ok, remaining_thetas_Ok
        by (by rewrite Hall, Hmask, length_insert).
      rewrite Hall, Hmask.
      destruct (selected_insert _ _ _ _ Hth Hidx) as [H1 H2].
      eexists theta, _, _. split_and!; [reflexivity|reflexivity|exact H1|exact H2].
  - intros Hne. unfold trialed_thetas, remaining_thetas, bool_index.
    unfold all_thetas in Hne.
    split; rewrite decide_False; rewrite ?length_fmap; done.
Qed.

(** The example learner: one trialed point and four remaining ones. *)
Lemma trialed_remaining_partition_witness :
  trialed_thetas example_learner = Ok [[Q2Qc (1 # 2)]]
  ∧ ∃ re, remaining_thetas example_learner = Ok re ∧ length re = 4%nat.
Proof.
  destruct (proj1 (trialed_remaining_partition example_learner) eq_refl)
    as (tr & re & Htr & Hre & _ & _ & Hlen & _).
  split; [reflexivity|]. by exists re.
Defined.

(** ** [param_scan]: the number of batches and the failures *)

Local Close Scope Qc_scope.

Lemma split_sizes_app {A} (s1 s2 : list nat) (a : list A) :
  split_sizes (s1 ++ s2) a
  = split_sizes s1 a ++ split_sizes s2 (drop (sum_list s1) a).
Proof.
  revert a. induction s1 as [|s s1 IH]; intros a; [done|].
  simpl. rewrite IH, drop_drop. done.
Qed.

Lemma split_sizes_zeros {A} (m : nat) (a : list A) :
  split_sizes (replicate m 0) a = replicate m [].
Proof. induction m as [|m IH]; [done|]. simpl. by rewrite take_0, drop_0, IH. Qed.

(** More groups than entries: singletons followed by empty groups. *)
Lemma array_split_too_many {A} (a : list A) (k : Z) :
  (Z.of_nat (length a) < k)%Z →
  ∃ groups rest, array_split a k = Ok (groups ++ [] :: rest)
    ∧ Forall (λ b, b ≠ []) groups.
Proof.
  intros Hk. unfold array_split. rewrite decide_False by lia.
  rewrite Nat.div_small, Nat.mod_small by lia.
  rewrite split_sizes_app, split_sizes_zeros.
  destruct (Z.to_nat k - length a) as [|m] eqn:Hm; [lia|].
  eexists _, _. split; [done|].
  apply split_sizes_nonempty.
  - rewrite sum_list_replicate. lia.
  - apply Forall_replicate. lia.
Qed.

Local Open Scope Qc_scope.

Section ScanBatches.
Variable predict_proba : list Row → result (list Qc).
Variable estimated_likelihood_ratio : list Qc → list Qc.
Variable estimated_log_likelihood_ratio : list Qc → list Qc.
Variable proba : Row → Qc.
Variable log_ratio : Qc → Qc.
Hypothesis Hrow : row_wise predict_proba proba.
Hypothesis Helt : element_wise estimated_log_likelihood_ratio log_ratio.

Lemma param_scan_loop_empty_group (X_true : list Row) (gs1 gs2 : list (list Theta))
    (acc : list Qc) :
  Forall (λ b, b ≠ []) gs1 →
  param_scan_loop predict_proba estimated_likelihood_ratio
    estimated_log_likelihood_ratio X_true (gs1 ++ [] :: gs2) acc
  = Raise ValueError.
Proof.
  intros Hne. revert acc. induction Hne as [|b gs1 Hb _ IH]; intros acc.
  - reflexivity.
  - cbn [app param_scan_loop].
    rewrite (param_scan_group_spec _ _ _ proba log_ratio) by done.
    cbn [rbind]. apply IH.
Qed.

(** The scan with a valid number of batches. *)
Lemma param_scan_valid (X_true : list Row) (g : ParamGrid) (k : Z) :
  (0 < k ≤ Z.of_nat (length (values g)))%Z →
  param_scan predict_proba estimated_likelihood_ratio
    estimated_log_likelihood_ratio X_true g k
  = let nllr := nllr_of proba log_ratio X_true <$> values g in
    let! i := argmin nllr in
    let! mle := ParamIterator_getitem g i in
    let! profile := _to_meshgrid_shape nllr g in
    Ok (profile, mle).
Proof.
  intros Hk. unfold param_scan, ParamGrid_array.
  destruct (array_split_spec (values g) k Hk) as (groups & -> & _ & Hne & Hjoin).
  cbn [rbind]. rewrite (param_scan_loop_spec _ _ _ proba log_ratio) by done.
  cbn [rbind app]. by rewrite Hjoin.
Qed.

End ScanBatches.

(** X14.  For a classifier that works row by row, the result of
    [param_scan] does not depend on the number of batches, as long as it is
    between one and the number of grid points.  A number of batches that is
    zero or negative, or larger than the number of grid points (in
    particular any number on an empty grid), raises [ValueError]. *)
Theorem param_scan_batches (predict_proba : list Row → result (list Qc))
    (estimated_likelihood_ratio estimated_log_likelihood_ratio : list Qc → list Qc)
    (proba : Row → Qc) (log_ratio : Qc → Qc)
    (X_true : list Row) (g : ParamGrid) (theta_batch_size : Z) :
  row_wise predict_proba proba →
  element_wise estimated_log_likelihood_ratio log_ratio →
  ((0 < theta_batch_size ≤ Z.of_nat (length (values g)))%Z →
   param_scan predict_proba estimated_likelihood_ratio
     estimated_log_likelihood_ratio X_true g theta_batch_size
   = param_scan predict_proba estimated_likelihood_ratio
       estimated_log_likelihood_ratio X_true g 1)
  ∧ ((theta_batch_size ≤ 0)%Z →
     param_scan predict_proba estimated_likelihood_ratio
       estimated_log_likelihood_ratio X_true g theta_batch_size
     = Raise ValueError)
  ∧ ((Z.of_nat (length (values g)) < theta_batch_size)%Z →
     param_scan predict_proba estimated_likelihood_ratio
       estimated_log_likelihood_ratio X_true g theta_batch_size
     = Raise ValueError).
Proof.
  intros Hrow Helt. split_and!.
  - intros Hk. by rewrite !(param_scan_valid _ _ _ proba log_ratio) by (done || lia).
  - intros Hk. unfold param_scan, array_split. by rewrite decide_True.
  - intros Hk. unfold param_scan, ParamGrid_array.
    destruct (array_split_too_many (values g) theta_batch_size Hk)
      as (groups & rest & -> & Hne).
    cbn [rbind]. by rewrite (param_scan_loop_empty_group _ _ _ proba log_ratio).
Qed.

(** The five-point grid scanned in five batches and in one. *)
Lemma param_scan_batches_witness :
  param_scan (λ X, Ok (sum <$> X)) (λ a, a) (fmap (λ p, p * p))
    [[Q2Qc (1 # 2)]; [Q2Qc (3 # 4)]] example_grid 5
  = param_scan (λ X, Ok (sum <$> X)) (λ a, a) (fmap (λ p, p * p))
      [[Q2Qc (1 # 2)]; [Q2Qc (3 # 4)]] example_grid 1.
Proof.
  apply (proj1 (param_scan_batches (λ X, Ok (sum <$> X)) (λ a, a)
                 (fmap (λ p, p * p)) sum (λ p, p * p)
                 [[Q2Qc (1 # 2)]; [Q2Qc (3 # 4)]] example_grid 5
                 (λ X, eq_refl) (λ a, eq_refl))).
  simpl. lia.
Defined.
(** ** [exact_param_scan]: the maximum-likelihood grid point *)





(** ** What a step adds to the dataset *)





